(** * virHEAT data preparation: a shallow embedding of [data_prep.py]

    The development follows [src/virheat/scripts/data_prep.py] function by
    function.  Python values are modelled as follows.

    - [str] is [string] (the model covers ASCII text, one [ascii] per code
      point); [int] is [Z]; a numpy [float64] is a primitive [float], so
      [nan], [==], [<] and [-] behave as IEEE 754 prescribes;
    - a [dict] read only by key is a [gmap]; a [dict] whose iteration order
      is observable is an association list;
    - a raised exception is the [Raise] branch of [result];
    - a text file is the list of its lines as iteration over the open file
      yields them (each line still carries its line terminator);
    - [int(s)] and [str(n)] raise [ValueError] beyond 4300 digits, the
      limit CPython starts with since 3.11 ([sys.int_max_str_digits]);
    - the iteration order of a Python [set] is unspecified: the functions
      that iterate over a set take that order as the parameter [set_iter].
*)

From Stdlib Require Import ZArith List String Ascii Floats Lia Permutation Sorted.
From stdpp Require Import base option list gmap strings fin_maps pretty.

Open Scope string_scope.
Open Scope list_scope.
Open Scope Z_scope.

(** ** Python values, exceptions and string methods *)

Module Py.

Inductive exn : Type :=
  | IndexError
  | KeyError (key : string)
  | ValueError
  | TypeError
  | AttributeError
  | UnboundLocalError
  | SystemExit (msg : string).

Inductive result (A : Type) : Type :=
  | Ok (a : A)
  | Raise (e : exn).

Arguments Ok {A} a.

Arguments Raise {A} e.

#[export] Instance result_ret : MRet result := @Ok.

#[export] Instance result_bind : MBind result :=
  λ A B f m, match m with Ok a => f a | Raise e => Raise e end.

#[export] Instance result_fmap : FMap result :=
  λ A B f m, match m with Ok a => Ok (f a) | Raise e => Raise e end.

(** The messages the program exits with begin with [ERROR:] in bold red:
    the escape sequences [\033[31m] and [\033[1m], the word, the reset
    [\033[0m] and a space. *)
Definition esc : ascii := "027"%char.

Definition error_prefix : string :=
  String esc "[31m" +:+ String esc "[1mERROR:" +:+ String esc "[0m ".

(** [l[i]] on a Python list, for [i >= 0]. *)
Definition index {A} (l : list A) (i : nat) : result A :=
  match l !! i with
  | Some x => Ok x
  | None => Raise IndexError
  end.

(** [d[k]] on a dict. *)
Definition getitem {V} (d : gmap string V) (k : string) : result V :=
  match d !! k with
  | Some v => Ok v
  | None => Raise (KeyError k)
  end.

(** Whether a run returned. *)
Definition is_ok {A} (r : result A) : bool :=
  match r with Ok _ => true | Raise _ => false end.

(** A [for] loop whose body may raise: the state is threaded from left to
    right and the first exception ends the loop. *)
Fixpoint for_each {A S} (body : S → A → result S) (s : S) (l : list A) : result S :=
  match l with
  | [] => Ok s
  | x :: l' => s' ← body s x; for_each body s' l'
  end.

(** [s.split(sep)] for a one-character separator: every occurrence splits,
    and the result always has at least one element. *)
Fixpoint split (sep : ascii) (s : string) : list string :=
  match s with
  | EmptyString => [EmptyString]
  | String c s' =>
      if Ascii.eqb c sep then EmptyString :: split sep s'
      else match split sep s' with
           | w :: ws => String c w :: ws
           | [] => [String c EmptyString]
           end
  end.

(** [sep in s] for a one-character [sep]. *)
Fixpoint contains (sep : ascii) (s : string) : bool :=
  match s with
  | EmptyString => false
  | String c s' => Ascii.eqb c sep || contains sep s'
  end.

(** [s.startswith(p)]. *)
Fixpoint startswith (s p : string) : bool :=
  match p with
  | EmptyString => true
  | String a p' =>
      match s with
      | EmptyString => false
      | String b s' => Ascii.eqb a b && startswith s' p'
      end
  end.

(** [str.isspace] on ASCII: tab, line feed, vertical tab, form feed,
    carriage return, the four separators 0x1c-0x1f, and space. *)
Definition is_space (c : ascii) : bool :=
  let n := nat_of_ascii c in
  ((9 <=? n)%nat && (n <=? 13)%nat) || ((28 <=? n)%nat && (n <=? 32)%nat).

Fixpoint lstrip (s : string) : string :=
  match s with
  | String c s' => if is_space c then lstrip s' else s
  | EmptyString => EmptyString
  end.

Fixpoint rstrip (s : string) : string :=
  match s with
  | EmptyString => EmptyString
  | String c s' =>
      match rstrip s' with
      | EmptyString => if is_space c then EmptyString else String c EmptyString
      | r => String c r
      end
  end.

(** [s.strip()]. *)
Definition strip (s : string) : string := rstrip (lstrip s).

(** [s.replace(c, "")]: every occurrence of the character is removed. *)
Fixpoint remove_all (c : ascii) (s : string) : string :=
  match s with
  | EmptyString => EmptyString
  | String a s' => if Ascii.eqb a c then remove_all c s' else String a (remove_all c s')
  end.

(** [s.replace(c, "", 1)]: the first occurrence of the character is removed. *)
Fixpoint remove_first (c : ascii) (s : string) : string :=
  match s with
  | EmptyString => EmptyString
  | String a s' => if Ascii.eqb a c then s' else String a (remove_first c s')
  end.

Definition is_digit (c : ascii) : bool :=
  let n := nat_of_ascii c in (48 <=? n)%nat && (n <=? 57)%nat.

Definition digit_value (c : ascii) : Z := Z.of_nat (nat_of_ascii c) - 48.

Fixpoint all_digits (s : string) : bool :=
  match s with
  | EmptyString => true
  | String c s' => is_digit c && all_digits s'
  end.

(** [s.isdecimal()]: a non-empty string of decimal digits. *)
Definition isdecimal (s : string) : bool :=
  match s with
  | EmptyString => false
  | _ => all_digits s
  end.

(** The value of a digit string read left to right from the accumulator. *)
Fixpoint digits_value (acc : Z) (s : string) : Z :=
  match s with
  | EmptyString => acc
  | String c s' => digits_value (10 * acc + digit_value c) s'
  end.

(** The digits of an integer literal, where single underscores may group
    digits: [prev] tells whether the previous character was a digit. *)
Fixpoint literal_digits (prev : bool) (acc : Z) (s : string) : option Z :=
  match s with
  | EmptyString => if prev then Some acc else None
  | String c s' =>
      if is_digit c then literal_digits true (10 * acc + digit_value c) s'
      else if Ascii.eqb c "_"%char then
        if prev then literal_digits false acc s' else None
      else None
  end.

(** White space as [int] skips it around a literal, C's [isspace]: tab, line
    feed, vertical tab, form feed, carriage return and space.  The
    separators 0x1c-0x1f, which [str.strip] removes, are not skipped. *)
Definition is_c_space (c : ascii) : bool :=
  let n := nat_of_ascii c in
  ((9 <=? n)%nat && (n <=? 13)%nat) || (n =? 32)%nat.

Fixpoint skip_spaces (s : string) : string :=
  match s with
  | String c s' => if is_c_space c then skip_spaces s' else s
  | EmptyString => EmptyString
  end.

Fixpoint drop_trailing_spaces (s : string) : string :=
  match s with
  | EmptyString => EmptyString
  | String c s' =>
      match drop_trailing_spaces s' with
      | EmptyString => if is_c_space c then EmptyString else String c EmptyString
      | r => String c r
      end
  end.

(** [sys.int_max_str_digits] as the interpreter starts with it: converting
    between [int] and decimal text raises [ValueError] for more digits. *)
Definition int_max_str_digits : Z := 4300.

(** The number of digits of a literal; underscores and the sign do not
    count. *)
Fixpoint count_digits (s : string) : Z :=
  match s with
  | EmptyString => 0
  | String c s' => (if is_digit c then 1 else 0) + count_digits s'
  end.

(** [int(s)] for a string in base 10: surrounding whitespace is ignored, one
    sign is allowed, and anything else that is not a digit group raises
    [ValueError]; so does a literal of more than [int_max_str_digits]
    digits. *)
Definition int (s : string) : result Z :=
  let body := drop_trailing_spaces (skip_spaces s) in
  let '(sign, digits) :=
    match body with
    | String "-"%char r => (-1, r)
    | String "+"%char r => (1, r)
    | _ => (1, body)
    end in
  match literal_digits false 0 digits with
  | Some n =>
      if int_max_str_digits <? count_digits digits then Raise ValueError
      else Ok (sign * n)
  | None => Raise ValueError
  end.

(** The decimal numeral of an integer, as [str(n)] writes it. *)
Definition str_of_int (n : Z) : string := pretty n.

(** [str(n)] for an [int]: the numeral, unless the integer has more than
    [int_max_str_digits] digits. *)
Definition str_int (n : Z) : result string :=
  if int_max_str_digits <? Z.of_nat (String.length (str_of_int (Z.abs n)))
  then Raise ValueError
  else Ok (str_of_int n).

(** [sorted(l, key=...)] once the keys are known: a stable insertion sort.
    Elements are inserted from the last to the first, each one in front of
    the elements whose key is not smaller, so that elements with equal keys
    keep the order they came in. *)
Fixpoint insert_sorted {K A} (leb : K → K → bool) (x : K * A) (l : list (K * A)) : list (K * A) :=
  match l with
  | [] => [x]
  | y :: l' => if leb x.1 y.1 then x :: l else y :: insert_sorted leb x l'
  end.

Definition sort_keyed {K A} (leb : K → K → bool) (l : list (K * A)) : list (K * A) :=
  foldr (insert_sorted leb) [] l.

(** [set(l)] as the list of the distinct elements, first occurrences first.
    The order in which Python iterates over the set is not this one; callers
    apply their [set_iter] parameter to it. *)
Fixpoint distinct `{EqDecision A} (l : list A) : list A :=
  match l with
  | [] => []
  | x :: l' => x :: filter (λ y, y ≠ x) (distinct l')
  end.

(** *** Facts about the primitives *)

Lemma bind_Ok {A B} (m : result A) (f : A → result B) b :
  m ≫= f = Ok b ↔ ∃ a, m = Ok a ∧ f a = Ok b.
Proof.
  destruct m as [a|e]; simpl; split.
  - intros H; exists a; auto.
  - intros (a' & [= <-] & H); exact H.
  - discriminate.
  - intros (a' & H & _); discriminate.
Qed.

Lemma for_each_app {A S} (body : S → A → result S) s l1 l2 :
  for_each body s (l1 ++ l2) = s' ← for_each body s l1; for_each body s' l2.
Proof.
  revert s; induction l1 as [|x l1 IH]; intros s; simpl; [done|].
  destruct (body s x) as [s'|e]; simpl; [apply IH | done].
Qed.

Lemma for_each_Exists_raise {A S} (body : S → A → result S) (P : A → Prop) l :
  (∀ s x, P x → ∃ e, body s x = Raise e) →
  Exists P l → ∀ s, ∃ e, for_each body s l = Raise e.
Proof.
  intros Hbody Hex. induction Hex as [x l Hx | x l _ IH]; intros s; simpl.
  - destruct (Hbody s x Hx) as [e ->]. by exists e.
  - destruct (body s x) as [s'|e]; simpl; [apply IH | by exists e].
Qed.

Lemma for_each_inv {A S} (body : S → A → result S) (I : S → Prop) l : ∀ s,
  I s →
  (∀ s x, x ∈ l → I s → ∃ s', body s x = Ok s' ∧ I s') →
  ∃ s', for_each body s l = Ok s' ∧ I s'.
Proof.
  induction l as [|x l IH]; intros s Hs Hbody; simpl; [by exists s|].
  destruct (Hbody s x) as (s1 & -> & Hs1); [by left|done|]. simpl.
  apply IH; [done|]. intros s2 y Hy. apply Hbody. by right.
Qed.

(** [int] raises nothing but [ValueError]. *)
Lemma int_raises s e : int s = Raise e → e = ValueError.
Proof.
  unfold int.
  destruct (match drop_trailing_spaces (skip_spaces s) with
            | String "-"%char r => (-1, r)
            | String "+"%char r => (1, r)
            | _ => (1, drop_trailing_spaces (skip_spaces s))
            end) as [sign digits].
  destruct (literal_digits false 0 digits); [|congruence].
  destruct (_ <? _); congruence.
Qed.

Lemma insert_sorted_perm {K A} (leb : K → K → bool) (x : K * A) l :
  insert_sorted leb x l ≡ₚ x :: l.
Proof.
  induction l as [|y l IH]; simpl; [done|].
  destruct (leb x.1 y.1); [done|]. rewrite IH. apply Permutation_swap.
Qed.

Lemma sort_keyed_perm {K A} (leb : K → K → bool) (l : list (K * A)) :
  sort_keyed leb l ≡ₚ l.
Proof.
  unfold sort_keyed. induction l as [|x l IH]; simpl; [done|].
  by rewrite insert_sorted_perm, IH.
Qed.

Lemma insert_sorted_sorted {A} (x : Z * A) l :
  StronglySorted (λ a b, a.1 ≤ b.1) l →
  StronglySorted (λ a b, a.1 ≤ b.1) (insert_sorted Z.leb x l).
Proof.
  induction 1 as [|y l Hsorted IH Hy]; simpl.
  - repeat constructor.
  - destruct (Z.leb_spec x.1 y.1) as [Hle|Hgt].
    + constructor; [by constructor|]. constructor; [done|].
      eapply Forall_impl; [exact Hy|]. simpl. intros; lia.
    + constructor; [done|]. rewrite insert_sorted_perm. constructor; [lia|done].
Qed.

Lemma sort_keyed_sorted {A} (l : list (Z * A)) :
  StronglySorted (λ a b, a.1 ≤ b.1) (sort_keyed Z.leb l).
Proof.
  unfold sort_keyed. induction l as [|x l IH]; simpl; [constructor|].
  by apply insert_sorted_sorted.
Qed.

Lemma mapM_Ok {A B} (f : A → result B) l : ∀ k,
  mapM f l = Ok k → Forall2 (λ x y, f x = Ok y) l k.
Proof.
  induction l as [|x l IH]; intros k; simpl.
  - intros [= <-]. constructor.
  - intros (y & Hy & H)%bind_Ok. apply bind_Ok in H as (k' & Hk' & [= <-]).
    constructor; [done|by apply IH].
Qed.

Lemma mapM_returns {A B} (f : A → result B) l :
  Forall (λ x, ∃ y, f x = Ok y) l → ∃ k, mapM f l = Ok k.
Proof.
  induction 1 as [|x l [y Hy] _ [k Hk]]; simpl; [by eexists|].
  rewrite Hy. simpl. rewrite Hk. simpl. by eexists.
Qed.

Lemma split_nonempty sep s : split sep s ≠ [].
Proof.
  destruct s as [|c s]; simpl; [done|].
  destruct (Ascii.eqb c sep); [done|]. by destruct (split sep s).
Qed.

Lemma split_single sep s : length (split sep s) = 1%nat → split sep s = [s].
Proof.
  induction s as [|c s IH]; simpl; [done|].
  pose proof (split_nonempty sep s) as Hne.
  destruct (Ascii.eqb c sep).
  - destruct (split sep s); [done|]. simpl. lia.
  - destruct (split sep s) as [|w ws]; [done|]. simpl.
    intros [= Hws]. destruct ws; [|done]. by injection (IH eq_refl) as ->.
Qed.

Lemma insert_sorted_by {K A} (leb : K → K → bool) (f : K → Z) (x : K * A) l :
  (∀ a b, leb a b = true → f a ≤ f b) →
  (∀ a b, leb a b = false → f b ≤ f a) →
  StronglySorted (λ a b : K * A, f a.1 ≤ f b.1) l →
  StronglySorted (λ a b : K * A, f a.1 ≤ f b.1) (insert_sorted leb x l).
Proof.
  intros Hle Hgt. induction 1 as [|y l Hsorted IH Hy]; simpl.
  - repeat constructor.
  - destruct (leb x.1 y.1) eqn:Hxy.
    + constructor; [by constructor|]. apply Hle in Hxy. constructor; [done|].
      eapply Forall_impl; [exact Hy|]. simpl. intros; lia.
    + constructor; [done|]. rewrite insert_sorted_perm. constructor; [by apply Hgt|done].
Qed.

Lemma sort_keyed_sorted_by {K A} (leb : K → K → bool) (f : K → Z) (l : list (K * A)) :
  (∀ a b, leb a b = true → f a ≤ f b) →
  (∀ a b, leb a b = false → f b ≤ f a) →
  StronglySorted (λ a b : K * A, f a.1 ≤ f b.1) (sort_keyed leb l).
Proof.
  intros Hle Hgt. unfold sort_keyed. induction l as [|x l IH]; simpl; [constructor|].
  by apply insert_sorted_by.
Qed.

Lemma permutation_of_three {A} (a b c : A) l :
  l ≡ₚ [a; b; c] →
  l = [a; b; c] ∨ l = [a; c; b] ∨ l = [b; a; c]
  ∨ l = [b; c; a] ∨ l = [c; a; b] ∨ l = [c; b; a].
Proof.
  intros (k1 & k2 & -> & Hrest)%Permutation_cons_inv_r.
  apply Permutation_length_2_inv in Hrest.
  destruct k1 as [|x [|y [|z k1]]]; simpl in *;
    destruct Hrest as [Hrest|Hrest]; simplify_eq; tauto.
Qed.

End Py.

(** ** Digit strings: [str] and [int] on integers *)

Module Digits.
Import Py.

(** A numeral of [n] digits, for the worked examples. *)
Fixpoint ones (n : nat) : string :=
  match n with
  | O => ""
  | S n' => String "1" (ones n')
  end.

(** The characters [str.isdecimal] accepts are none of the separators of
    the formats read here, and no white space. *)
Lemma is_digit_not_char c sep :
  is_digit c = true → is_digit sep = false → Ascii.eqb c sep = false.
Proof.
  intros Hc Hsep. destruct (Ascii.eqb c sep) eqn:E; [|done].
  apply Ascii.eqb_eq in E. congruence.
Qed.

Lemma pretty_N_char_digit x :
  (x < 10)%N →
  is_digit (pretty_N_char x) = true ∧ digit_value (pretty_N_char x) = Z.of_N x.
Proof.
  intros H.
  assert (x = 0 ∨ x = 1 ∨ x = 2 ∨ x = 3 ∨ x = 4 ∨ x = 5 ∨ x = 6 ∨ x = 7 ∨ x = 8 ∨ x = 9)%N
    as Hx by lia.
  repeat (destruct Hx as [->|Hx]; [by vm_compute|]). subst. by vm_compute.
Qed.

(** The digits [pretty] puts in front of [s] are decimal digits, and read
    back they give the number. *)
Lemma pretty_N_go_digits x : ∀ s,
  all_digits s = true →
  all_digits (pretty_N_go x s) = true
  ∧ digits_value 0 (pretty_N_go x s) = digits_value (Z.of_N x) s
  ∧ (String.length s ≤ String.length (pretty_N_go x s))%nat.
Proof.
  induction (N.lt_wf_0 x) as [x _ IH]. intros s Hs.
  assert (x = 0 ∨ 0 < x)%N as [->|Hx] by lia.
  - by rewrite pretty_N_go_0.
  - rewrite pretty_N_go_step by done.
    destruct (pretty_N_char_digit (x `mod` 10)%N) as [Hd Hv].
    { by apply N.mod_lt. }
    destruct (IH (x `div` 10)%N) with (s := String (pretty_N_char (x `mod` 10)) s)
      as (H1 & H2 & H3).
    { by apply N.div_lt. }
    { simpl. by rewrite Hd, Hs. }
    split; [done|]. split.
    + rewrite H2. simpl. rewrite Hv. f_equal.
      pose proof (N.div_mod x 10). lia.
    + simpl in H3. lia.
Qed.

Lemma str_of_int_digits n :
  0 ≤ n →
  isdecimal (str_of_int n) = true ∧ digits_value 0 (str_of_int n) = n.
Proof.
  intros Hn. unfold str_of_int, pretty, pretty_Z.
  destruct n as [|p|p]; [done| |lia].
  unfold pretty, pretty_positive, pretty, pretty_N.
  destruct (decide (N.pos p = 0%N)) as [|_]; [done|].
  rewrite (pretty_N_go_step _ "") by done.
  destruct (pretty_N_char_digit (N.pos p `mod` 10)%N) as [Hd Hv].
  { by apply N.mod_lt. }
  destruct (pretty_N_go_digits (N.pos p `div` 10)%N (String (pretty_N_char (N.pos p `mod` 10)) ""))
    as (H1 & H2 & H3).
  { simpl. by rewrite Hd. }
  split.
  - unfold isdecimal.
    destruct (pretty_N_go _ _) eqn:E; [simpl in H3; lia|done].
  - rewrite H2. simpl. rewrite Hv.
    pose proof (N.div_mod (N.pos p) 10). lia.
Qed.

Lemma is_digit_not_c_space c : is_digit c = true → is_c_space c = false.
Proof.
  unfold is_digit, is_c_space. intros H.
  apply andb_true_iff in H as [H1 H2].
  apply Nat.leb_le in H1. apply Nat.leb_le in H2.
  apply orb_false_iff. split.
  - apply andb_false_iff. right. apply Nat.leb_gt. lia.
  - apply Nat.eqb_neq. lia.
Qed.

Lemma all_digits_no_space s :
  all_digits s = true → skip_spaces s = s ∧ drop_trailing_spaces s = s.
Proof.
  intros Hs. split.
  - destruct s as [|c s]; [done|]. simpl in *.
    apply andb_true_iff in Hs as [Hc _]. by rewrite (is_digit_not_c_space c Hc).
  - induction s as [|c s IH]; [done|]. simpl in *.
    apply andb_true_iff in Hs as [Hc Hs]. rewrite (IH Hs).
    rewrite (is_digit_not_c_space c Hc). by destruct s.
Qed.

Lemma literal_digits_all s : ∀ prev acc,
  all_digits s = true → s ≠ "" →
  literal_digits prev acc s = Some (digits_value acc s).
Proof.
  induction s as [|c s IH]; intros prev acc Hs Hne; [done|]. simpl in *.
  apply andb_true_iff in Hs as [Hc Hs]. rewrite Hc.
  destruct s as [|c' s]; [done|]. by apply IH.
Qed.

Lemma count_digits_all s :
  all_digits s = true → count_digits s = Z.of_nat (String.length s).
Proof.
  induction s as [|c s IH]; [done|]. cbn [all_digits count_digits String.length].
  intros [-> Hs]%andb_true_iff. rewrite (IH Hs). lia.
Qed.

(** [int] reads a string of decimal digits as its value, unless the string
    is longer than the interpreter converts. *)
Lemma int_digits s :
  isdecimal s = true →
  int s = if int_max_str_digits <? Z.of_nat (String.length s)
          then Raise ValueError else Ok (digits_value 0 s).
Proof.
  intros Hs. unfold isdecimal in Hs. destruct s as [|c s]; [done|].
  unfold int. destruct (all_digits_no_space _ Hs) as [-> ->].
  assert (is_digit c = true) as Hc by (simpl in Hs; by apply andb_true_iff in Hs as [? _]).
  assert (c ≠ "-"%char ∧ c ≠ "+"%char) as [Hm Hp].
  { split; intros ->; by vm_compute in Hc. }
  assert (match String c s with
          | String "-"%char r => (-1, r)
          | String "+"%char r => (1, r)
          | _ => (1, String c s)
          end = (1, String c s)) as ->.
  { destruct c as [[] [] [] [] [] [] [] []]; try done. }
  rewrite literal_digits_all, count_digits_all by done.
  destruct (_ <? _); [done|]. f_equal. lia.
Qed.

(** Round trip: [int(str(n)) == n] for every integer that [str] converts. *)
Lemma int_str_of_int n text : str_int n = Ok text → int text = Ok n.
Proof.
  unfold str_int.
  destruct (int_max_str_digits <? _) eqn:Hlen; [done|]. intros [= <-].
  destruct (decide (0 ≤ n)) as [Hn|Hn].
  - destruct (str_of_int_digits n Hn) as [H1 H2].
    rewrite Z.abs_eq in Hlen by done. by rewrite int_digits, Hlen, H2.
  - destruct n as [|p|p]; [lia|lia|].
    destruct (str_of_int_digits (Z.pos p)) as [H1 H2]; [lia|].
    change (Z.abs (Z.neg p)) with (Z.pos p) in Hlen.
    unfold str_of_int in *. change (pretty (Z.neg p)) with ("-" +:+ pretty (Z.pos p)).
    unfold isdecimal in H1. destruct (pretty (Z.pos p)) as [|c s] eqn:E; [done|].
    destruct (all_digits_no_space _ H1) as [_ Hr].
    change ("-" +:+ String c s) with (String "-" (String c s)).
    unfold int.
    change (skip_spaces (String "-" (String c s))) with (String "-" (String c s)).
    assert (drop_trailing_spaces (String "-" (String c s)) = String "-" (String c s)) as ->.
    { change (drop_trailing_spaces (String "-" (String c s)))
        with (match drop_trailing_spaces (String c s) with
              | "" => if is_c_space "-" then "" else "-"
              | r => String "-" r
              end).
      by rewrite Hr. }
    rewrite literal_digits_all, count_digits_all, Hlen by done. rewrite H2. f_equal.
Qed.

(** A prefix without the separator is the first field of a split. *)
Lemma split_prefix sep p rest :
  contains sep p = false →
  split sep (p +:+ String sep rest) = p :: split sep rest.
Proof.
  induction p as [|c p IH]; simpl; intros H.
  - by rewrite Ascii.eqb_refl.
  - apply orb_false_iff in H as [Hc Hp]. rewrite Hc, (IH Hp). done.
Qed.

Lemma split_without sep p : contains sep p = false → split sep p = [p].
Proof.
  induction p as [|c p IH]; simpl; intros H; [done|].
  apply orb_false_iff in H as [Hc Hp]. by rewrite Hc, (IH Hp).
Qed.

Lemma all_digits_contains sep s :
  is_digit sep = false → all_digits s = true → contains sep s = false.
Proof.
  intros Hsep. induction s as [|c s IH]; simpl; [done|]. intros H.
  apply andb_true_iff in H as [Hc Hs].
  by rewrite (is_digit_not_char c sep Hc Hsep), (IH Hs).
Qed.

End Digits.

(** ** Reading VCF files: [read_vcf] and [extract_vcf_data] *)

Module Vcf.
Import Py.

(** The values [convert_string] produces, and [None]. *)
Inductive pyval : Type :=
  | PInt (n : Z)
  | PFloat (f : float)
  | PStr (s : string)
  | PNone.

(** A text file: [stem] is [os.path.splitext(os.path.basename(path))[0]]
    and [lines] is what iterating over the open file yields. *)
Record text_file : Type := { stem : string; lines : list string }.

(** What the functions print. *)
Inductive warning : Type :=
  | NoChromHeader (file : string)
  | NoVariants (file reference : string)
  | NotInTsvFiles (file : string)
  | NoGenesFound.

Definition tab : ascii := ascii_of_nat 9.

Definition newline : ascii := ascii_of_nat 10.

(** [float(n)] for an [int] with [|n| < 2^53], where it is exact; used for
    the literals of the worked examples. *)
Definition float_of_int (n : Z) : float :=
  if n <? 0 then PrimFloat.opp (PrimFloat.of_uint63 (Uint63.of_Z (- n)))
  else PrimFloat.of_uint63 (Uint63.of_Z n).

(** *** Sample files for the worked examples *)

(** [float(s)] for the short decimal literals of the examples: the digits
    and the power of ten are both exact in binary64, so one IEEE division
    rounds correctly. *)
Definition decimal_float (s : string) : float :=
  let digits := remove_first "."%char s in
  let scale := match split "."%char s with
               | [_; fraction] => String.length fraction
               | _ => 0%nat
               end in
  PrimFloat.div (float_of_int (digits_value 0 digits)) (float_of_int (10 ^ Z.of_nat scale)).

(** The examples format no float; this stands in for [str] on one. *)
Definition float_repr_unused (f : float) : string := "<float>".

(** A line of a tab-separated file. *)
Definition tsv (fields : list string) : string :=
  foldr (λ field rest, match rest with
                       | EmptyString => field
                       | _ => field +:+ String tab rest
                       end) "" fields
  +:+ String newline "".

Definition vcf_header : string :=
  tsv ["#CHROM"; "POS"; "ID"; "REF"; "ALT"; "QUAL"; "FILTER"; "INFO"].

(** Two samples whose records are not in position order; the second has a
    line with two ALT alleles. *)
Definition sample_a : text_file :=
  {| stem := "sample_a";
     lines := ["##fileformat=VCFv4.2" +:+ String newline "";
               vcf_header;
               tsv ["ref"; "100"; "."; "A"; "T"; "50"; "PASS"; "DP=80;AF=0.5"];
               tsv ["ref"; "9"; "."; "AT"; "A"; "50"; "PASS"; "AF=1"];
               tsv ["other"; "7"; "."; "G"; "C"; "50"; "PASS"; "AF=1"]] |}.

Definition sample_b : text_file :=
  {| stem := "sample_b";
     lines := [vcf_header;
               tsv ["ref"; "10"; "."; "A"; "T,GA"; "50"; "PASS"; "DP=90,90;AF=0.5,0.25"];
               tsv ["ref"; "9"; "."; "AT"; "A"; "50"; "PASS"; "AF=0.75"]] |}.

(** A sample without the [#CHROM] line. *)
Definition sample_headerless : text_file :=
  {| stem := "sample_c";
     lines := ["##fileformat=VCFv4.2" +:+ String newline "";
               tsv ["ref"; "10"; "."; "A"; "T"; "50"; "PASS"; "AF=0.5"]] |}.

(** A line as LoFreq writes it: [DP4] has four values for one allele. *)
Definition sample_lofreq : text_file :=
  {| stem := "sample_d";
     lines := [vcf_header;
               tsv ["ref"; "241"; "."; "C"; "T"; "4950"; "PASS";
                    "DP=1000;AF=0.99;SB=0;DP4=0,1,500,499"]] |}.

(** A line with three ALT alleles and two ids. *)
Definition sample_two_ids : text_file :=
  {| stem := "sample_e";
     lines := [vcf_header;
               tsv ["ref"; "10"; "x,y"; "A"; "T,G,C"; "50"; "PASS"; "AF=0.5,0.25,0.125"]] |}.

(** One lookup in the dictionary a run returned. *)
Definition column_of (r : result (gmap string (list pyval) * list warning)) (x : string)
  : option (list pyval) :=
  match r with
  | Ok (d, _) => d !! x
  | Raise _ => None
  end.

Definition declared_columns : gmap string (list pyval) :=
  list_to_map ((λ key, (key, [])) <$>
    ["#CHROM"; "POS"; "ID"; "REF"; "ALT"; "QUAL"; "MUT_TYPE_"; "AF"]).

Section WithFloat.

(** Python's [float(s)] on a decimal literal and [str(x)] on a float: both
    are correctly rounded conversions between decimal text and binary64,
    taken here as parameters. *)
Variable float_of_string : string → float.

Variable float_repr : float → string.

(** The order in which Python iterates over a set of strings. *)
Variable set_iter : list string → list string.

(** [convert_string]: [int(string)] raises [ValueError] when the digits
    are more than the interpreter converts. *)
Definition convert_string (s : string) : result pyval :=
  let s := remove_all newline s in
  if isdecimal s then n ← int s; Ok (PInt n)
  else if isdecimal (remove_first "."%char s) then Ok (PFloat (float_of_string s))
  else Ok (PStr s).

(** The value of a field: what [convert_string] returns for it, when it
    returns. *)
Definition converted (s : string) : pyval :=
  let s := remove_all newline s in
  if isdecimal s then PInt (digits_value 0 s)
  else if isdecimal (remove_first "."%char s) then PFloat (float_of_string s)
  else PStr s.

(** A field that [convert_string] refuses: decimal digits only, and more of
    them than [int] converts. *)
Definition too_long (s : string) : bool :=
  let s := remove_all newline s in
  isdecimal s && (int_max_str_digits <? Z.of_nat (String.length s)).

(** The text of a value, as [str] gives it.  For an [int] it is the decimal
    numeral, which Python writes for a numpy integer of any size and for an
    [int] within the digit limit: see [format_value]. *)
Definition str (v : pyval) : string :=
  match v with
  | PInt n => str_of_int n
  | PFloat f => float_repr f
  | PStr s => s
  | PNone => "None"
  end.

(** [f"{v}"] for a value of the dictionary: formatting an [int] of more
    than [int_max_str_digits] digits raises [ValueError]. *)
Definition format_value (v : pyval) : result string :=
  match v with
  | PInt n => str_int n
  | _ => Ok (str v)
  end.

(** [vcf_dict[key].append(v)]. *)
Definition append (d : gmap string (list pyval)) (key : string) (v : pyval)
  : result (gmap string (list pyval)) :=
  l ← getitem d key; Ok (<[key := l ++ [v]]> d).

(** [vcf_dict[key].append(convert_string(s))]: the list is looked up before
    the argument is evaluated. *)
Definition append_converted (d : gmap string (list pyval)) (key s : string)
  : result (gmap string (list pyval)) :=
  l ← getitem d key; v ← convert_string s; Ok (<[key := l ++ [v]]> d).

(** The keys named by one INFO field: [info.split("=")[0]] for every
    semicolon-separated [info] that contains ["="]. *)
Definition declare_info_keys (d : gmap string (list pyval)) (line : list string)
  : result (gmap string (list pyval)) :=
  field ← index line 7;
  Ok (foldl (λ d info,
         if contains "="%char info
         then <[List.hd "" (split "="%char info) := []]> d
         else d)
        d (split ";"%char field)).

(** The value appended for variant [i] of a canonical column:
    [sublines[i]], or [sublines[0]] when that raises [IndexError]. *)
Definition subline (sublines : list string) (i : nat) : string :=
  match sublines !! i with
  | Some s => s
  | None => List.hd "" sublines
  end.

(** The body of the loop over [enumerate(header[0:6])]: column [idx],
    named [key], receives one value per variant. *)
Definition fill_column (length_variants : nat) (line : list string)
    (d : gmap string (list pyval)) (column : nat * string)
  : result (gmap string (list pyval)) :=
  let '(idx, key) := column in
  field ← index line idx;
  let sublines := split ","%char field in
  for_each (λ d i, append_converted d key (subline sublines i))
    d (seq 0 length_variants).

(** The loop over [enumerate(header[0:6])] for one line. *)
Definition fill_canonical (length_variants : nat) (line : list string)
    (d : gmap string (list pyval)) (columns : list (nat * string))
  : result (gmap string (list pyval)) :=
  for_each (fill_column length_variants line) d columns.

(** SNV, INS or DEL by the lengths of REF and of one ALT allele. *)
Definition mutation_type (ref mutation : string) : string :=
  if (String.length ref =? String.length mutation)%nat then "SNV"
  else if (String.length ref <? String.length mutation)%nat then "INS"
  else "DEL".

(** The loop over [line[7].split(";")] that stores the INFO values and
    remembers the keys it visited. *)
Definition fill_info (d : gmap string (list pyval)) (visited_keys : list string)
    (infos : list string)
  : result (gmap string (list pyval) * list string) :=
  for_each (λ '(d, visited_keys) info,
      if contains "="%char info then
        match split "="%char info with
        | [key; val] =>
            d ← for_each (λ d value, append_converted d key value)
                  d (split ","%char val);
            Ok (d, visited_keys ++ [key])
        | _ => Raise ValueError
        end
      else Ok (d, visited_keys))
    (d, visited_keys) infos.

(** [vcf_dict[key].extend([None]*length_variants)] for every key that is
    not in [visited_keys]. *)
Definition pad_missing (length_variants : nat) (visited_keys : list string)
    (d : gmap string (list pyval)) : gmap string (list pyval) :=
  map_imap (λ key l,
      Some (if bool_decide (key ∈ visited_keys) then l
            else l ++ replicate length_variants PNone)) d.

(** The body of the second loop over [lines]. *)
Definition fill_line (header : list string) (d : gmap string (list pyval))
    (line : list string) : result (gmap string (list pyval)) :=
  alt ← index line 4;
  let length_variants := length (split ","%char alt) in
  d ← fill_canonical length_variants line d (imap pair (take 6 header));
  ref ← index line 3;
  d ← for_each (λ d mutation, append d "MUT_TYPE_" (PStr (mutation_type ref mutation)))
        d (split ","%char alt);
  let visited_keys := take 6 header ++ ["MUT_TYPE_"] in
  field ← index line 7;
  '(d, visited_keys) ← fill_info d visited_keys (split ";"%char field);
  Ok (pad_missing length_variants visited_keys d).

(** The lines that start with [reference], stripped and split on tabs. *)
Definition selected_lines (vcf_file : text_file) (reference : string) : list (list string) :=
  (λ l, split tab (strip l)) <$> filter (λ l, startswith l reference = true) (lines vcf_file).

(** [read_vcf]: the dictionary, and the warnings printed on the way. *)
Definition read_vcf (vcf_file : text_file) (reference : string)
  : result (gmap string (list pyval) * list warning) :=
  let header_lines := selected_lines vcf_file "#CHROM" in
  match header_lines with
  | [] => Ok (∅, [NoChromHeader (stem vcf_file)])
  | header :: _ =>
      let lines := selected_lines vcf_file reference in
      let printed :=
        match lines with
        | [] => [NoVariants (stem vcf_file) reference]
        | _ => []
        end in
      let vcf_dict := foldl (λ d key, <[key := []]> d) ∅ (take 6 header) in
      let vcf_dict := <["MUT_TYPE_" := []]> vcf_dict in
      vcf_dict ← for_each declare_info_keys vcf_dict lines;
      vcf_dict ← for_each (fill_line header) vcf_dict lines;
      Ok (vcf_dict, printed)
  end.

(** [n >= x] for an [int] [n] and a [float] [x].  Python compares the two
    values exactly, without rounding the integer to a float: a finite [x]
    is [m * 2^e], negated when its sign is set. *)
Definition int_ge_float (n : Z) (x : float) : bool :=
  match Prim2SF x with
  | S754_nan => false
  | S754_infinity negative => negative
  | S754_zero _ => 0 <=? n
  | S754_finite negative m e =>
      let mantissa := if negative then Z.neg m else Z.pos m in
      if 0 <=? e then mantissa * 2 ^ e <=? n else mantissa <=? n * 2 ^ (- e)
  end.

(** [a >= threshold] for the allele frequency [a]; ordering a [str] or
    [None] against a number raises. *)
Definition ge_threshold (a : pyval) (threshold : float) : result bool :=
  match a with
  | PFloat f => Ok (PrimFloat.leb threshold f)
  | PInt n => Ok (int_ge_float n threshold)
  | PStr _ | PNone => Raise TypeError
  end.

(** [vcf_dict['EFF'][idx].split('|')[3]], or ["-"] when the entry is
    [None]. *)
Definition aa_change_of (eff : pyval) : result string :=
  match eff with
  | PNone => Ok "-"
  | PStr s => index (split "|"%char s) 3
  | PInt _ | PFloat _ => Raise AttributeError
  end.

(** The body of the loop over [range(0, len(vcf_dict["#CHROM"]))]. *)
Definition frequency_entry (vcf_dict : gmap string (list pyval)) (threshold : float)
    (scores : bool) (frequency_list : list (string * pyval)) (idx : nat)
  : result (list (string * pyval)) :=
  af ← (l ← getitem vcf_dict "AF"; index l idx);
  keep ← ge_threshold af threshold;
  if negb keep then Ok frequency_list
  else
    suffix ← (if scores then
                eff ← (l ← getitem vcf_dict "EFF"; index l idx);
                aa_change ← aa_change_of eff;
                Ok ("_" +:+ aa_change)
              else Ok "");
    pos ← (l ← getitem vcf_dict "POS"; v ← index l idx; format_value v);
    ref ← (l ← getitem vcf_dict "REF"; v ← index l idx; format_value v);
    alt ← (l ← getitem vcf_dict "ALT"; v ← index l idx; format_value v);
    mut_type ← (l ← getitem vcf_dict "MUT_TYPE_"; v ← index l idx; format_value v);
    af ← (l ← getitem vcf_dict "AF"; index l idx);
    Ok (frequency_list ++
          [(pos +:+ "_" +:+ ref +:+ "_" +:+ alt +:+ "_" +:+ mut_type +:+ suffix, af)]).

(** The numeric position of a mutation id: [int(x.split("_")[0])]. *)
Definition mutation_position (x : string) : result Z :=
  int (List.hd "" (split "_"%char x)).

(** [sorted(ids, key=lambda x: int(x.split("_")[0]))]: the keys are computed
    first, in order, then the ids are sorted by them. *)
Definition sorted_by_position (ids : list string) : result (list string) :=
  keys ← mapM mutation_position ids;
  Ok ((sort_keyed Z.leb (zip keys ids)).*2).

(** [extract_vcf_data]: the triple it returns, and the warnings printed. *)
Definition extract_vcf_data (vcf_files : list text_file) (reference : string)
    (threshold : float) (scores : bool)
  : result (list (list (string * pyval)) * list string * list string * list warning) :=
  '(file_names, frequency_lists, printed) ←
    for_each (λ '(file_names, frequency_lists, printed) file,
        let file_names := file_names ++ [stem file] in
        '(vcf_dict, w) ← read_vcf file reference;
        chrom ← getitem vcf_dict "#CHROM";
        frequency_list ← for_each (frequency_entry vcf_dict threshold scores)
                           [] (seq 0 (length chrom));
        Ok (file_names, frequency_lists ++ [frequency_list], printed ++ w))
      ([], [], []) vcf_files;
  unique_mutations ←
    sorted_by_position (set_iter (distinct (concat ((λ li, li.*1) <$> frequency_lists))));
  match unique_mutations with
  | [] => Raise (SystemExit (error_prefix +:+ "No variants to " +:+ reference
                             +:+ " in all vcf files!"))
  | _ => Ok (frequency_lists, unique_mutations, file_names, printed)
  end.

(** The entries one canonical column receives for a line with
    [length_variants] alleles. *)
Definition column_entries (length_variants : nat) (field : string) : list pyval :=
  (λ i, converted (subline (split ","%char field) i)) <$> seq 0 length_variants.

(** Everything [fill_canonical] appends to column [x]. *)
Definition canonical_contrib (length_variants : nat) (line : list string)
    (columns : list (nat * string)) (x : string) : list pyval :=
  concat ((λ c : nat * string,
      if decide (c.2 = x) then column_entries length_variants (default "" (line !! c.1))
      else []) <$> columns).

(** The entries of [MUT_TYPE_] for a line. *)
Definition mutation_types (ref alt : string) : list pyval :=
  (λ mutation, PStr (mutation_type ref mutation)) <$> split ","%char alt.

(** Everything [fill_info] appends to column [x], and the keys it visits. *)
Definition info_contrib (infos : list string) (x : string) : list pyval :=
  concat ((λ info,
      if contains "="%char info then
        match split "="%char info with
        | [key; val] => if decide (key = x) then converted <$> split ","%char val else []
        | _ => []
        end
      else []) <$> infos).

Definition info_keys (infos : list string) : list string :=
  concat ((λ info,
      if contains "="%char info then
        match split "="%char info with
        | [key; val] => [key]
        | _ => []
        end
      else []) <$> infos).

(** The number of ALT alleles of a line, and the keys it has a value for. *)
Definition length_variants_of (line : list string) : nat :=
  length (split ","%char (default "" (line !! 4%nat))).

Definition visited_keys_of (header line : list string) : list string :=
  take 6 header ++ ["MUT_TYPE_"] ++ info_keys (split ";"%char (default "" (line !! 7%nat))).

(** Everything [fill_line] appends to column [x]. *)
Definition line_contrib (header line : list string) (x : string) : list pyval :=
  canonical_contrib (length_variants_of line) line (imap pair (take 6 header)) x
  ++ (if decide (x = "MUT_TYPE_")
      then mutation_types (default "" (line !! 3%nat)) (default "" (line !! 4%nat))
      else [])
  ++ info_contrib (split ";"%char (default "" (line !! 7%nat))) x
  ++ (if bool_decide (x ∈ visited_keys_of header line) then []
      else replicate (length_variants_of line) PNone).

(** [d'] is [d] with [f x] appended to every column [x]. *)
Definition appends (d d' : gmap string (list pyval)) (f : string → list pyval) : Prop :=
  ∀ x, d' !! x = (λ l, l ++ f x) <$> d !! x.

(** Columns after the declaration stage. *)
Definition all_empty (d : gmap string (list pyval)) : Prop :=
  ∀ x l, d !! x = Some l → l = [].

(** How many times [x] occurs in a list of keys. *)
Definition occurrences (x : string) (keys : list string) : nat :=
  length (filter (λ key, key = x) keys).

(** Every INFO value of the line has exactly [k] comma-separated parts. *)
Definition info_counts_ok (k : nat) (infos : list string) : bool :=
  forallb (λ info,
      if contains "="%char info then
        match split "="%char info with
        | [key; val] => Nat.eqb (length (split ","%char val)) k
        | _ => true
        end
      else true) infos.

(** A line on which every key is given once, with one value per allele. *)
Definition regular_line (header line : list string) : Prop :=
  NoDup (visited_keys_of header line)
  ∧ info_counts_ok (length_variants_of line)
      (split ";"%char (default "" (line !! 7%nat))) = true.

(** The total number of alleles of the selected lines. *)
Definition total_alleles (lines : list (list string)) : nat :=
  sum_list (length_variants_of <$> lines).

(** A selected line with the shape [read_vcf] expects: it has the eight
    fixed fields, and every INFO entry with an ["="] has exactly one. *)
Definition well_formed (line : list string) : Prop :=
  (8 ≤ length line)%nat
  ∧ Forall (λ info, contains "="%char info = true →
              ∃ key val, split "="%char info = [key; val])
      (split ";"%char (default "" (line !! 7%nat))).

(** The fields of a line that [read_vcf] hands to [convert_string]: under
    each of the first six header names the value of every allele, and every
    comma-separated value of the INFO entries. *)
Definition converted_fields (header line : list string) : list string :=
  concat ((λ c : nat * string,
             (λ i, subline (split ","%char (default "" (line !! c.1))) i)
               <$> seq 0 (length_variants_of line))
          <$> imap pair (take 6 header))
  ++ concat ((λ info,
        if contains "="%char info then
          match split "="%char info with
          | [key; val] => split ","%char val
          | _ => []
          end
        else []) <$> split ";"%char (default "" (line !! 7%nat))).

(** A well-formed line none of whose converted fields is a numeral beyond
    the digit limit. *)
Definition readable (header line : list string) : Prop :=
  well_formed line ∧ Forall (λ s, too_long s = false) (converted_fields header line).

(** An id is placed before another when its position is not larger. *)
Definition position_le (a b : string) : Prop :=
  ∃ p q, mutation_position a = Ok p ∧ mutation_position b = Ok q ∧ p ≤ q.

Definition headerless (f : text_file) : Prop :=
  Forall (λ l, startswith l "#CHROM" = false) (lines f).

(** *** Facts about [read_vcf] and [extract_vcf_data] *)

Lemma appends_refl d : appends d d (λ _, []).
Proof. intros x. destruct (d !! x); simpl; [by rewrite app_nil_r | done]. Qed.

Lemma appends_trans d1 d2 d3 f g :
  appends d1 d2 f → appends d2 d3 g → appends d1 d3 (λ x, f x ++ g x).
Proof.
  intros H1 H2 x. rewrite H2, H1. destruct (d1 !! x); simpl; [|done].
  by rewrite app_assoc.
Qed.

Lemma appends_ext d d' f g : (∀ x, f x = g x) → appends d d' f → appends d d' g.
Proof. intros Hfg H x. rewrite H. by rewrite Hfg. Qed.

Lemma append_appends d key v d' :
  append d key v = Ok d' →
  appends d d' (λ x, if decide (key = x) then [v] else []).
Proof.
  unfold append, getitem. destruct (d !! key) as [l|] eqn:Hl; simpl; [|done].
  intros [= <-] x. destruct (decide (key = x)) as [<-|Hne].
  - by rewrite lookup_insert_eq, Hl.
  - rewrite lookup_insert_ne by done. destruct (d !! x); simpl; [by rewrite app_nil_r|done].
Qed.

Lemma for_each_append {B} (g : B → pyval) key vs : ∀ d d',
  for_each (λ d b, append d key (g b)) d vs = Ok d' →
  appends d d' (λ x, if decide (key = x) then g <$> vs else []).
Proof.
  induction vs as [|v vs IH]; intros d d'; simpl.
  - intros [= <-]. eapply appends_ext; [|apply appends_refl].
    intros x; by destruct (decide _).
  - intros (d1 & H1 & H2)%bind_Ok.
    eapply appends_ext; [|exact (appends_trans _ _ _ _ _ (append_appends _ _ _ _ H1) (IH _ _ H2))].
    intros x; simpl. by destruct (decide _).
Qed.

(** [convert_string] raises on the numerals that are too long and returns
    the value of every other field. *)
Lemma convert_string_cases s :
  convert_string s = if too_long s then Raise ValueError else Ok (converted s).
Proof.
  unfold convert_string, too_long, converted.
  destruct (isdecimal (remove_all newline s)) eqn:Hd; [|by repeat case_match].
  rewrite (Digits.int_digits _ Hd). simpl. by destruct (_ <? _).
Qed.

Lemma append_converted_cases d key s :
  append_converted d key s
  = l ← getitem d key;
    if too_long s then Raise ValueError else append d key (converted s).
Proof.
  unfold append_converted, append, getitem. rewrite convert_string_cases.
  destruct (d !! key) as [l|]; simpl; [|done]. by destruct (too_long s).
Qed.

(** A loop of conversions that returns has converted every field, none of
    which was too long. *)
Lemma for_each_append_converted {B} (g : B → string) key vs : ∀ d d',
  for_each (λ d b, append_converted d key (g b)) d vs = Ok d' →
  for_each (λ d b, append d key (converted (g b))) d vs = Ok d'
  ∧ Forall (λ b, too_long (g b) = false) vs.
Proof.
  induction vs as [|v vs IH]; intros d d'; simpl; [by split|].
  intros (d1 & H1 & H2)%bind_Ok. rewrite append_converted_cases in H1.
  apply bind_Ok in H1 as (l & Hl & H1).
  destruct (too_long (g v)) eqn:Hlong; [done|].
  destruct (IH _ _ H2) as [IH1 IH2]. rewrite H1. simpl. split; [done|by constructor].
Qed.

(** Without a field that is too long, the loop is the loop over the
    values. *)
Lemma for_each_append_convertible {B} (g : B → string) key vs :
  Forall (λ b, too_long (g b) = false) vs → ∀ d,
  for_each (λ d b, append_converted d key (g b)) d vs
  = for_each (λ d b, append d key (converted (g b))) d vs.
Proof.
  induction 1 as [|v vs Hv _ IH]; intros d; simpl; [done|].
  rewrite append_converted_cases, Hv.
  assert ((l ← getitem d key; append d key (converted (g v))) = append d key (converted (g v)))
    as -> by (unfold append; by destruct (getitem d key)).
  destruct (append d key (converted (g v))); simpl; [apply IH|done].
Qed.

Lemma fill_canonical_appends k line columns : ∀ d d',
  fill_canonical k line d columns = Ok d' →
  appends d d' (canonical_contrib k line columns).
Proof.
  unfold fill_canonical, canonical_contrib.
  induction columns as [|[idx key] columns IH]; intros d d'; simpl.
  - intros [= <-]. apply appends_refl.
  - intros (d1 & H1 & H2)%bind_Ok. unfold fill_column in H1.
    apply bind_Ok in H1 as (field & Hf & H1).
    unfold index in Hf. destruct (line !! idx) as [fld|] eqn:Hidx; [|done].
    injection Hf as ->.
    apply for_each_append_converted in H1 as [H1 _].
    apply for_each_append in H1. apply IH in H2.
    eapply appends_ext; [|exact (appends_trans _ _ _ _ _ H1 H2)].
    intros x; simpl. unfold column_entries. by destruct (decide _).
Qed.

Lemma fill_info_appends infos : ∀ d visited d' visited',
  fill_info d visited infos = Ok (d', visited') →
  appends d d' (info_contrib infos) ∧ visited' = visited ++ info_keys infos.
Proof.
  unfold fill_info, info_contrib, info_keys.
  induction infos as [|info infos IH]; intros d visited d' visited'; simpl.
  - intros [= <- <-]. split; [apply appends_refl | by rewrite app_nil_r].
  - intros ([d1 v1] & H1 & H2)%bind_Ok. apply IH in H2 as [H2 ->].
    destruct (contains "=" info).
    + destruct (split "=" info) as [|key [|val [|]]]; try done.
      apply bind_Ok in H1 as (d1' & H1 & [= -> <-]).
      apply (for_each_append_converted id) in H1 as [H1 _].
      apply (for_each_append (λ value, converted (id value))) in H1. split.
      * eapply appends_ext; [|exact (appends_trans _ _ _ _ _ H1 H2)]. done.
      * by rewrite <- app_assoc.
    + injection H1 as <- <-. split; [|done].
      eapply appends_ext; [|exact H2]. done.
Qed.

Lemma pad_missing_appends k visited d :
  appends d (pad_missing k visited d)
    (λ x, if bool_decide (x ∈ visited) then [] else replicate k PNone).
Proof.
  intros x. unfold pad_missing. rewrite map_lookup_imap.
  destruct (d !! x) as [l|]; simpl; [|done].
  destruct (bool_decide _); [by rewrite app_nil_r | done].
Qed.

Lemma fill_line_appends header d line d' :
  fill_line header d line = Ok d' → appends d d' (line_contrib header line).
Proof.
  unfold fill_line, line_contrib, length_variants_of, visited_keys_of.
  intros (alt & Halt & H)%bind_Ok.
  apply bind_Ok in H as (d1 & H1 & H).
  apply bind_Ok in H as (ref & Href & H).
  apply bind_Ok in H as (d2 & H2 & H).
  apply bind_Ok in H as (field & Hfield & H).
  apply bind_Ok in H as ([d3 visited] & H3 & [= <-]).
  unfold index in Halt, Href, Hfield.
  destruct (line !! 4%nat) as [a|]; [injection Halt as ->|done].
  destruct (line !! 3%nat) as [r|]; [injection Href as ->|done].
  destruct (line !! 7%nat) as [i|]; [injection Hfield as ->|done].
  simpl. apply fill_canonical_appends in H1. apply for_each_append in H2.
  apply fill_info_appends in H3 as [H3 ->].
  pose proof (pad_missing_appends (length (split "," alt))
    ((take 6 header ++ ["MUT_TYPE_"]) ++ info_keys (split ";" field)) d3) as H4.
  eapply appends_ext;
    [|exact (appends_trans _ _ _ _ _ H1 (appends_trans _ _ _ _ _ H2 (appends_trans _ _ _ _ _ H3 H4)))].
  intros x; simpl. rewrite <- (app_assoc (take 6 header)). simpl.
  destruct (decide ("MUT_TYPE_" = x)), (decide (x = "MUT_TYPE_")); try congruence.
  all: reflexivity.
Qed.

Lemma for_each_fill_line header lines : ∀ d d',
  for_each (fill_line header) d lines = Ok d' →
  appends d d' (λ x, concat ((λ line, line_contrib header line x) <$> lines)).
Proof.
  induction lines as [|line lines IH]; intros d d'; simpl.
  - intros [= <-]. apply appends_refl.
  - intros (d1 & H1 & H2)%bind_Ok. apply fill_line_appends in H1. apply IH in H2.
    exact (appends_trans _ _ _ _ _ H1 H2).
Qed.

Lemma appends_dom d d' f x : appends d d' f → is_Some (d' !! x) ↔ is_Some (d !! x).
Proof. intros H. rewrite (H x). by rewrite fmap_is_Some. Qed.

Lemma declare_fold (infos : list string) : ∀ d : gmap string (list pyval),
  let d' := foldl (λ d info,
               if contains "="%char info
               then <[List.hd "" (split "="%char info) := []]> d
               else d) d infos in
  (all_empty d → all_empty d')
  ∧ (∀ x, is_Some (d !! x) → is_Some (d' !! x))
  ∧ (∀ info, info ∈ infos → contains "="%char info = true →
       is_Some (d' !! List.hd "" (split "="%char info))).
Proof.
  induction infos as [|info infos IH]; intros d; simpl.
  - split; [done|]. split; [done|]. intros info Hin. by apply elem_of_nil in Hin.
  - set (d1 := if contains "=" info then _ else d).
    destruct (IH d1) as (IH1 & IH2 & IH3).
    assert (Hd1 : ∀ x, is_Some (d !! x) → is_Some (d1 !! x)).
    { intros x Hx. unfold d1. destruct (contains "=" info); [|done].
      destruct (decide (List.hd "" (split "=" info) = x)) as [<-|Hne].
      - rewrite lookup_insert_eq. by eexists.
      - by rewrite lookup_insert_ne. }
    split; [|split].
    + intros He. apply IH1. intros x l. unfold d1. destruct (contains "=" info); [|apply He].
      destruct (decide (List.hd "" (split "=" info) = x)) as [<-|Hne].
      * rewrite lookup_insert_eq. by intros [= <-].
      * rewrite lookup_insert_ne by done. apply He.
    + intros x Hx. by apply IH2, Hd1.
    + intros info' [->|Hin]%elem_of_cons Hc.
      * apply IH2. unfold d1. rewrite Hc. rewrite lookup_insert_eq. by eexists.
      * by apply IH3.
Qed.

Lemma info_keys_declared infos key :
  key ∈ info_keys infos →
  ∃ info, info ∈ infos ∧ contains "="%char info = true ∧ List.hd "" (split "="%char info) = key.
Proof.
  unfold info_keys. induction infos as [|info infos IH]; simpl.
  - by intros ?%elem_of_nil.
  - intros [Hin|Hin]%elem_of_app.
    + exists info. destruct (contains "=" info) eqn:Hc; [|by apply elem_of_nil in Hin].
      destruct (split "=" info) as [|k [|v [|]]] eqn:Hs; try by apply elem_of_nil in Hin.
      apply list_elem_of_singleton in Hin as ->. split; [left|done].
    + destruct (IH Hin) as (info' & ? & ? & ?). exists info'. split; [by right|done].
Qed.

Lemma for_each_declare lines : ∀ d d',
  for_each declare_info_keys d lines = Ok d' →
  (all_empty d → all_empty d')
  ∧ (∀ x, is_Some (d !! x) → is_Some (d' !! x))
  ∧ (∀ line key, line ∈ lines →
       key ∈ info_keys (split ";"%char (default "" (line !! 7%nat))) → is_Some (d' !! key)).
Proof.
  induction lines as [|line lines IH]; intros d d'; simpl.
  - intros [= <-]. split; [done|]. split; [done|]. by intros line key ?%elem_of_nil.
  - intros (d1 & H1 & H2)%bind_Ok. apply IH in H2 as (IH1 & IH2 & IH3).
    unfold declare_info_keys in H1. apply bind_Ok in H1 as (field & Hf & [= <-]).
    unfold index in Hf. destruct (line !! 7%nat) as [fld|] eqn:H7; [injection Hf as ->|done].
    destruct (declare_fold (split ";" field) d) as (D1 & D2 & D3).
    split; [|split].
    + intros He. by apply IH1, D1.
    + intros x Hx. by apply IH2, D2.
    + intros line' key [->|Hin]%elem_of_cons Hkey.
      * rewrite H7 in Hkey. simpl in Hkey.
        apply info_keys_declared in Hkey as (info & Hin & Hc & <-).
        apply IH2. by apply D3.
      * by eapply IH3.
Qed.

Lemma initial_columns (header : list string) :
  let d := <["MUT_TYPE_" := []]> (foldl (λ d key, <[key := []]> d) (∅ : gmap string (list pyval)) header) in
  all_empty d ∧ (∀ x, x ∈ header ++ ["MUT_TYPE_"] → is_Some (d !! x)).
Proof.
  assert (∀ (l : list string) (d : gmap string (list pyval)),
    (all_empty d → all_empty (foldl (λ d key, <[key := []]> d) d l)) ∧
    (∀ x, x ∈ l ∨ is_Some (d !! x) → is_Some (foldl (λ d key, <[key := []]> d) d l !! x))) as H.
  { induction l as [|k l IH]; intros d; simpl.
    - split; [done|]. intros x [?%elem_of_nil|?]; done.
    - destruct (IH (<[k := []]> d)) as [I1 I2]. split.
      + intros He. apply I1. intros x v. destruct (decide (k = x)) as [<-|Hne].
        * rewrite lookup_insert_eq. by intros [= <-].
        * rewrite lookup_insert_ne by done. apply He.
      + intros x Hx. apply I2. destruct (decide (k = x)) as [<-|Hne].
        * right. rewrite lookup_insert_eq. by eexists.
        * rewrite lookup_insert_ne by done. destruct Hx as [[->|?]%elem_of_cons|?]; [done|by left|by right]. }
  destruct (H header ∅) as [H1 H2]. split.
  - intros x v. destruct (decide ("MUT_TYPE_" = x)) as [<-|Hne].
    + rewrite lookup_insert_eq. by intros [= <-].
    + rewrite lookup_insert_ne by done. apply H1. intros y w. by rewrite lookup_empty.
  - intros x [Hx|Hx%list_elem_of_singleton]%elem_of_app.
    + destruct (decide ("MUT_TYPE_" = x)) as [<-|Hne].
      * rewrite lookup_insert_eq. by eexists.
      * rewrite lookup_insert_ne by done. apply H2. by left.
    + subst x. rewrite lookup_insert_eq. by eexists.
Qed.

(** The columns of the dictionary [read_vcf] returns: column [x] is the
    concatenation, over the selected lines, of what each line adds to it. *)
Lemma read_vcf_columns vcf_file reference header rest d printed :
  selected_lines vcf_file "#CHROM" = header :: rest →
  read_vcf vcf_file reference = Ok (d, printed) →
  (∀ x l, d !! x = Some l →
     l = concat ((λ line, line_contrib header line x) <$> selected_lines vcf_file reference))
  ∧ (∀ x, x ∈ take 6 header ++ ["MUT_TYPE_"] → is_Some (d !! x))
  ∧ (∀ line key, line ∈ selected_lines vcf_file reference →
       key ∈ info_keys (split ";"%char (default "" (line !! 7%nat))) → is_Some (d !! key)).
Proof.
  intros Hh. unfold read_vcf. rewrite Hh.
  intros (d1 & H1 & H2)%bind_Ok. apply bind_Ok in H2 as (d2 & H2 & [= <- _]).
  destruct (initial_columns (take 6 header)) as [I1 I2].
  apply for_each_declare in H1 as (D1 & D2 & D3).
  apply for_each_fill_line in H2.
  split; [|split].
  - intros x l. rewrite (H2 x). destruct (d1 !! x) as [l0|] eqn:Hx; [|done].
    simpl. intros [= <-]. by rewrite (D1 I1 x l0 Hx).
  - intros x Hx. apply (appends_dom _ _ _ x H2). by apply D2, I2.
  - intros line key Hl Hk. apply (appends_dom _ _ _ key H2). by eapply D3.
Qed.

Lemma occurrences_app x l1 l2 :
  occurrences x (l1 ++ l2) = (occurrences x l1 + occurrences x l2)%nat.
Proof. unfold occurrences. by rewrite filter_app, length_app. Qed.

Lemma occurrences_not_in x l : x ∉ l → occurrences x l = 0%nat.
Proof.
  unfold occurrences. induction l as [|y l IH]; [done|].
  intros Hx. apply not_elem_of_cons in Hx as [Hne Hx].
  rewrite filter_cons, decide_False by congruence. by apply IH.
Qed.

Lemma occurrences_NoDup x l : NoDup l → x ∈ l → occurrences x l = 1%nat.
Proof.
  induction 1 as [|y l Hy _ IH]; [by intros ?%elem_of_nil|].
  intros [->|Hx]%elem_of_cons.
  - unfold occurrences. rewrite filter_cons, decide_True by done. simpl.
    f_equal. by apply occurrences_not_in.
  - unfold occurrences. rewrite filter_cons, decide_False by (intros ->; done).
    by apply IH.
Qed.

Lemma length_column_entries k field : length (column_entries k field) = k.
Proof. unfold column_entries. by rewrite length_fmap, length_seq. Qed.

Lemma length_canonical_contrib k line columns x :
  length (canonical_contrib k line columns x) = (k * occurrences x columns.*2)%nat.
Proof.
  unfold canonical_contrib, occurrences.
  induction columns as [|[idx key] columns IH]; [simpl; lia|].
  rewrite !fmap_cons, concat_cons, length_app, IH, filter_cons. simpl.
  destruct (decide (key = x)); simpl; [rewrite length_column_entries|]; lia.
Qed.

Lemma imap_pair_snd {A} (l : list A) : ∀ g : nat → nat, (imap (λ i a, (g i, a)) l).*2 = l.
Proof.
  induction l as [|a l IH]; intros g; simpl; [done|]. f_equal. apply (IH (g ∘ S)).
Qed.

Lemma length_info_contrib k infos x :
  info_counts_ok k infos = true →
  length (info_contrib infos x) = (k * occurrences x (info_keys infos))%nat.
Proof.
  unfold info_contrib, info_keys, occurrences, info_counts_ok.
  induction infos as [|info infos IH]; [simpl; lia|].
  rewrite !fmap_cons, !concat_cons. cbn [forallb].
  intros [Hi Hrest]%andb_prop. rewrite length_app, filter_app, length_app, (IH Hrest).
  destruct (contains "=" info); simpl; [|lia].
  destruct (split "=" info) as [|key [|val [|]]]; simpl; try lia.
  rewrite filter_cons, filter_nil.
  destruct (decide (key = x)); simpl; [|lia].
  apply Nat.eqb_eq in Hi. rewrite length_fmap. lia.
Qed.

Lemma info_contrib_not_visited infos x :
  x ∉ info_keys infos → info_contrib infos x = [].
Proof.
  unfold info_contrib, info_keys. induction infos as [|info infos IH]; [done|].
  rewrite !fmap_cons, !concat_cons.
  intros [H1 H2]%not_elem_of_app. rewrite (IH H2), app_nil_r.
  destruct (contains "=" info); [|done].
  destruct (split "=" info) as [|key [|val [|]]]; try done.
  destruct (decide (key = x)) as [->|]; [|done].
  exfalso. apply H1. by left.
Qed.

Lemma canonical_contrib_not_visited k line columns x :
  x ∉ columns.*2 → canonical_contrib k line columns x = [].
Proof.
  unfold canonical_contrib. induction columns as [|[idx key] columns IH]; [done|].
  rewrite !fmap_cons, !concat_cons.
  intros [H1 H2]%not_elem_of_cons. rewrite (IH H2), app_nil_r. simpl.
  destruct (decide (key = x)) as [<-|]; [by destruct H1|done].
Qed.

(** A line that has no value for [x] adds one [None] per allele. *)
Lemma line_contrib_missing header line x :
  x ∉ visited_keys_of header line →
  line_contrib header line x = replicate (length_variants_of line) PNone.
Proof.
  intros Hx. unfold line_contrib. rewrite bool_decide_eq_false_2 by done.
  unfold visited_keys_of in Hx.
  apply not_elem_of_app in Hx as [H1 Hx]. apply not_elem_of_app in Hx as [H2 H3].
  rewrite canonical_contrib_not_visited by (by rewrite (imap_pair_snd _ id)).
  rewrite info_contrib_not_visited by done.
  destruct (decide (x = "MUT_TYPE_")) as [->|]; [|done].
  exfalso. apply H2. by left.
Qed.

Lemma length_mutation_types ref alt :
  length (mutation_types ref alt) = length (split ","%char alt).
Proof. unfold mutation_types. by rewrite length_fmap. Qed.

(** On a regular line every column grows by the number of alleles. *)
Lemma length_line_contrib_regular header line x :
  regular_line header line →
  length (line_contrib header line x) = length_variants_of line.
Proof.
  intros [Hnd Hok].
  destruct (decide (x ∈ visited_keys_of header line)) as [Hin|Hout].
  2: { rewrite line_contrib_missing by done. by rewrite length_replicate. }
  pose proof (occurrences_NoDup x _ Hnd Hin) as Hocc.
  unfold line_contrib. rewrite bool_decide_eq_true_2 by done.
  rewrite !length_app, length_canonical_contrib, (imap_pair_snd _ id).
  rewrite (length_info_contrib _ _ _ Hok). simpl.
  unfold visited_keys_of in Hocc. rewrite !occurrences_app in Hocc.
  assert (length (if decide (x = "MUT_TYPE_")
                  then mutation_types (default "" (line !! 3%nat)) (default "" (line !! 4%nat))
                  else [])
          = (length_variants_of line * occurrences x ["MUT_TYPE_"])%nat) as ->.
  { unfold occurrences. rewrite filter_cons, filter_nil.
    destruct (decide (x = "MUT_TYPE_")) as [->|Hne].
    - rewrite decide_True by done. rewrite length_mutation_types. unfold length_variants_of. simpl. lia.
    - rewrite decide_False by congruence. simpl. lia. }
  nia.
Qed.

Lemma length_concat_contrib header lines x :
  Forall (regular_line header) lines →
  length (concat ((λ line, line_contrib header line x) <$> lines)) = total_alleles lines.
Proof.
  unfold total_alleles. induction 1 as [|line lines Hl _ IH]; [done|].
  rewrite !fmap_cons, concat_cons, length_app, IH, length_line_contrib_regular by done.
  done.
Qed.

Lemma occurrences_zero x l : occurrences x l = 0%nat → x ∉ l.
Proof.
  unfold occurrences. induction l as [|y l IH]; [intros _; apply not_elem_of_nil|].
  rewrite filter_cons. destruct (decide (y = x)) as [->|Hne]; simpl; [done|].
  intros H. apply not_elem_of_cons. split; [congruence|by apply IH].
Qed.

Lemma canonical_contrib_unique k line columns idx x :
  occurrences x columns.*2 = 1%nat → (idx, x) ∈ columns →
  canonical_contrib k line columns x = column_entries k (default "" (line !! idx)).
Proof.
  unfold canonical_contrib, occurrences.
  induction columns as [|[idx' key] columns IH]; [by intros _ ?%elem_of_nil|].
  rewrite !fmap_cons, concat_cons, filter_cons. simpl.
  destruct (decide (key = x)) as [->|Hne]; simpl.
  - intros [= Hocc] Hin. apply occurrences_zero in Hocc.
    fold (canonical_contrib k line columns x).
    rewrite canonical_contrib_not_visited, app_nil_r by done.
    apply elem_of_cons in Hin as [[= ->]|Hin]; [done|].
    exfalso. apply Hocc. apply list_elem_of_fmap. by exists (idx, x).
  - intros Hocc [[= _ ->]|Hin]%elem_of_cons; [done|]. by apply IH.
Qed.

Lemma line_contrib_canonical header line idx key :
  take 6 header !! idx = Some key →
  occurrences key (visited_keys_of header line) = 1%nat →
  line_contrib header line key
  = column_entries (length_variants_of line) (default "" (line !! idx)).
Proof.
  intros Hidx Hocc. unfold visited_keys_of in Hocc. rewrite !occurrences_app in Hocc.
  assert (key ∈ take 6 header) as Hin by (by eapply list_elem_of_lookup_2).
  assert (occurrences key (take 6 header) ≠ 0%nat) as Hpos
    by (intros H0; by apply occurrences_zero in H0).
  assert (occurrences key (take 6 header) = 1%nat) as H1 by lia.
  assert (key ≠ "MUT_TYPE_") as Hmut.
  { intros ->. unfold occurrences in Hocc at 2. simpl in Hocc. lia. }
  assert (key ∉ info_keys (split ";" (default "" (line !! 7%nat)))) as Hinfo
    by (apply occurrences_zero; lia).
  unfold line_contrib.
  rewrite (canonical_contrib_unique _ _ _ idx).
  - rewrite decide_False by done. rewrite info_contrib_not_visited by done.
    rewrite bool_decide_eq_true_2; [by rewrite !app_nil_r|].
    unfold visited_keys_of. apply elem_of_app. by left.
  - by rewrite (imap_pair_snd _ id).
  - apply elem_of_lookup_imap. by exists idx, key.
Qed.

Lemma append_returns d key v :
  is_Some (d !! key) → ∃ d', append d key v = Ok d'.
Proof. intros [l Hl]. unfold append, getitem. rewrite Hl. by eexists. Qed.

Lemma for_each_append_returns {B} (g : B → pyval) key vs d :
  is_Some (d !! key) →
  ∃ d', for_each (λ d b, append d key (g b)) d vs = Ok d'
        ∧ appends d d' (λ x, if decide (key = x) then g <$> vs else []).
Proof.
  intros Hkey.
  destruct (for_each_inv (λ d b, append d key (g b)) (λ d', is_Some (d' !! key)) vs d)
    as (d' & Hd' & _); [done| |].
  - intros d1 b _ H1. destruct (append_returns d1 key (g b) H1) as [d2 H2].
    exists d2. split; [done|]. by apply (appends_dom _ _ _ key (append_appends _ _ _ _ H2)).
  - exists d'. split; [done|]. by apply for_each_append.
Qed.

Lemma for_each_append_converted_returns {B} (g : B → string) key vs d :
  is_Some (d !! key) →
  Forall (λ b, too_long (g b) = false) vs →
  ∃ d', for_each (λ d b, append_converted d key (g b)) d vs = Ok d'
        ∧ appends d d' (λ x, if decide (key = x) then (λ b, converted (g b)) <$> vs else []).
Proof.
  intros Hkey Hvs. rewrite for_each_append_convertible by done.
  by apply (for_each_append_returns (λ b, converted (g b))).
Qed.

Lemma Forall_concat_iff {A} (P : A → Prop) (ls : list (list A)) :
  Forall P (concat ls) ↔ Forall (Forall P) ls.
Proof.
  induction ls as [|l ls IH]; simpl.
  - split; constructor.
  - rewrite Forall_app, Forall_cons, IH. done.
Qed.

Lemma fill_canonical_returns k line columns d :
  Forall (λ c : nat * string,
            is_Some (line !! c.1) ∧ is_Some (d !! c.2)
            ∧ Forall (λ s, too_long s = false)
                ((λ i, subline (split ","%char (default "" (line !! c.1))) i) <$> seq 0 k))
    columns →
  ∃ d', fill_canonical k line d columns = Ok d'.
Proof.
  intros Hcols. unfold fill_canonical.
  destruct (for_each_inv (fill_column k line)
              (λ d', ∀ x, is_Some (d !! x) → is_Some (d' !! x)) columns d)
    as (d' & Hd' & _); [done| |by exists d'].
  intros d1 [idx key] Hin Hd1.
  rewrite Forall_forall in Hcols. destruct (Hcols _ Hin) as ([field Hf] & Hk & Hshort).
  simpl in *. rewrite Hf in Hshort. simpl in Hshort. apply Forall_fmap in Hshort.
  unfold fill_column, index. rewrite Hf. simpl.
  destruct (for_each_append_converted_returns
              (λ i, subline (split "," field) i) key (seq 0 k) d1)
    as (d2 & H2 & Happ); [by apply Hd1|exact Hshort|].
  exists d2. split; [done|]. intros x Hx. apply (appends_dom _ _ _ x Happ). by apply Hd1.
Qed.

Lemma fill_info_returns infos : ∀ d visited,
  Forall (λ info, contains "="%char info = true →
            ∃ key val, split "="%char info = [key; val] ∧ is_Some (d !! key)
                       ∧ Forall (λ s, too_long s = false) (split ","%char val)) infos →
  ∃ d' visited', fill_info d visited infos = Ok (d', visited').
Proof.
  intros d visited Hinfos. unfold fill_info.
  match goal with |- context [for_each ?b (d, visited) infos] =>
    destruct (for_each_inv b (λ s, ∀ x, is_Some (d !! x) → is_Some (s.1 !! x)) infos (d, visited))
      as ([d' visited'] & Hd' & _)
  end; [done| |by exists d', visited'].
  intros [d1 v1] info Hin Hd1. simpl in Hd1.
  rewrite Forall_forall in Hinfos. specialize (Hinfos _ Hin).
  destruct (contains "=" info); [|by exists (d1, v1)].
  destruct Hinfos as (key & val & -> & Hkey & Hshort); [done|].
  destruct (for_each_append_converted_returns id key (split "," val) d1)
    as (d2 & H2 & Happ); [by apply Hd1|exact Hshort|].
  unfold id in H2. rewrite H2.
  exists (d2, v1 ++ [key]). split; [done|]. simpl.
  intros x Hx. apply (appends_dom _ _ _ x Happ). by apply Hd1.
Qed.

Lemma info_keys_elem infos info key val :
  info ∈ infos → contains "="%char info = true → split "="%char info = [key; val] →
  key ∈ info_keys infos.
Proof.
  intros Hin Hc Hs. unfold info_keys.
  induction infos as [|i l IH]; [by apply elem_of_nil in Hin|].
  rewrite fmap_cons, concat_cons. apply elem_of_app.
  apply elem_of_cons in Hin as [<-|Hin]; [left|right; by apply IH].
  rewrite Hc, Hs. by left.
Qed.

Lemma fill_line_returns header d line :
  readable header line →
  (∀ x, x ∈ take 6 header ++ ["MUT_TYPE_"] → is_Some (d !! x)) →
  (∀ key, key ∈ info_keys (split ";"%char (default "" (line !! 7%nat))) → is_Some (d !! key)) →
  ∃ d', fill_line header d line = Ok d'.
Proof.
  intros [[Hlen Hwf] Hshort] Hcanon Hinfo.
  unfold converted_fields, length_variants_of in Hshort.
  apply Forall_app in Hshort as [Hcols Hvals].
  apply Forall_concat_iff in Hcols. rewrite Forall_fmap in Hcols.
  apply Forall_concat_iff in Hvals. rewrite Forall_fmap in Hvals.
  unfold fill_line, index.
  destruct (lookup_lt_is_Some_2 line 4) as [alt Halt]; [lia|]. rewrite Halt in *.
  destruct (lookup_lt_is_Some_2 line 3) as [ref ->]; [lia|].
  destruct (lookup_lt_is_Some_2 line 7) as [field Hfield]; [lia|]. rewrite Hfield in *.
  simpl in *.
  destruct (fill_canonical_returns (length (split "," alt)) line (imap pair (take 6 header)) d)
    as [d1 H1].
  { apply Forall_forall. intros [idx key] Hc.
    rewrite Forall_forall in Hcols. specialize (Hcols _ Hc).
    apply elem_of_lookup_imap in Hc as (i & y & [= -> ->] & Hi).
    simpl. split; [|split; [|exact Hcols]].
    - apply lookup_lt_is_Some_2. apply lookup_lt_Some in Hi. rewrite length_take in Hi. lia.
    - apply Hcanon, elem_of_app. left. by eapply list_elem_of_lookup_2. }
  rewrite H1. simpl. apply fill_canonical_appends in H1.
  destruct (for_each_append_returns (λ mutation, PStr (mutation_type ref mutation))
              "MUT_TYPE_" (split "," alt) d1) as (d2 & -> & H2).
  { apply (appends_dom _ _ _ _ H1), Hcanon, elem_of_app. right. by left. }
  simpl.
  destruct (fill_info_returns (split ";" field) d2 (take 6 header ++ ["MUT_TYPE_"]))
    as (d3 & visited & ->).
  { apply Forall_forall. intros info Hin Hc.
    rewrite Forall_forall in Hwf. destruct (Hwf _ Hin Hc) as (key & val & Hs).
    exists key, val. split; [done|]. split.
    - apply (appends_dom _ _ _ _ H2), (appends_dom _ _ _ _ H1), Hinfo.
      by eapply info_keys_elem.
    - rewrite Forall_forall in Hvals. specialize (Hvals _ Hin). simpl in Hvals.
      by rewrite Hc, Hs in Hvals. }
  simpl. by eexists.
Qed.

(** [read_vcf] returns a dictionary for every file whose selected lines
    are readable. *)
Lemma read_vcf_returns vcf_file reference header rest :
  selected_lines vcf_file "#CHROM" = header :: rest →
  Forall (readable header) (selected_lines vcf_file reference) →
  ∃ d printed, read_vcf vcf_file reference = Ok (d, printed).
Proof.
  intros Hheader Hwf. unfold read_vcf. rewrite Hheader.
  set (lines := selected_lines vcf_file reference) in *.
  destruct (initial_columns (take 6 header)) as [_ I2].
  match goal with |- context [for_each declare_info_keys ?d0 lines] =>
    destruct (for_each_inv declare_info_keys (λ _, True) lines d0) as (d1 & H1 & _)
  end; [done| |].
  { intros d l Hl _. rewrite Forall_forall in Hwf. destruct (Hwf _ Hl) as [[Hlen _] _].
    unfold declare_info_keys, index.
    destruct (lookup_lt_is_Some_2 l 7) as [field ->]; [lia|]. simpl. by eexists. }
  rewrite H1. simpl. apply for_each_declare in H1 as (_ & D2 & D3).
  destruct (for_each_inv (fill_line header)
              (λ d, ∀ x, is_Some (d1 !! x) → is_Some (d !! x)) lines d1) as (d2 & H2 & _);
    [done| |].
  { intros d l Hl Hd. rewrite Forall_forall in Hwf.
    destruct (fill_line_returns header d l) as [d' Hd']; [by apply Hwf| | |].
    - intros x Hx. by apply Hd, D2, I2.
    - intros key Hkey. by eapply Hd, D3.
    - exists d'. split; [done|]. intros x Hx.
      apply (appends_dom _ _ _ x (fill_line_appends _ _ _ _ Hd')). by apply Hd. }
  rewrite H2. simpl. by eexists _, _.
Qed.

Lemma sorted_by_position_sorted ids sorted :
  sorted_by_position ids = Ok sorted →
  StronglySorted position_le sorted ∧ sorted ≡ₚ ids.
Proof.
  unfold sorted_by_position. intros (keys & Hkeys & [= <-])%bind_Ok.
  apply mapM_Ok in Hkeys.
  assert (Forall (λ p : Z * string, mutation_position p.2 = Ok p.1) (zip keys ids)) as Hzip.
  { clear -Hkeys. induction Hkeys; simpl; constructor; done. }
  assert ((zip keys ids).*2 = ids) as Hsnd.
  { apply snd_zip. apply Forall2_length in Hkeys. lia. }
  split.
  - rewrite <- (sort_keyed_perm Z.leb) in Hzip.
    pose proof (sort_keyed_sorted (zip keys ids)) as Hs.
    induction Hs as [|p l _ IH Hp]; simpl; constructor.
    + apply IH. by apply Forall_cons_1 in Hzip as [_ ?].
    + apply Forall_cons_1 in Hzip as [Hp1 Hl]. apply Forall_fmap.
      rewrite Forall_forall in *. intros q Hq. simpl.
      exists p.1, q.1. split; [done|]. split; [by apply Hl|by apply Hp].
  - rewrite <- Hsnd at 2. by rewrite sort_keyed_perm.
Qed.

Lemma sorted_by_position_returns ids :
  Forall (λ x, ∃ p, mutation_position x = Ok p) ids →
  ∃ sorted, sorted_by_position ids = Ok sorted.
Proof.
  intros H. destruct (mapM_returns _ _ H) as [keys Hkeys].
  unfold sorted_by_position. rewrite Hkeys. simpl. by eexists.
Qed.

Lemma headerless_selected f : headerless f → selected_lines f "#CHROM" = [].
Proof.
  unfold headerless, selected_lines. intros H.
  induction H as [|l ls Hl _ IH]; [done|].
  rewrite filter_cons. rewrite decide_False by congruence. exact IH.
Qed.

Lemma read_vcf_headerless f reference :
  headerless f →
  read_vcf f reference = Ok (∅, [NoChromHeader (stem f)]).
Proof. intros H. unfold read_vcf. by rewrite headerless_selected. Qed.

(** *** Main theorems *)

(** C6 (amended).  For a line with [k] ALT alleles, the pass of the loop
    for a canonical column appends exactly [k] entries to the list of that
    column, leaving the other lists alone: slot [i] holds the [i]-th
    comma-separated value of the column when there is one and the first
    value otherwise, so a column with a single value is broadcast to all
    [k] slots.  The pass returns unless one of these [k] values is a run
    of more decimal digits than [int] converts, which [convert_string]
    refuses; when it returns, the entries are what [convert_string] returned
    for the slots.  When the name of the column is given once on the line
    (among the first six header names, [MUT_TYPE_] and the INFO keys), these
    are all the entries the line adds to it. *)
Theorem fill_column_entries k line d idx key field old :
  line !! idx = Some field →
  d !! key = Some old →
  let sublines := split ","%char field in
  let entries := column_entries k field in
  (((∃ d', fill_column k line d (idx, key) = Ok d')
    ↔ ∀ i, (i < k)%nat → too_long (subline sublines i) = false)
   ∧ ∀ d', fill_column k line d (idx, key) = Ok d' →
       d' !! key = Some (old ++ entries)
       ∧ (∀ x, x ≠ key → d' !! x = d !! x)
       ∧ ∀ i, (i < k)%nat →
           ∃ v, convert_string (subline sublines i) = Ok v ∧ entries !! i = Some v)
  ∧ length entries = k
  ∧ (∀ i s, (i < k)%nat → sublines !! i = Some s → entries !! i = Some (converted s))
  ∧ (∀ i, (length sublines ≤ i < k)%nat →
       entries !! i = Some (converted (List.hd "" sublines)))
  ∧ (length sublines = 1%nat → entries = replicate k (converted field))
  ∧ (∀ header alt d1 d2,
       take 6 header !! idx = Some key →
       line !! 4%nat = Some alt → k = length (split ","%char alt) →
       occurrences key (visited_keys_of header line) = 1%nat →
       d1 !! key = Some old →
       fill_line header d1 line = Ok d2 →
       d2 !! key = Some (old ++ entries)).
Proof.
  intros Hfield Hold sublines entries.
  assert (∀ i, (i < k)%nat →
            entries !! i = Some (converted (subline sublines i))) as Hslot.
  { intros i Hi. unfold entries, column_entries.
    rewrite list_lookup_fmap, lookup_seq_lt by done. done. }
  assert (fill_column k line d (idx, key)
          = for_each (λ d i, append_converted d key (subline sublines i)) d (seq 0 k))
    as Hpass by (unfold fill_column, index; by rewrite Hfield).
  split; [split; [split|]|split; [|split; [|split; [|split]]]].
  - intros [d' Hrun] i Hi. rewrite Hpass in Hrun.
    apply for_each_append_converted in Hrun as [_ Hshort].
    rewrite Forall_forall in Hshort. apply Hshort, elem_of_seq. lia.
  - intros Hshort. rewrite Hpass.
    destruct (for_each_append_converted_returns (λ i, subline sublines i) key (seq 0 k) d)
      as (d' & Hrun & _); [by rewrite Hold| |by exists d'].
    apply Forall_forall. intros i Hi%elem_of_seq. apply Hshort. lia.
  - intros d' Hrun. rewrite Hpass in Hrun.
    apply for_each_append_converted in Hrun as [Hrun Hshort].
    apply (for_each_append (λ i, converted (subline sublines i))) in Hrun.
    split; [|split].
    + rewrite (Hrun key), Hold. simpl. by rewrite decide_True.
    + intros x Hx. rewrite (Hrun x). rewrite decide_False by done.
      destruct (d !! x); simpl; [by rewrite app_nil_r|done].
    + intros i Hi. exists (converted (subline sublines i)).
      split; [|by apply Hslot]. rewrite convert_string_cases.
      rewrite Forall_forall in Hshort. rewrite Hshort; [done|]. apply elem_of_seq. lia.
  - apply length_column_entries.
  - intros i s Hi Hs. rewrite Hslot by done. unfold subline. by rewrite Hs.
  - intros i [Hlo Hhi]. rewrite Hslot by done. unfold subline.
    by rewrite (lookup_ge_None_2 sublines i).
  - intros Hone. apply list_eq. intros i.
    destruct (decide (i < k)%nat) as [Hi|Hi].
    + rewrite Hslot by done. rewrite lookup_replicate_2 by done.
      unfold subline, sublines. rewrite (split_single _ _ Hone).
      by destruct i.
    + rewrite !lookup_ge_None_2; [done|rewrite length_replicate; lia|].
      unfold entries. rewrite length_column_entries. lia.
  - intros header alt d1 d2 Hkey Halt -> Hocc Hd1 Hfill.
    apply fill_line_appends in Hfill. rewrite (Hfill key), Hd1. simpl.
    rewrite (line_contrib_canonical _ _ idx) by done.
    unfold length_variants_of. by rewrite Halt, Hfield.
Qed.

(** C3 (amended).  For a file with a header, if [read_vcf] returns [d]:
    every INFO key seen on any selected line is a column of [d]; every column
    is the concatenation of what the selected lines add to it, and a line
    that has no value for a key adds exactly [length_variants] [None]s to it;
    a line that has the key adds one entry per comma-separated value, so the
    columns all have the length of the total allele count when every line is
    regular (each key given once, each INFO value with [length_variants]
    parts). *)
Theorem read_vcf_info_columns vcf_file reference header rest d printed :
  selected_lines vcf_file "#CHROM" = header :: rest →
  read_vcf vcf_file reference = Ok (d, printed) →
  let lines := selected_lines vcf_file reference in
  (∀ line key, line ∈ lines →
     key ∈ info_keys (split ";"%char (default "" (line !! 7%nat))) → is_Some (d !! key))
  ∧ (∀ x l, d !! x = Some l →
       l = concat ((λ line, line_contrib header line x) <$> lines))
  ∧ (∀ line x, x ∉ visited_keys_of header line →
       line_contrib header line x = replicate (length_variants_of line) PNone)
  ∧ (Forall (regular_line header) lines →
       ∀ x l, d !! x = Some l → length l = total_alleles lines).
Proof.
  intros Hheader Hread lines.
  destruct (read_vcf_columns _ _ _ _ _ _ Hheader Hread) as (Hcols & _ & Hkeys).
  split; [exact Hkeys|]. split; [exact Hcols|].
  split; [intros line x; apply line_contrib_missing|].
  intros Hregular x l Hx. rewrite (Hcols x l Hx).
  by apply length_concat_contrib.
Qed.

(** C4.  Whatever the files hold and in whatever order the set of ids is
    iterated, the axis that [extract_vcf_data] returns is sorted ascending
    by the integer read from the first underscore-delimited token of each
    id (so ["9_..."] comes before ["10_..."] and ["100_..."], which a
    lexicographic order would reverse), and it is a rearrangement of the
    set of ids. *)
Theorem extract_vcf_data_sorted vcf_files reference threshold scores
    frequency_lists unique_mutations file_names printed :
  extract_vcf_data vcf_files reference threshold scores
  = Ok (frequency_lists, unique_mutations, file_names, printed) →
  StronglySorted position_le unique_mutations
  ∧ unique_mutations ≡ₚ set_iter (distinct (concat ((λ li, li.*1) <$> frequency_lists))).
Proof.
  unfold extract_vcf_data. intros ([[names lists] pr] & _ & H)%bind_Ok.
  apply bind_Ok in H as (um & Hum & H).
  destruct um as [|m um]; [done|]. injection H as <- <- <- <-.
  by apply sorted_by_position_sorted.
Qed.

(** C2 (what the code does).  A file without a [#CHROM] line makes
    [read_vcf] return the empty dictionary with a warning
    ([read_vcf_headerless]), and then [extract_vcf_data] looks up
    ["#CHROM"] in it: with such a file among its inputs it raises instead
    of continuing with an empty list for that sample. *)
Theorem extract_vcf_data_headerless_raises vcf_files reference threshold scores :
  Exists headerless vcf_files →
  ∃ e, extract_vcf_data vcf_files reference threshold scores = Raise e.
Proof.
  intros Hex. unfold extract_vcf_data.
  match goal with |- context [for_each ?b ?s ?l] =>
    assert (∃ e, for_each b s l = Raise e) as [e He]
  end.
  { apply for_each_Exists_raise with (P := headerless); [|done].
    intros [[names lists] printed] f Hf. rewrite read_vcf_headerless by done.
    simpl. by eexists. }
  rewrite He. by exists e.
Qed.

End WithFloat.

(** *** Worked examples *)

Lemma column_of_Ok r d printed x : r = Ok (d, printed) → column_of r x = d !! x.
Proof. by intros ->. Qed.

(** A regular file: all columns of [sample_b] have the three alleles. *)
Lemma read_vcf_info_columns_witness :
  ∃ d printed, read_vcf decimal_float sample_b "ref" = Ok (d, printed)
    ∧ ∀ x l, d !! x = Some l → length l = 3%nat.
Proof.
  assert (is_ok (read_vcf decimal_float sample_b "ref") = true) as Hok
    by (vm_compute; reflexivity).
  destruct (read_vcf decimal_float sample_b "ref") as [[d printed]|e] eqn:E;
    [|done].
  exists d, printed. split; [reflexivity|].
  edestruct (read_vcf_info_columns decimal_float sample_b "ref") as (_ & _ & _ & H);
    [vm_compute; reflexivity | exact E |].
  apply H.
  let lines := eval vm_compute in (selected_lines sample_b "ref") in
  change (selected_lines sample_b "ref") with lines.
  repeat first [apply Forall_nil_2 | apply Forall_cons_2];
    (split; [apply (bool_decide_unpack _); vm_compute; exact I | vm_compute; reflexivity]).
Defined.

(** The columns of one dictionary need not have the same length: for the
    LoFreq line, [DP4] has four entries and [POS] one. *)
Lemma read_vcf_ragged_columns :
  ∃ d printed, read_vcf decimal_float sample_lofreq "ref" = Ok (d, printed)
    ∧ total_alleles (selected_lines sample_lofreq "ref") = 1%nat
    ∧ length <$> d !! "POS" = Some 1%nat
    ∧ length <$> d !! "DP4" = Some 4%nat.
Proof.
  pose (r := read_vcf decimal_float sample_lofreq "ref").
  assert (length <$> column_of r "POS" = Some 1%nat) as Hpos by (vm_compute; reflexivity).
  assert (length <$> column_of r "DP4" = Some 4%nat) as Hdp4 by (vm_compute; reflexivity).
  destruct r as [[d printed]|e] eqn:E; [|done].
  exists d, printed. split; [exact E|]. split; [vm_compute; reflexivity|]. by split.
Qed.

(** Positions 100, 9 and 10 come out as 9, 10, 10, 100. *)
Lemma extract_vcf_data_sorted_witness :
  ∃ frequency_lists unique_mutations file_names printed,
    extract_vcf_data decimal_float float_repr_unused reverse
      [sample_a; sample_b] "ref" 0%float false
    = Ok (frequency_lists, unique_mutations, file_names, printed)
    ∧ unique_mutations = ["9_AT_A_DEL"; "10_A_GA_INS"; "10_A_T_SNV"; "100_A_T_SNV"]
    ∧ StronglySorted position_le unique_mutations.
Proof.
  eexists _, _, _, _. split; [vm_compute; reflexivity|]. split; [reflexivity|].
  eapply (extract_vcf_data_sorted decimal_float float_repr_unused reverse
            [sample_a; sample_b] "ref" 0%float false).
  vm_compute. reflexivity.
Defined.

(** Two ids for three alleles give [x; y; x]; one position gives
    [10; 10; 10]. *)
Lemma fill_column_entries_witness :
  ∃ d', fill_column decimal_float 3
          ["ref"; "10"; "x,y"; "A"; "T,G,C"; "50"; "PASS"; "AF=0.5,0.25,0.125"]
          declared_columns (2%nat, "ID") = Ok d'
        ∧ d' !! "ID" = Some [PStr "x"; PStr "y"; PStr "x"]
        ∧ column_entries decimal_float 3 "10" = replicate 3 (PInt 10).
Proof.
  destruct (fill_column_entries decimal_float 3
              ["ref"; "10"; "x,y"; "A"; "T,G,C"; "50"; "PASS"; "AF=0.5,0.25,0.125"]
              declared_columns 2%nat "ID" "x,y" [] eq_refl eq_refl)
    as (([_ Hreturns] & Hpass) & _).
  destruct Hreturns as [d' Hrun].
  { intros [|[|[|i]]] Hi; [reflexivity|reflexivity|reflexivity|lia]. }
  exists d'. split; [exact Hrun|]. split; [exact (proj1 (Hpass d' Hrun))|].
  refine (proj1 (proj2 (proj2 (proj2 (proj2
    (fill_column_entries decimal_float 3 ["ref"; "10"] declared_columns 1%nat "POS" "10" []
       eq_refl eq_refl))))) eq_refl).
Defined.

(** A column with fewer values than alleles is not filled with one value:
    the ids [x,y] of a line with three alleles become [x; y; x]. *)
Lemma canonical_column_not_broadcast :
  ∃ d printed, read_vcf decimal_float sample_two_ids "ref" = Ok (d, printed)
    ∧ (length (split ","%char "x,y") < length (split ","%char "T,G,C"))%nat
    ∧ d !! "ID" = Some [PStr "x"; PStr "y"; PStr "x"]
    ∧ ¬ ∃ v, d !! "ID" = Some (replicate 3 v).
Proof.
  pose (r := read_vcf decimal_float sample_two_ids "ref").
  assert (column_of r "ID" = Some [PStr "x"; PStr "y"; PStr "x"]) as Hid
    by (vm_compute; reflexivity).
  destruct r as [[d printed]|e] eqn:E; [|done].
  exists d, printed. split; [exact E|]. split; [vm_compute; lia|]. split; [exact Hid|].
  simpl in Hid. rewrite Hid. intros [v Hv]. simpl in Hv.
  injection Hv as Hx Hy _. rewrite <- Hx in Hy. discriminate Hy.
Qed.

(** A good sample followed by a sample without header. *)
Lemma extract_vcf_data_headerless_raises_witness :
  Exists headerless [sample_a; sample_headerless]
  ∧ ∃ e, extract_vcf_data decimal_float float_repr_unused id
           [sample_a; sample_headerless] "ref" 0%float false = Raise e.
Proof.
  assert (Exists headerless [sample_a; sample_headerless]) as H.
  { right. left. repeat constructor. }
  split; [exact H|].
  exact (extract_vcf_data_headerless_raises decimal_float float_repr_unused id _ "ref" 0%float false H).
Defined.

(** The exception is the [KeyError] of [vcf_dict["#CHROM"]]. *)
Example extract_vcf_data_missing_header_key_error :
  read_vcf decimal_float sample_headerless "ref" = Ok (∅, [NoChromHeader "sample_c"])
  ∧ extract_vcf_data decimal_float float_repr_unused id
      [sample_a; sample_headerless] "ref" 0%float false
    = Raise (KeyError "#CHROM").
Proof. split; vm_compute; reflexivity. Qed.

End Vcf.

(** ** The frequency matrix: masking and filtering *)

Module Matrix.
Import Py.

(** A 2-D [float64] array as the list of its rows.  A numpy array is
    rectangular; the theorems that need it assume [rectangular]. *)
Definition rectangular (rows : list (list float)) : Prop :=
  ∃ n, Forall (λ row, length row = n) rows.

(** One row of a per-base coverage table as [pd.read_csv] returns it, with
    its cells in the columns [#chr], [pos] and [coverage].  [read_csv] types
    each column from its entries: a [#chr] column in which every entry is an
    integer is read as integers ([PInt]), so the [#chr] cells of a file for
    a reference named [1] are the integer 1, not the text ["1"]; names that
    are not numbers are read as text ([PStr]). *)
Record coverage_row : Type := { chr : Vcf.pyval; pos : Z; coverage : Z }.

(** A coverage file: the stem of its name and the table read from it. *)
Record tsv_file : Type := { tsv_stem : string; table : list coverage_row }.

(** One element of [coverage["#chr"] == reference], where [reference] is a
    [str]: a cell that is not text is not equal to it. *)
Definition on_reference (reference : string) (r : coverage_row) : bool :=
  match chr r with
  | Vcf.PStr s => String.eqb s reference
  | _ => false
  end.

(** [np.ma.array(frequency_array, mask=np.isnan(frequency_array))]. *)
Record masked_array : Type := { data : list (list float); mask : list (list bool) }.

(** The test that decides whether a cell becomes [nan]:
    [coverage[coverage["pos"] == mut_pos].empty or
     all([frequency == 0, ...["coverage"].iloc[0] <= min_coverage])]. *)
Definition not_covered (coverage_table : list coverage_row) (min_coverage mut_pos : Z)
    (frequency : float) : bool :=
  match filter (λ r, pos r = mut_pos) coverage_table with
  | [] => true
  | r :: _ => PrimFloat.eqb frequency 0 && (coverage r <=? min_coverage)
  end.

(** The inner loop over [enumerate(zip(unique_mutations, array))] for the
    row [array]. *)
Definition annotate_row (coverage_table : list coverage_row) (min_coverage : Z)
    (unique_mutations : list string) (array : list float) : result (list float) :=
  for_each (λ array '(j, mutation),
      frequency ← index array j;
      mut_pos ← Vcf.mutation_position mutation;
      if not_covered coverage_table min_coverage mut_pos frequency
      then Ok (<[j := nan]> array)
      else Ok array)
    array (imap pair (take (length array) unique_mutations)).

(** The body of the loop over [enumerate(zip(file_names, frequency_array))]:
    a sample without a coverage file is skipped with a warning. *)
Definition annotate_sample (per_base_coverage_files : list tsv_file) (min_coverage : Z)
    (unique_mutations : list string) (reference : string)
    (state : list (list float) * list Vcf.warning) (sample : nat * string)
  : result (list (list float) * list Vcf.warning) :=
  let '(frequency_array, printed) := state in
  let '(i, file_name) := sample in
  match filter (λ file, tsv_stem file = file_name) per_base_coverage_files with
  | [] => Ok (frequency_array, printed ++ [Vcf.NotInTsvFiles file_name])
  | tsv_file :: _ =>
      array ← index frequency_array i;
      let coverage_table := filter (λ r, on_reference reference r = true) (table tsv_file) in
      array ← annotate_row coverage_table min_coverage unique_mutations array;
      Ok (<[i := array]> frequency_array, printed)
  end.

(** [annotate_non_covered_regions]: [per_base_coverage_files] is what
    [get_files(coverage_dir, "tsv")] found, each file as [pd.read_csv]
    reads it.  The array passed in is a [float64] array, which can hold
    [nan]; it is updated in place and is the [data] of the result. *)
Definition annotate_non_covered_regions (per_base_coverage_files : list tsv_file)
    (min_coverage : Z) (frequency_array : list (list float)) (file_names : list string)
    (unique_mutations : list string) (reference : string)
  : result (masked_array * list Vcf.warning) :=
  '(frequency_array, printed) ←
    match per_base_coverage_files with
    | [] => Ok (frequency_array, [])
    | _ =>
        for_each
          (annotate_sample per_base_coverage_files min_coverage unique_mutations reference)
          (frequency_array, [])
          (imap pair (take (length frequency_array) file_names))
    end;
  Ok ({| data := frequency_array;
         mask := (λ row : list float, PrimFloat.is_nan <$> row) <$> frequency_array |},
      printed).

Inductive obj : Type :=
  | ObjList (items : list string)
  | ObjArray (rows : list (list float)).

Definition get_list (h : gmap nat obj) (l : nat) : result (list string) :=
  match h !! l with
  | Some (ObjList items) => Ok items
  | _ => Raise TypeError
  end.

Definition get_array (h : gmap nat obj) (l : nat) : result (list (list float)) :=
  match h !! l with
  | Some (ObjArray rows) => Ok rows
  | _ => Raise TypeError
  end.

(** [max(l)] and [min(l)]: the first element is kept until a strictly
    larger (smaller) one is met. *)
Definition py_max (l : list float) : result float :=
  match l with
  | [] => Raise ValueError
  | x :: l' => Ok (foldl (λ m y, if PrimFloat.ltb m y then y else m) x l')
  end.

Definition py_min (l : list float) : result float :=
  match l with
  | [] => Raise ValueError
  | x :: l' => Ok (foldl (λ m y, if PrimFloat.ltb y m then y else m) x l')
  end.

(** The test of [delete_common_mutations] on one column. *)
Definition common_column (check_all : list float) : result bool :=
  if forallb (λ x, PrimFloat.eqb x 0) check_all then Ok true
  else if forallb (λ x, PrimFloat.ltb 0 x) check_all then
    hi ← py_max check_all;
    lo ← py_min check_all;
    Ok (PrimFloat.ltb (PrimFloat.sub hi lo) 0.5)
  else Ok false.

(** The test of [delete_n_mutations] on one column. *)
Definition rare_column (min_mut : Z) (check_all : list float) : result bool :=
  let n_mutations := length (filter (λ x, PrimFloat.ltb 0 x = true) check_all) in
  Ok (Z.of_nat n_mutations <=? min_mut).

(** Column [idx] of the array: [frequency_list[idx]] for every row. *)
Definition column (rows : list (list float)) (idx : nat) : result (list float) :=
  mapM (λ frequency_list, index frequency_list idx) rows.

(** The first loop of both filters: the indices of the columns to delete. *)
Definition columns_to_delete (test : list float → result bool) (rows : list (list float))
  : result (list nat) :=
  first ← index rows 0;
  for_each (λ mut_to_del idx,
      check_all ← column rows idx;
      flag ← test check_all;
      Ok (if flag : bool then mut_to_del ++ [idx] else mut_to_del))
    [] (seq 0 (length first)).

(** [del l[idx]]. *)
Definition del_item {A} (l : list A) (idx : nat) : result (list A) :=
  if decide (idx < length l)%nat then Ok (delete idx l) else Raise IndexError.

(** The items whose position, counted from [j], is not in [idxs]. *)
Fixpoint remove_from {A} (j : nat) (idxs : list nat) (l : list A) : list A :=
  match l with
  | [] => []
  | x :: l' =>
      if decide (j ∈ idxs) then remove_from (S j) idxs l'
      else x :: remove_from (S j) idxs l'
  end.

(** [np.delete(rows, idxs, axis=1)]. *)
Definition np_delete_columns (rows : list (list float)) (idxs : list nat) : list (list float) :=
  remove_from 0 idxs <$> rows.

(** The body shared by the two filters: the axis list at [unique_mutations]
    loses its entries in place, from the largest index down, and the
    result is a new array. *)
Definition delete_columns (test : list float → result bool)
    (frequency_array unique_mutations : nat) (h : gmap nat obj)
  : result (nat * gmap nat obj) :=
  rows ← get_array h frequency_array;
  mut_to_del ← columns_to_delete test rows;
  h ← for_each (λ h idx,
         items ← get_list h unique_mutations;
         items ← del_item items idx;
         Ok (<[unique_mutations := ObjList items]> h))
       h (reverse mut_to_del);
  let deleted := fresh (dom h) in
  Ok (deleted, <[deleted := ObjArray (np_delete_columns rows mut_to_del)]> h).

(** [delete_common_mutations] and [delete_n_mutations], on references to
    the caller's array and list. *)
Definition delete_common_mutations (frequency_array unique_mutations : nat)
    (h : gmap nat obj) : result (nat * gmap nat obj) :=
  delete_columns common_column frequency_array unique_mutations h.

Definition delete_n_mutations (frequency_array unique_mutations : nat) (min_mut : Z)
    (h : gmap nat obj) : result (nat * gmap nat obj) :=
  delete_columns (rare_column min_mut) frequency_array unique_mutations h.

(** The positions that survive, as a list of column indices. *)
Definition kept (n : nat) (idxs : list nat) : list nat := remove_from 0 idxs (seq 0 n).

(** Whether the first loop marks column [idx]. *)
Definition flagged (test : list float → result bool) (rows : list (list float))
    (idx : nat) : bool :=
  match column rows idx ≫= test with
  | Ok true => true
  | _ => false
  end.

(** What one call of a filter does to the objects of its caller: the array
    passed in is left as it was, the result is a new array, and the list at
    [unique_mutations] has lost, in place, the entries of the deleted
    columns. *)
Definition filter_effect (test : list float → result bool)
    (frequency_array unique_mutations : nat) (h : gmap nat obj)
    (deleted : nat) (h' : gmap nat obj) : Prop :=
  ∃ rows mut_to_del,
    h !! frequency_array = Some (ObjArray rows)
    ∧ columns_to_delete test rows = Ok mut_to_del
    ∧ h !! deleted = None
    ∧ h' !! deleted = Some (ObjArray (np_delete_columns rows mut_to_del))
    ∧ h' !! frequency_array = Some (ObjArray rows)
    ∧ (∀ axis, h !! unique_mutations = Some (ObjList axis) →
         h' !! unique_mutations = Some (ObjList (remove_from 0 mut_to_del axis)))
    ∧ (∀ l, l ≠ deleted → l ≠ unique_mutations → h' !! l = h !! l).

(** Coverage of sample [s1]: three positions of [ref], one of another
    reference; no file for sample [s2]. *)
Definition coverage_s1 : tsv_file :=
  {| tsv_stem := "s1";
     table := [ {| chr := Vcf.PStr "ref"; pos := 1; coverage := 5 |};
                {| chr := Vcf.PStr "ref"; pos := 2; coverage := 50 |};
                {| chr := Vcf.PStr "other"; pos := 3; coverage := 50 |};
                {| chr := Vcf.PStr "ref"; pos := 4; coverage := 50 |} ] |}.

(** Coverage of a sample mapped to a reference named [1]: the [#chr]
    column holds numbers only and is read as integers. *)
Definition coverage_numbered : tsv_file :=
  {| tsv_stem := "s1";
     table := [ {| chr := Vcf.PInt 1; pos := 1; coverage := 50 |};
                {| chr := Vcf.PInt 1; pos := 2; coverage := 50 |} ] |}.

Definition axis5 : list string :=
  ["1_A_T_SNV"; "2_C_G_SNV"; "3_G_A_SNV"; "4_T_C_SNV"; "5_A_C_SNV"].

Definition frequencies : list (list float) :=
  [[0; 0; 0; 0.5; 0.5]; [0; 0; 0; 0.5; 0.5]]%float.

(** The caller's heap: the array at 0 and the axis list at 1. *)
Definition caller_rows : list (list float) :=
  [[0.8; 0.7; 0.3; 0; 0.9];
   [0.7; 0.7; 0;   0; 0.2];
   [0.7; 0.7; 0.5; 0; 0]]%float.

Definition caller_heap : gmap nat obj :=
  {[ 0%nat := ObjArray caller_rows; 1%nat := ObjList axis5 ]}.

(** *** Facts about masking and filtering *)

Lemma annotate_row_cells coverage_table min_coverage unique_mutations array array' :
  annotate_row coverage_table min_coverage unique_mutations array = Ok array' →
  length array' = length array
  ∧ ∀ j frequency,
      array !! j = Some frequency →
      array' !! j =
        match unique_mutations !! j with
        | Some mutation =>
            match Vcf.mutation_position mutation with
            | Ok mut_pos =>
                Some (if not_covered coverage_table min_coverage mut_pos frequency
                      then nan else frequency)
            | Raise _ => None
            end
        | None => Some frequency
        end.
Proof.
  unfold annotate_row.
  set (body := λ (array : list float) '(j, mutation), _).
  assert (∀ muts cur,
    (length muts ≤ length array)%nat →
    for_each body array (imap pair muts) = Ok cur →
    length cur = length array
    ∧ ∀ j frequency, array !! j = Some frequency →
        cur !! j =
          match muts !! j with
          | Some mutation =>
              match Vcf.mutation_position mutation with
              | Ok mut_pos =>
                  Some (if not_covered coverage_table min_coverage mut_pos frequency
                        then nan else frequency)
              | Raise _ => None
              end
          | None => Some frequency
          end) as Hgen.
  { induction muts as [|mutation muts IH] using rev_ind; intros cur Hlen.
    - simpl. intros [= <-]. split; [done|]. intros j f Hj. done.
    - rewrite length_app in Hlen. simpl in Hlen.
      rewrite imap_app, for_each_app. simpl.
      intros (mid & Hmid & Hlast)%bind_Ok.
      destruct (IH mid) as [Hlm Hcells]; [lia|done|].
      rewrite Nat.add_0_r in Hlast.
      apply bind_Ok in Hlast as (cur' & Hcur' & [= <-]).
      unfold body in Hcur'.
      apply bind_Ok in Hcur' as (frequency & Hf & Hcur').
      apply bind_Ok in Hcur' as (mut_pos & Hpos & Hcur').
      unfold index in Hf. destruct (mid !! length muts) as [f0|] eqn:Hmid0; [|done].
      injection Hf as ->.
      assert (array !! length muts = Some frequency) as Horig.
      { destruct (lookup_lt_is_Some_2 array (length muts)) as [f Hf]; [lia|].
        pose proof (Hcells _ _ Hf) as Hc.
        rewrite (lookup_ge_None_2 muts (length muts)) in Hc by lia.
        congruence. }
      assert (length cur' = length array) as Hlc.
      { destruct (not_covered _ _ _ _); injection Hcur' as <-; [by rewrite length_insert|done]. }
      split; [done|].
      intros j f Hj. destruct (decide (j = length muts)) as [->|Hne].
      + rewrite lookup_app_r, Nat.sub_diag by lia. simpl. rewrite Hpos.
        assert (f = frequency) as -> by congruence.
        destruct (not_covered _ _ _ _); injection Hcur' as <-; [|done].
        rewrite list_lookup_insert_eq by lia. done.
      + assert (cur' !! j = mid !! j) as ->.
        { destruct (not_covered _ _ _ _); injection Hcur' as <-; [|done].
          by rewrite list_lookup_insert_ne. }
        rewrite (Hcells _ _ Hj).
        destruct (decide (j < length muts)%nat).
        * by rewrite lookup_app_l by lia.
        * rewrite (lookup_ge_None_2 (muts ++ [mutation]) j), (lookup_ge_None_2 muts j);
            [done|lia|rewrite length_app; simpl; lia]. }
  intros H.
  destruct (Hgen (take (length array) unique_mutations) array') as [Hl Hc];
    [rewrite length_take; lia|done|].
  split; [done|]. intros j f Hj. rewrite (Hc j f Hj).
  rewrite lookup_take_lt by (apply lookup_lt_Some in Hj; lia). done.
Qed.

Lemma annotate_samples_rows files min_coverage unique_mutations reference frequency_array :
  ∀ names printed frequency_array' printed',
  (length names ≤ length frequency_array)%nat →
  for_each (annotate_sample files min_coverage unique_mutations reference)
    (frequency_array, printed) (imap pair names) = Ok (frequency_array', printed') →
  length frequency_array' = length frequency_array
  ∧ ∀ i array, frequency_array !! i = Some array →
      match names !! i with
      | Some file_name =>
          match filter (λ file, tsv_stem file = file_name) files with
          | [] => frequency_array' !! i = Some array
          | tsv_file :: _ =>
              ∃ array',
                annotate_row (filter (λ r, on_reference reference r = true) (table tsv_file))
                  min_coverage unique_mutations array = Ok array'
                ∧ frequency_array' !! i = Some array'
          end
      | None => frequency_array' !! i = Some array
      end.
Proof.
  induction names as [|file_name names IH] using rev_ind;
    intros printed fa' printed' Hlen.
  - simpl. intros [= <- <-]. split; [done|]. intros i array Hi. done.
  - rewrite length_app in Hlen. simpl in Hlen.
    rewrite imap_app, for_each_app. simpl. rewrite Nat.add_0_r.
    intros ([mid pmid] & Hmid & Hlast)%bind_Ok.
    destruct (IH printed mid pmid) as [Hlm Hrows]; [lia|done|].
    apply bind_Ok in Hlast as ([fa1 p1] & Hlast & [= -> ->]).
    unfold annotate_sample in Hlast.
    destruct (lookup_lt_is_Some_2 frequency_array (length names)) as [orig Horig]; [lia|].
    pose proof (Hrows _ _ Horig) as Hmid0.
    rewrite (lookup_ge_None_2 names (length names)) in Hmid0 by lia.
    destruct (filter (λ file, tsv_stem file = file_name) files) as [|tsv_file others] eqn:Hfiles.
    + injection Hlast as <- <-. split; [done|]. intros i array Hi.
      pose proof (Hrows _ _ Hi) as Hr.
      destruct (decide (i = length names)) as [->|Hne].
      * rewrite lookup_app_r, Nat.sub_diag by lia. simpl. rewrite Hfiles. congruence.
      * destruct (decide (i < length names)%nat).
        -- by rewrite lookup_app_l by lia.
        -- rewrite (lookup_ge_None_2 (names ++ [file_name]) i)
             by (rewrite length_app; simpl; lia).
           by rewrite (lookup_ge_None_2 names i) in Hr by lia.
    + apply bind_Ok in Hlast as (array0 & Ha0 & Hlast).
      apply bind_Ok in Hlast as (array1 & Ha1 & [= <- <-]).
      unfold index in Ha0. rewrite Hmid0 in Ha0. injection Ha0 as <-.
      split; [by rewrite length_insert|]. intros i array Hi.
      pose proof (Hrows _ _ Hi) as Hr.
      destruct (decide (i = length names)) as [->|Hne].
      * rewrite lookup_app_r, Nat.sub_diag by lia. simpl. rewrite Hfiles.
        assert (array = orig) as -> by congruence.
        exists array1. split; [done|]. rewrite list_lookup_insert_eq by lia. done.
      * rewrite list_lookup_insert_ne by done.
        destruct (decide (i < length names)%nat).
        -- by rewrite lookup_app_l by lia.
        -- rewrite (lookup_ge_None_2 (names ++ [file_name]) i)
             by (rewrite length_app; simpl; lia).
           by rewrite (lookup_ge_None_2 names i) in Hr by lia.
Qed.


Lemma remove_from_nil {A} (l : list A) j : remove_from j [] l = l.
Proof.
  revert j. induction l as [|x l IH]; intros j; [done|]. cbn [remove_from].
  destruct (decide (j ∈ [])) as [?%elem_of_nil|_]; [done|]. by rewrite IH.
Qed.

Lemma remove_from_skip {A} (l : list A) : ∀ j i idxs,
  (i < j)%nat → remove_from j (i :: idxs) l = remove_from j idxs l.
Proof.
  induction l as [|x l IH]; intros j i idxs Hij; simpl; [done|].
  rewrite (IH (S j)) by lia.
  destruct (decide (j ∈ i :: idxs)) as [Hin|Hout], (decide (j ∈ idxs)) as [Hin'|Hout'];
    try done.
  - apply elem_of_cons in Hin as [->|?]; [lia|done].
  - exfalso. apply Hout. by right.
Qed.

Lemma delete_remove_from {A} (l : list A) : ∀ j i idxs,
  (j ≤ i)%nat → Forall (λ r, (i < r)%nat) idxs →
  delete (i - j)%nat (remove_from j idxs l) = remove_from j (i :: idxs) l.
Proof.
  induction l as [|x l IH]; intros j i idxs Hji Hidxs; simpl; [done|].
  assert (j ∉ idxs) as Hj.
  { intros Hin. rewrite Forall_forall in Hidxs. specialize (Hidxs _ Hin). lia. }
  destruct (decide (j ∈ idxs)) as [?|_]; [done|].
  destruct (decide (j ∈ i :: idxs)) as [Hin|Hout].
  - apply elem_of_cons in Hin as [->|?]; [|done].
    rewrite Nat.sub_diag. simpl. by rewrite remove_from_skip by lia.
  - assert (i ≠ j) by (intros ->; apply Hout; by left).
    replace (i - j)%nat with (S (i - S j)) by lia. simpl.
    f_equal. apply IH; [lia|done].
Qed.

Lemma length_remove_from_ge {A} (l : list A) : ∀ j i idxs,
  (j ≤ i)%nat → (i < j + length l)%nat → Forall (λ r, (i < r)%nat) idxs →
  (i - j < length (remove_from j idxs l))%nat.
Proof.
  induction l as [|x l IH]; intros j i idxs Hji Hlen Hidxs; simpl in *; [lia|].
  assert (j ∉ idxs) as Hj.
  { intros Hin. rewrite Forall_forall in Hidxs. specialize (Hidxs _ Hin). lia. }
  destruct (decide (j ∈ idxs)) as [?|_]; [done|]. simpl.
  destruct (decide (i = j)) as [->|Hne]; [lia|].
  specialize (IH (S j) i idxs ltac:(lia) ltac:(lia) Hidxs). lia.
Qed.

Lemma remove_from_seq_bounds idxs : ∀ n j i k,
  remove_from j idxs (seq j n) !! i = Some k →
  (j ≤ k < j + n)%nat ∧ k ∉ idxs.
Proof.
  induction n as [|n IH]; intros j i k; simpl; [done|].
  destruct (decide (j ∈ idxs)).
  - intros H%IH. split; [lia|tauto].
  - destruct i; simpl; [intros [= <-]; split; [lia|done]|].
    intros H%IH. split; [lia|tauto].
Qed.

Lemma remove_from_lookup {A} (l : list A) : ∀ j idxs i,
  remove_from j idxs l !! i
  = remove_from j idxs (seq j (length l)) !! i ≫= λ k, l !! (k - j)%nat.
Proof.
  induction l as [|x l IH]; intros j idxs i; simpl; [done|].
  destruct (decide (j ∈ idxs)).
  - rewrite IH. destruct (remove_from (S j) idxs (seq (S j) (length l)) !! i) as [k|] eqn:Hk;
      simpl; [|done].
    apply remove_from_seq_bounds in Hk as [Hk _].
    replace (k - j)%nat with (S (k - S j)) by lia. done.
  - destruct i as [|i]; simpl; [by rewrite Nat.sub_diag|].
    rewrite IH. destruct (remove_from (S j) idxs (seq (S j) (length l)) !! i) as [k|] eqn:Hk;
      simpl; [|done].
    apply remove_from_seq_bounds in Hk as [Hk _].
    replace (k - j)%nat with (S (k - S j)) by lia. done.
Qed.

Lemma length_remove_from {A} (l : list A) : ∀ j idxs,
  length (remove_from j idxs l) = length (remove_from j idxs (seq j (length l))).
Proof.
  induction l as [|x l IH]; intros j idxs; simpl; [done|].
  destruct (decide (j ∈ idxs)); simpl; by rewrite IH.
Qed.

Lemma collect_flagged test rows idxs : ∀ acc mut_to_del,
  for_each (λ mut_to_del idx,
      check_all ← column rows idx;
      flag ← test check_all;
      Ok (if flag : bool then mut_to_del ++ [idx] else mut_to_del)) acc idxs
  = Ok mut_to_del →
  mut_to_del = acc ++ filter (λ idx, flagged test rows idx = true) idxs
  ∧ Forall (λ idx, column rows idx ≫= test = Ok (flagged test rows idx)) idxs.
Proof.
  induction idxs as [|idx idxs IH]; intros acc D; simpl.
  - intros [= <-]. by rewrite app_nil_r.
  - intros (acc1 & H1 & H2)%bind_Ok.
    apply bind_Ok in H1 as (check_all & Hcol & H1).
    apply bind_Ok in H1 as (flag & Hflag & [= <-]).
    apply IH in H2 as [-> Hrest].
    assert (column rows idx ≫= test = Ok flag) as Hf by (by rewrite Hcol).
    assert (flagged test rows idx = flag) as Hfl.
    { unfold flagged. rewrite Hf. by destruct flag. }
    split.
    + rewrite filter_cons. rewrite Hfl. destruct flag.
      * rewrite decide_True by done. by rewrite <- app_assoc.
      * by rewrite decide_False by done.
    + constructor; [by rewrite Hfl|done].
Qed.

Lemma filter_seq_sorted (P : nat → Prop) `{∀ x, Decision (P x)} n : ∀ j,
  StronglySorted lt (filter P (seq j n)).
Proof.
  induction n as [|n IH]; intros j; simpl; [constructor|].
  rewrite filter_cons. destruct (decide (P j)); [|apply IH].
  constructor; [apply IH|].
  apply Forall_forall. intros k [_ Hk%elem_of_seq]%list_elem_of_filter. lia.
Qed.

Lemma columns_to_delete_flagged test rows mut_to_del :
  columns_to_delete test rows = Ok mut_to_del →
  ∃ first, rows !! 0%nat = Some first
    ∧ mut_to_del = filter (λ idx, flagged test rows idx = true) (seq 0 (length first))
    ∧ StronglySorted lt mut_to_del
    ∧ Forall (λ idx, column rows idx ≫= test = Ok (flagged test rows idx))
        (seq 0 (length first)).
Proof.
  unfold columns_to_delete. intros (first & Hfirst & H)%bind_Ok.
  unfold index in Hfirst. destruct (rows !! 0%nat) as [f|] eqn:Hf; [|done].
  injection Hfirst as ->. apply collect_flagged in H as [-> Hall].
  exists first. split; [done|]. simpl. split; [done|]. split; [|done].
  apply filter_seq_sorted.
Qed.

Lemma delete_axis_entries unique_mutations mut_to_del :
  StronglySorted lt mut_to_del → ∀ (h h' : gmap nat obj),
  for_each (λ h idx,
      items ← get_list h unique_mutations;
      items ← del_item items idx;
      Ok (<[unique_mutations := ObjList items]> h)) h (reverse mut_to_del) = Ok h' →
  (∀ loc, loc ≠ unique_mutations → h' !! loc = h !! loc)
  ∧ (∀ axis, h !! unique_mutations = Some (ObjList axis) →
       h' !! unique_mutations = Some (ObjList (remove_from 0 mut_to_del axis)))
  ∧ (∀ loc rows, h !! loc = Some (ObjArray rows) → h' !! loc = Some (ObjArray rows))
  ∧ dom h' = dom h.
Proof.
  induction 1 as [|i rest Hsorted IH Hi]; intros h h'.
  - simpl. intros [= <-]. split; [done|]. split; [|done].
    intros axis Haxis. by rewrite remove_from_nil.
  - rewrite reverse_cons, for_each_app. intros (h1 & H1 & H2)%bind_Ok.
    apply IH in H1 as (Hother & Haxis & Harrays & Hdom). simpl in H2.
    apply bind_Ok in H2 as (h2 & H2 & [= <-]).
    apply bind_Ok in H2 as (items & Hitems & H2).
    apply bind_Ok in H2 as (items' & Hdel & [= <-]).
    unfold get_list in Hitems.
    destruct (h1 !! unique_mutations) as [[items0|]|] eqn:Hh1; try done.
    injection Hitems as ->.
    unfold del_item in Hdel. destruct (decide (i < length items)%nat); [|done].
    injection Hdel as <-.
    split; [|split; [|split]].
    + intros loc Hloc. rewrite lookup_insert_ne by done. by apply Hother.
    + intros axis Hax. rewrite lookup_insert_eq. f_equal. f_equal.
      specialize (Haxis _ Hax). injection Haxis as ->.
      rewrite <- (delete_remove_from axis 0 i rest); [|lia|done].
      by rewrite Nat.sub_0_r.
    + intros loc rows Hloc. specialize (Harrays _ _ Hloc).
      rewrite lookup_insert_ne; [done|]. intros <-. congruence.
    + rewrite dom_insert_L, Hdom. apply elem_of_dom_2 in Hh1.
      rewrite Hdom in Hh1. apply subseteq_union_1_L. by apply singleton_subseteq_l.
Qed.

Lemma delete_columns_effect test frequency_array unique_mutations h deleted h' :
  delete_columns test frequency_array unique_mutations h = Ok (deleted, h') →
  filter_effect test frequency_array unique_mutations h deleted h'.
Proof.
  unfold delete_columns. intros (rows & Hrows & H)%bind_Ok.
  apply bind_Ok in H as (mut_to_del & Hdel & H).
  apply bind_Ok in H as (h1 & Hloop & [= <- <-]).
  unfold get_array in Hrows.
  destruct (h !! frequency_array) as [[|rows0]|] eqn:Hfa; try done.
  injection Hrows as ->.
  destruct (columns_to_delete_flagged _ _ _ Hdel) as (first & _ & _ & Hsorted & _).
  destruct (delete_axis_entries _ _ Hsorted _ _ Hloop) as (Hother & Haxis & Harrays & Hdom).
  pose proof (is_fresh (dom h1)) as Hfresh.
  assert (h1 !! fresh (dom h1) = None) as Hnone by (by apply not_elem_of_dom).
  pose proof (Harrays _ _ Hfa) as Hfa1.
  exists rows, mut_to_del. split; [done|]. split; [exact Hdel|].
  split; [apply not_elem_of_dom; rewrite <- Hdom; exact Hfresh|].
  split; [by rewrite lookup_insert_eq|].
  split.
  { rewrite lookup_insert_ne; [done|]. intros Heq. rewrite Heq in Hnone. congruence. }
  split.
  - intros axis Hax. rewrite lookup_insert_ne; [by apply Haxis|].
    intros Heq. specialize (Haxis _ Hax). rewrite <- Heq in Haxis. congruence.
  - intros loc Hloc Hum. rewrite lookup_insert_ne by done. by apply Hother.
Qed.

Lemma column_after_delete rows n mut_to_del i k :
  Forall (λ row, length row = n) rows →
  kept n mut_to_del !! i = Some k →
  column (np_delete_columns rows mut_to_del) i = column rows k.
Proof.
  intros Hrect Hk. unfold column, np_delete_columns.
  induction Hrect as [|row rows Hrow _ IH]; [done|].
  rewrite fmap_cons. cbn [mapM]. rewrite IH.
  assert (index (remove_from 0 mut_to_del row) i = index row k) as ->; [|done].
  unfold index. rewrite remove_from_lookup, Hrow. fold (kept n mut_to_del).
  rewrite Hk. simpl. by rewrite Nat.sub_0_r.
Qed.

Lemma collect_nothing (test : list float → result bool) rows idxs : ∀ acc,
  Forall (λ idx, column rows idx ≫= test = Ok false) idxs →
  for_each (λ mut_to_del idx,
      check_all ← column rows idx;
      flag ← test check_all;
      Ok (if flag : bool then mut_to_del ++ [idx] else mut_to_del)) acc idxs
  = Ok acc.
Proof.
  intros acc. induction 1 as [|idx idxs Hidx _ IH]; simpl; [done|].
  destruct (column rows idx) as [check_all|]; simpl in *; [|done].
  rewrite Hidx. simpl. exact IH.
Qed.

Lemma np_delete_columns_nil rows : np_delete_columns rows [] = rows.
Proof.
  unfold np_delete_columns. induction rows as [|row rows IH]; [done|].
  by rewrite fmap_cons, remove_from_nil, IH.
Qed.

(** After a filter has run, its test holds of no surviving column. *)
Lemma survivors_not_flagged test rows mut_to_del :
  rectangular rows →
  columns_to_delete test rows = Ok mut_to_del →
  ∃ first,
    np_delete_columns rows mut_to_del !! 0%nat = Some first
    ∧ Forall (λ idx, column (np_delete_columns rows mut_to_del) idx ≫= test = Ok false)
        (seq 0 (length first)).
Proof.
  intros [n Hrect] Hdel.
  destruct (columns_to_delete_flagged _ _ _ Hdel) as (first & Hfirst & HD & _ & Hall).
  assert (length first = n) as Hn.
  { rewrite Forall_forall in Hrect. apply Hrect. by eapply list_elem_of_lookup_2. }
  exists (remove_from 0 mut_to_del first). split.
  { unfold np_delete_columns. by rewrite list_lookup_fmap, Hfirst. }
  apply Forall_forall. intros idx [_ Hidx]%elem_of_seq. simpl in Hidx.
  rewrite length_remove_from, Hn in Hidx. fold (kept n mut_to_del) in Hidx.
  destruct (lookup_lt_is_Some_2 _ _ Hidx) as [k Hk].
  rewrite (column_after_delete rows n mut_to_del idx k Hrect Hk).
  apply remove_from_seq_bounds in Hk as [Hkn Hkout].
  rewrite Forall_forall in Hall. rewrite Hall by (apply elem_of_seq; lia).
  f_equal. destruct (flagged test rows k) eqn:Hflag; [|done].
  exfalso. apply Hkout. rewrite HD. apply list_elem_of_filter. split; [done|].
  apply elem_of_seq. lia.
Qed.

Lemma delete_columns_again test frequency_array unique_mutations h rows axis deleted h1 :
  h !! frequency_array = Some (ObjArray rows) →
  rectangular rows →
  h !! unique_mutations = Some (ObjList axis) →
  delete_columns test frequency_array unique_mutations h = Ok (deleted, h1) →
  ∃ rows1 axis1 deleted2 h2,
    h1 !! deleted = Some (ObjArray rows1)
    ∧ h1 !! unique_mutations = Some (ObjList axis1)
    ∧ columns_to_delete test rows1 = Ok []
    ∧ delete_columns test deleted unique_mutations h1 = Ok (deleted2, h2)
    ∧ h2 !! deleted2 = Some (ObjArray rows1)
    ∧ h2 !! unique_mutations = Some (ObjList axis1)
    ∧ (∀ first idx, rows1 !! 0%nat = Some first → (idx < length first)%nat →
         ∃ check_all, column rows1 idx = Ok check_all ∧ test check_all = Ok false).
Proof.
  intros Hfa Hrect Hum Hrun.
  destruct (delete_columns_effect _ _ _ _ _ _ Hrun)
    as (rows' & D & Hfa' & Hdel & Hfresh & Hnew & _ & Haxis & _).
  assert (rows' = rows) as -> by congruence.
  specialize (Haxis _ Hum).
  destruct (survivors_not_flagged _ _ _ Hrect Hdel) as (first & Hfirst & Hnone).
  set (rows1 := np_delete_columns rows D) in *.
  assert (columns_to_delete test rows1 = Ok []) as Hdel1.
  { unfold columns_to_delete, index. rewrite Hfirst. simpl. by apply collect_nothing. }
  exists rows1, (remove_from 0 D axis), (fresh (dom h1)),
    (<[fresh (dom h1) := ObjArray rows1]> h1).
  pose proof (is_fresh (dom h1)) as Hfr.
  split; [done|]. split; [done|]. split; [done|]. split.
  { unfold delete_columns, get_array. rewrite Hnew. simpl. rewrite Hdel1. simpl.
    by rewrite np_delete_columns_nil. }
  split; [by rewrite lookup_insert_eq|]. split.
  { rewrite lookup_insert_ne; [done|]. intros Heq. apply Hfr. rewrite Heq.
    by eapply elem_of_dom_2. }
  intros first' idx Hf' Hidx. assert (first' = first) as -> by congruence.
  rewrite Forall_forall in Hnone. specialize (Hnone idx).
  destruct (column rows1 idx) as [check_all|] eqn:Hcol.
  - exists check_all. split; [done|]. apply Hnone. apply elem_of_seq. lia.
  - exfalso. specialize (Hnone ltac:(apply elem_of_seq; lia)). done.
Qed.





Lemma annotate_row_returns coverage_table min_coverage unique_mutations array :
  Forall (λ mutation, ∃ p, Vcf.mutation_position mutation = Ok p) unique_mutations →
  ∃ array', annotate_row coverage_table min_coverage unique_mutations array = Ok array'.
Proof.
  intros Hparse. unfold annotate_row.
  match goal with |- context [for_each ?body array ?l] =>
    destruct (for_each_inv body (λ cur, length cur = length array) l array)
      as (array' & Hrun & _)
  end; [done| |by exists array'].
  intros cur [j mutation] (i & m & [= -> ->] & Hi)%elem_of_lookup_imap Hlen.
  pose proof (lookup_lt_Some _ _ _ Hi) as Hlt. rewrite length_take in Hlt.
  destruct (lookup_lt_is_Some_2 cur i) as [frequency Hf]; [lia|].
  unfold index. rewrite Hf. simpl.
  apply lookup_take_Some in Hi as [Hi _].
  rewrite Forall_forall in Hparse.
  destruct (Hparse m) as [p ->]; [by eapply list_elem_of_lookup_2|]. simpl.
  destruct (not_covered _ _ _ _); eexists; (split; [done|]); [by rewrite length_insert|done].
Qed.

(** [annotate_non_covered_regions] returns whenever every mutation id
    starts with an integer position. *)
Lemma annotate_non_covered_regions_returns files min_coverage frequency_array file_names
    unique_mutations reference :
  Forall (λ mutation, ∃ p, Vcf.mutation_position mutation = Ok p) unique_mutations →
  ∃ masked printed,
    annotate_non_covered_regions files min_coverage frequency_array file_names
      unique_mutations reference = Ok (masked, printed).
Proof.
  intros Hparse. unfold annotate_non_covered_regions.
  destruct files as [|file0 files0]; [by eexists _, _|].
  set (files := file0 :: files0).
  destruct (for_each_inv (annotate_sample files min_coverage unique_mutations reference)
              (λ s, length s.1 = length frequency_array)
              (imap pair (take (length frequency_array) file_names))
              (frequency_array, [])) as ([fa' printed] & -> & _); [done| |by eexists _, _].
  intros [cur pr] [j file_name] (i & m & [= -> ->] & Hi)%elem_of_lookup_imap Hlen.
  simpl in Hlen. unfold annotate_sample.
  destruct (filter _ files) as [|tsv_file others]; [by eexists|].
  pose proof (lookup_lt_Some _ _ _ Hi) as Hlt. rewrite length_take in Hlt.
  destruct (lookup_lt_is_Some_2 cur i) as [array Ha]; [lia|].
  unfold index. rewrite Ha. simpl.
  destruct (annotate_row_returns (filter (λ r, on_reference reference r = true) (table tsv_file))
              min_coverage unique_mutations array Hparse) as [array' ->].
  simpl. eexists. split; [done|]. simpl. by rewrite length_insert.
Qed.

Lemma common_column_returns check_all : ∃ flag, common_column check_all = Ok flag.
Proof.
  unfold common_column. destruct (forallb _ check_all) eqn:Hzero; [by eexists|].
  destruct (forallb (λ x, PrimFloat.ltb 0 x) check_all); [|by eexists].
  destruct check_all as [|x l]; [done|]. simpl. by eexists.
Qed.

Lemma rare_column_returns min_mut check_all : ∃ flag, rare_column min_mut check_all = Ok flag.
Proof. by eexists. Qed.

Lemma column_returns rows n idx :
  Forall (λ row, length row = n) rows → (idx < n)%nat →
  ∃ check_all, column rows idx = Ok check_all.
Proof.
  intros Hrect Hidx. apply mapM_returns.
  eapply Forall_impl; [exact Hrect|]. intros row Hrow. simpl in Hrow.
  destruct (lookup_lt_is_Some_2 row idx) as [x Hx]; [lia|].
  exists x. unfold index. by rewrite Hx.
Qed.

Lemma columns_to_delete_returns test rows first :
  (∀ check_all, ∃ flag, test check_all = Ok flag) →
  rectangular rows → rows !! 0%nat = Some first →
  ∃ mut_to_del, columns_to_delete test rows = Ok mut_to_del.
Proof.
  intros Htest [n Hrect] Hfirst. unfold columns_to_delete, index. rewrite Hfirst. simpl.
  assert (length first = n) as Hn.
  { rewrite Forall_forall in Hrect. apply Hrect. by eapply list_elem_of_lookup_2. }
  match goal with |- context [for_each ?body [] ?l] =>
    destruct (for_each_inv body (λ _, True) l []) as (D & HD & _)
  end; [done| |by exists D].
  intros acc idx [_ Hidx]%elem_of_seq _. simpl in Hidx.
  destruct (column_returns rows n idx Hrect) as [check_all ->]; [lia|]. simpl.
  destruct (Htest check_all) as [flag ->]. simpl. by eexists.
Qed.

Lemma delete_axis_returns unique_mutations mut_to_del :
  StronglySorted lt mut_to_del → ∀ (h : gmap nat obj) axis,
  h !! unique_mutations = Some (ObjList axis) →
  Forall (λ idx, (idx < length axis)%nat) mut_to_del →
  ∃ h', for_each (λ h idx,
      items ← get_list h unique_mutations;
      items ← del_item items idx;
      Ok (<[unique_mutations := ObjList items]> h)) h (reverse mut_to_del) = Ok h'.
Proof.
  induction 1 as [|i rest Hsorted IH Hi]; intros h axis Haxis Hbound.
  - by exists h.
  - apply Forall_cons_1 in Hbound as [Hilt Hrest].
    destruct (IH h axis Haxis Hrest) as [h1 Hh1].
    rewrite reverse_cons, for_each_app, Hh1. simpl.
    destruct (delete_axis_entries _ _ Hsorted _ _ Hh1) as (_ & Hax & _).
    unfold get_list. rewrite (Hax _ Haxis). simpl.
    unfold del_item. rewrite decide_True; [simpl; by eexists|].
    pose proof (length_remove_from_ge axis 0 i rest ltac:(lia) ltac:(simpl; lia) Hi).
    lia.
Qed.

(** Both filters return on a rectangular array with at least one row,
    when the axis list has an entry for every column. *)
Lemma filters_return frequency_array unique_mutations min_mut h rows first axis :
  h !! frequency_array = Some (ObjArray rows) →
  rectangular rows → rows !! 0%nat = Some first →
  h !! unique_mutations = Some (ObjList axis) →
  (length first ≤ length axis)%nat →
  (∃ deleted h', delete_common_mutations frequency_array unique_mutations h
                 = Ok (deleted, h'))
  ∧ (∃ deleted h', delete_n_mutations frequency_array unique_mutations min_mut h
                   = Ok (deleted, h')).
Proof.
  intros Hfa Hrect Hfirst Hum Hlen.
  assert (∀ test, (∀ check_all, ∃ flag, test check_all = Ok flag) →
            ∃ deleted h', delete_columns test frequency_array unique_mutations h
                          = Ok (deleted, h')) as Hgen.
  { intros test Htest. unfold delete_columns, get_array. rewrite Hfa. simpl.
    destruct (columns_to_delete_returns test rows first Htest Hrect Hfirst) as [D HD].
    rewrite HD. simpl.
    destruct (columns_to_delete_flagged _ _ _ HD) as (first' & Hf' & HDeq & Hsorted & _).
    assert (first' = first) as -> by congruence.
    destruct (delete_axis_returns unique_mutations D Hsorted h axis Hum) as [h1 ->].
    { rewrite HDeq. apply Forall_forall.
      intros idx [_ [_ Hidx]%elem_of_seq]%list_elem_of_filter. simpl in Hidx. lia. }
    simpl. by eexists _, _. }
  split; apply Hgen; [apply common_column_returns|apply rare_column_returns].
Qed.


(** *** Main theorems *)



(** C8 (amended).  [delete_common_mutations] and [delete_n_mutations]
    return a new array and leave the array passed in, and every other
    object of the caller, as they were; but they do not return an axis:
    the list passed in loses, in place, the entries of the deleted
    columns. *)
Theorem filters_update_axis_in_place frequency_array unique_mutations min_mut h deleted h' :
  (delete_common_mutations frequency_array unique_mutations h = Ok (deleted, h') →
     filter_effect common_column frequency_array unique_mutations h deleted h')
  ∧ (delete_n_mutations frequency_array unique_mutations min_mut h = Ok (deleted, h') →
       filter_effect (rare_column min_mut) frequency_array unique_mutations h deleted h').
Proof. split; apply delete_columns_effect. Qed.

(** *** Worked examples *)



(** With the table of [coverage_numbered] and the reference [1], the
    comparison with the [#chr] column selects no row: both cells are masked
    although both positions are covered 50 times and the first holds a
    frequency of 0.5. *)
Example annotate_numbered_reference_masks_all :
  Forall (λ r, ∀ s, chr r ≠ Vcf.PStr s) (table coverage_numbered)
  ∧ annotate_non_covered_regions [coverage_numbered] 10 [[0.5; 0]%float] ["s1"]
      ["1_A_T_SNV"; "2_C_G_SNV"] "1"
    = Ok ({| data := [[nan; nan]]; mask := [[true; true]] |}, []).
Proof. split; [by repeat constructor|vm_compute; reflexivity]. Qed.


(** The recurrence filter on [caller_heap]. *)
Lemma filters_update_axis_in_place_witness :
  ∃ deleted h',
    delete_n_mutations 0 1 2 caller_heap = Ok (deleted, h')
    ∧ filter_effect (rare_column 2) 0 1 caller_heap deleted h'.
Proof.
  destruct (delete_n_mutations 0 1 2 caller_heap) as [[deleted h']|e] eqn:E;
    [|vm_compute in E; discriminate].
  exists deleted, h'. split; [reflexivity|].
  exact (proj2 (filters_update_axis_in_place 0 1 2 caller_heap deleted h') E).
Defined.

(** The list the caller passed in is not the same after either filter: of
    the five ids, two are left. *)
Lemma filters_mutate_axis :
  (∃ deleted h',
     delete_common_mutations 0 1 caller_heap = Ok (deleted, h')
     ∧ caller_heap !! 1%nat = Some (ObjList axis5)
     ∧ h' !! 1%nat = Some (ObjList ["3_G_A_SNV"; "5_A_C_SNV"]))
  ∧ (∃ deleted h',
       delete_n_mutations 0 1 2 caller_heap = Ok (deleted, h')
       ∧ caller_heap !! 1%nat = Some (ObjList axis5)
       ∧ h' !! 1%nat = Some (ObjList ["1_A_T_SNV"; "2_C_G_SNV"])).
Proof.
  split; eexists _, _; (split; [vm_compute; reflexivity|]); split; vm_compute; reflexivity.
Qed.

End Matrix.

(** ** The annotation index: [parse_gff3] *)

Module Gff.
Import Py.

(** The values stored under a feature: attribute values are [str], and
    [start] and [stop] are [int]. *)
Inductive gffval : Type :=
  | GStr (s : string)
  | GInt (n : Z).

#[export] Instance gffval_eq_dec : EqDecision gffval.
Proof. solve_decision. Defined.

(** The message of [sys.exit] when the dictionary stays empty. *)
Definition not_found (reference : string) : exn :=
  SystemExit (error_prefix +:+ reference +:+ " not found in gff3 file.").

(** [gff3_dict[type][val] = {}]. *)
Definition new_feature (gff3_dict : gmap string (gmap string (gmap string gffval)))
    (type val : string) : result (gmap string (gmap string (gmap string gffval))) :=
  features ← getitem gff3_dict type;
  Ok (<[type := <[val := ∅]> features]> gff3_dict).

(** [gff3_dict[type][attribute_id][key] = v]; [attribute_id] is [None]
    while the local variable has not been assigned. *)
Definition set_attribute (gff3_dict : gmap string (gmap string (gmap string gffval)))
    (type : string) (attribute_id : option string) (key : string) (v : gffval)
  : result (gmap string (gmap string (gmap string gffval))) :=
  features ← getitem gff3_dict type;
  id ← match attribute_id with
       | Some id => Ok id
       | None => Raise UnboundLocalError
       end;
  attributes ← getitem features id;
  Ok (<[type := <[id := <[key := v]> attributes]> features]> gff3_dict).

(** The body of the loop over [gff_values[8].split(";")]. *)
Definition parse_attribute (type : string)
    (state : gmap string (gmap string (gmap string gffval)) * option string)
    (attribute : string)
  : result (gmap string (gmap string (gmap string gffval)) * option string) :=
  let '(gff3_dict, attribute_id) := state in
  match split "="%char attribute with
  | [identifier; val] =>
      '(gff3_dict, attribute_id) ←
        (if bool_decide (identifier = "ID") && bool_decide (gff3_dict !! "ID" = None)
         then gff3_dict ← new_feature gff3_dict type val; Ok (gff3_dict, Some val)
         else Ok (gff3_dict, attribute_id));
      if bool_decide (identifier ≠ "ID")
      then gff3_dict ← set_attribute gff3_dict type attribute_id identifier (GStr val);
           Ok (gff3_dict, attribute_id)
      else Ok (gff3_dict, attribute_id)
  | _ => Raise ValueError
  end.

(** The body of the loop over the lines of the file.  The right-hand side
    of each of the last three assignments is evaluated before its target. *)
Definition parse_line (reference : string)
    (state : gmap string (gmap string (gmap string gffval)) * option string)
    (line : string)
  : result (gmap string (gmap string (gmap string gffval)) * option string) :=
  let '(gff3_dict, attribute_id) := state in
  if negb (startswith line reference) then Ok state
  else
    let gff_values := split Vcf.tab (strip line) in
    attributes ← index gff_values 8;
    if negb (startswith attributes "ID=") then Ok state
    else
      type ← index gff_values 2;
      let gff3_dict :=
        match gff3_dict !! type with
        | None => <[type := ∅]> gff3_dict
        | Some _ => gff3_dict
        end in
      '(gff3_dict, attribute_id) ←
        for_each (parse_attribute type) (gff3_dict, attribute_id)
          (split ";"%char attributes);
      start ← index gff_values 3 ≫= int;
      gff3_dict ← set_attribute gff3_dict type attribute_id "start" (GInt start);
      stop ← index gff_values 4 ≫= int;
      gff3_dict ← set_attribute gff3_dict type attribute_id "stop" (GInt stop);
      strand ← index gff_values 6;
      gff3_dict ← set_attribute gff3_dict type attribute_id "strand" (GStr strand);
      Ok (gff3_dict, attribute_id).

(** [parse_gff3] on the lines of the file. *)
Definition parse_gff3 (file : list string) (reference : string)
  : result (gmap string (gmap string (gmap string gffval))) :=
  '(gff3_dict, _) ← for_each (parse_line reference) (∅, None) file;
  if decide (dom gff3_dict = ∅) then Raise (not_found reference)
  else Ok gff3_dict.

(** A line that [parse_line] leaves aside: it does not start with the
    reference, or its ninth field does not start with ["ID="]. *)
Definition skips (reference line : string) : bool :=
  if startswith line reference then
    match split Vcf.tab (strip line) !! 8%nat with
    | Some attributes => negb (startswith attributes "ID=")
    | None => false
    end
  else true.

(** A line that [parse_line] can process: a line of the reference has
    nine fields, and when it is indexed its type is not ["ID"], each of its
    attributes has one ["="], and its start and stop are integers. *)
Definition well_formed_line (reference line : string) : bool :=
  if startswith line reference then
    let gff_values := split Vcf.tab (strip line) in
    match gff_values !! 8%nat with
    | None => false
    | Some attributes =>
        if startswith attributes "ID=" then
          negb (String.eqb (default "" (gff_values !! 2%nat)) "ID")
          && forallb (λ attribute, Nat.eqb (length (split "="%char attribute)) 2)
               (split ";"%char attributes)
          && is_ok (int (default "" (gff_values !! 3%nat)))
          && is_ok (int (default "" (gff_values !! 4%nat)))
        else true
    end
  else true.

(** A run that does not end in [sys.exit]. *)
Definition no_exit {A} (r : result A) : Prop :=
  match r with
  | Raise (SystemExit _) => False
  | _ => True
  end.

(** Types are never removed from the dictionary. *)
Definition grows (d d' : gmap string (gmap string (gmap string gffval))) : Prop :=
  ∀ k, is_Some (d !! k) → is_Some (d' !! k).

(** The state while the attributes of an indexed line are read: no type
    is called ["ID"], and [attribute_id] names a feature of the type. *)
Definition entered (type : string)
    (state : gmap string (gmap string (gmap string gffval)) * option string) : Prop :=
  state.1 !! "ID" = None
  ∧ ∃ features id, state.1 !! type = Some features ∧ state.2 = Some id
                   ∧ is_Some (features !! id).

(** A GFF3 file with the three genes [10,50], [20,40], [60,80], a region
    and a child feature without an id. *)
Definition three_genes : list string :=
  ["##gff-version 3" +:+ String Vcf.newline "";
   Vcf.tsv ["ref"; "src"; "region"; "1"; "100"; "."; "+"; "."; "ID=ref:1..100"];
   Vcf.tsv ["ref"; "src"; "gene"; "10"; "50"; "."; "+"; "."; "ID=gene-a;Name=a;gbkey=Gene"];
   Vcf.tsv ["ref"; "src"; "gene"; "20"; "40"; "."; "-"; "."; "ID=gene-b;Name=b"];
   Vcf.tsv ["ref"; "src"; "CDS"; "20"; "40"; "."; "-"; "."; "Parent=gene-b"];
   Vcf.tsv ["ref"; "src"; "gene"; "60"; "80"; "."; "+"; "."; "ID=gene-c"]].

(** A file whose only line belongs to the reference and has no id. *)
Definition parent_only : list string :=
  [Vcf.tsv ["ref"; "src"; "CDS"; "20"; "40"; "."; "-"; "."; "Parent=gene-b"]].

(** *** Facts about [parse_gff3] *)

Lemma no_exit_bind {A B} (m : result A) (f : A → result B) :
  no_exit m → (∀ a, no_exit (f a)) → no_exit (m ≫= f).
Proof. destruct m as [a|e]; simpl; [intros _ H; apply H|done]. Qed.

Lemma no_exit_for_each {A S} (body : S → A → result S) l :
  (∀ s x, no_exit (body s x)) → ∀ s, no_exit (for_each body s l).
Proof.
  intros Hbody. induction l as [|x l IH]; intros s; simpl; [done|].
  apply no_exit_bind; [apply Hbody|apply IH].
Qed.

Lemma no_exit_index {A} (l : list A) i : no_exit (index l i).
Proof. unfold index. by destruct (l !! i). Qed.

Lemma no_exit_getitem {V} (d : gmap string V) k : no_exit (getitem d k).
Proof. unfold getitem. by destruct (d !! k). Qed.

Lemma no_exit_int s : no_exit (int s).
Proof. destruct (int s) as [n|e] eqn:E; [done|]. by rewrite (int_raises s e E). Qed.

Lemma no_exit_new_feature d type val : no_exit (new_feature d type val).
Proof. unfold new_feature. apply no_exit_bind; [apply no_exit_getitem|done]. Qed.

Lemma no_exit_set_attribute d type a key v : no_exit (set_attribute d type a key v).
Proof.
  unfold set_attribute. apply no_exit_bind; [apply no_exit_getitem|intros features].
  apply no_exit_bind; [by destruct a|intros id].
  apply no_exit_bind; [apply no_exit_getitem|done].
Qed.

Lemma no_exit_parse_attribute type s attribute : no_exit (parse_attribute type s attribute).
Proof.
  destruct s as [d a]. unfold parse_attribute.
  destruct (split "=" attribute) as [|identifier [|val [|]]]; try done.
  apply no_exit_bind.
  - destruct (_ && _); [|done]. apply no_exit_bind; [apply no_exit_new_feature|done].
  - intros [d1 a1]. destruct (bool_decide _); [|done].
    apply no_exit_bind; [apply no_exit_set_attribute|done].
Qed.

Lemma no_exit_parse_line reference s line : no_exit (parse_line reference s line).
Proof.
  destruct s as [d a]. unfold parse_line.
  destruct (negb _); [done|].
  apply no_exit_bind; [apply no_exit_index|intros attributes].
  destruct (negb _); [done|].
  apply no_exit_bind; [apply no_exit_index|intros type].
  apply no_exit_bind; [apply no_exit_for_each, no_exit_parse_attribute|intros [d1 a1]].
  apply no_exit_bind;
    [apply no_exit_bind; [apply no_exit_index|intros; apply no_exit_int]|intros start].
  apply no_exit_bind; [apply no_exit_set_attribute|intros d2].
  apply no_exit_bind;
    [apply no_exit_bind; [apply no_exit_index|intros; apply no_exit_int]|intros stop].
  apply no_exit_bind; [apply no_exit_set_attribute|intros d3].
  apply no_exit_bind; [apply no_exit_index|intros strand].
  apply no_exit_bind; [apply no_exit_set_attribute|done].
Qed.

Lemma parse_line_skips reference s line :
  skips reference line = true → parse_line reference s line = Ok s.
Proof.
  destruct s as [d a]. unfold skips, parse_line, index.
  destruct (startswith line reference); simpl; [|done].
  destruct (split Vcf.tab (strip line) !! 8%nat) as [attributes|]; [|done]. simpl.
  by intros ->.
Qed.

Lemma grows_insert (d : gmap string (gmap string (gmap string gffval))) k v :
  grows d (<[k := v]> d).
Proof.
  intros k' Hk'. destruct (decide (k = k')) as [->|Hne].
  - rewrite lookup_insert_eq. by eexists.
  - by rewrite lookup_insert_ne.
Qed.

Lemma grows_refl d : grows d d.
Proof. by intros k. Qed.

Lemma grows_trans d1 d2 d3 : grows d1 d2 → grows d2 d3 → grows d1 d3.
Proof. intros H1 H2 k Hk. by apply H2, H1. Qed.

Lemma new_feature_grows d type val d' : new_feature d type val = Ok d' → grows d d'.
Proof.
  unfold new_feature. intros (features & _ & [= <-])%bind_Ok. apply grows_insert.
Qed.

Lemma set_attribute_grows d type a key v d' :
  set_attribute d type a key v = Ok d' → grows d d'.
Proof.
  unfold set_attribute. intros (features & _ & H)%bind_Ok.
  apply bind_Ok in H as (id & _ & H). apply bind_Ok in H as (attrs & _ & [= <-]).
  apply grows_insert.
Qed.

Lemma parse_attribute_grows type d a attribute d' a' :
  parse_attribute type (d, a) attribute = Ok (d', a') → grows d d'.
Proof.
  unfold parse_attribute.
  destruct (split "=" attribute) as [|identifier [|val [|]]]; try done.
  intros ([d1 a1] & H1 & H2)%bind_Ok.
  assert (grows d d1) as G1.
  { destruct (_ && _); [|injection H1 as <- <-; apply grows_refl].
    apply bind_Ok in H1 as (d2 & H1 & [= <- <-]). by eapply new_feature_grows. }
  destruct (bool_decide (identifier ≠ "ID")); [|by injection H2 as <- <-].
  apply bind_Ok in H2 as (d2 & H2 & [= <- <-]).
  eapply grows_trans; [exact G1|by eapply set_attribute_grows].
Qed.

Lemma for_each_parse_attribute_grows type attributes : ∀ d a d' a',
  for_each (parse_attribute type) (d, a) attributes = Ok (d', a') → grows d d'.
Proof.
  induction attributes as [|attribute attributes IH]; intros d a d' a'; simpl.
  - intros [= <- <-]. apply grows_refl.
  - intros ([d1 a1] & H1 & H2)%bind_Ok.
    eapply grows_trans; [by eapply parse_attribute_grows|by eapply IH].
Qed.

Lemma parse_line_grows reference d a line d' a' :
  parse_line reference (d, a) line = Ok (d', a') →
  grows d d' ∧ (skips reference line = false → dom d' ≠ ∅).
Proof.
  unfold parse_line, skips.
  destruct (startswith line reference); simpl;
    [|intros [= <- <-]; split; [apply grows_refl|done]].
  intros (attributes & Hattr & H)%bind_Ok.
  unfold index in Hattr.
  destruct (split Vcf.tab (strip line) !! 8%nat) as [attrs|]; [injection Hattr as ->|done].
  destruct (startswith attributes "ID="); simpl in *;
    [|injection H as <- <-; split; [apply grows_refl|done]].
  apply bind_Ok in H as (type & _ & H).
  set (d0 := match d !! type with None => <[type := ∅]> d | Some _ => d end) in H.
  assert (grows d d0) as G0.
  { unfold d0. destruct (d !! type); [apply grows_refl|apply grows_insert]. }
  assert (is_Some (d0 !! type)) as Htype.
  { unfold d0. destruct (d !! type) eqn:Hd; [by rewrite Hd|].
    rewrite lookup_insert_eq. by eexists. }
  apply bind_Ok in H as ([d1 a1] & H1 & H).
  apply for_each_parse_attribute_grows in H1.
  apply bind_Ok in H as (start & _ & H). apply bind_Ok in H as (d2 & H2 & H).
  apply bind_Ok in H as (stop & _ & H). apply bind_Ok in H as (d3 & H3 & H).
  apply bind_Ok in H as (strand & _ & H). apply bind_Ok in H as (d4 & H4 & [= <- <-]).
  apply set_attribute_grows in H2, H3, H4.
  assert (grows d0 d4) as G.
  { eapply grows_trans; [exact H1|]. eapply grows_trans; [exact H2|].
    eapply grows_trans; [exact H3|exact H4]. }
  split; [by eapply grows_trans|].
  intros _ Hdom. apply G in Htype. apply elem_of_dom in Htype.
  rewrite Hdom in Htype. by apply not_elem_of_empty in Htype.
Qed.

Lemma for_each_parse_line_grows reference file : ∀ d a d' a',
  for_each (parse_line reference) (d, a) file = Ok (d', a') →
  grows d d'
  ∧ (dom d' = ∅ → forallb (skips reference) file = true).
Proof.
  induction file as [|line file IH]; intros d a d' a'; simpl.
  - intros [= <- <-]. split; [apply grows_refl|done].
  - intros ([d1 a1] & H1 & H2)%bind_Ok.
    apply parse_line_grows in H1 as [G1 Hline]. apply IH in H2 as [G2 Hrest].
    split; [by eapply grows_trans|].
    intros Hdom. rewrite (Hrest Hdom), andb_true_r.
    destruct (skips reference line); [done|]. exfalso.
    assert (∃ k, is_Some (d1 !! k)) as [k Hk].
    { destruct (map_choose_or_empty d1) as [(k & v & Hkv)| ->]; [by eexists|].
      by destruct Hline; [|rewrite dom_empty_L]. }
    apply G2, elem_of_dom in Hk. rewrite Hdom in Hk. by apply not_elem_of_empty in Hk.
Qed.

Lemma parse_gff3_not_found file reference :
  parse_gff3 file reference = Raise (not_found reference)
  ↔ forallb (skips reference) file = true.
Proof.
  unfold parse_gff3. split.
  - destruct (for_each (parse_line reference) (∅, None) file) as [[d a]|e] eqn:Hrun; simpl.
    + destruct (decide (dom d = ∅)) as [Hdom|]; [|done]. intros _.
      by apply for_each_parse_line_grows in Hrun as [_ ->].
    + intros [= ->].
      pose proof (no_exit_for_each (parse_line reference) file
                    (no_exit_parse_line reference) (∅, None)) as Hno.
      by rewrite Hrun in Hno.
  - intros Hskips.
    assert (for_each (parse_line reference) (∅, None) file = Ok (∅, None)) as ->.
    { generalize (∅ : gmap string (gmap string (gmap string gffval)), @None string).
      induction file as [|line file IH]; intros s; simpl in *; [done|].
      apply andb_prop in Hskips as [Hline Hrest].
      rewrite parse_line_skips by done. simpl. by apply IH. }
    simpl. by rewrite decide_True by apply dom_empty_L.
Qed.

Lemma startswith_ID s :
  startswith s "ID=" = true → ∃ r, s = String "I" (String "D" (String "=" r)).
Proof.
  destruct s as [|c1 [|c2 [|c3 r]]]; cbn [startswith]; try done.
  - by rewrite andb_false_r.
  - by rewrite !andb_false_r.
  - intros [H1 H]%andb_prop. apply andb_prop in H as [H2 H].
    apply andb_prop in H as [H3 _].
    apply Ascii.eqb_eq in H1 as <-, H2 as <-, H3 as <-. by exists r.
Qed.

Lemma first_attribute_ID attributes :
  startswith attributes "ID=" = true →
  ∃ w ws, split ";"%char attributes = String "I" (String "D" (String "=" w)) :: ws
          ∧ split "="%char (String "I" (String "D" (String "=" w)))
            = "ID" :: split "="%char w.
Proof.
  intros (r & ->)%startswith_ID.
  pose proof (split_nonempty ";"%char r) as Hr.
  destruct (split ";"%char r) as [|w ws] eqn:Hs; [done|].
  exists w, ws. split.
  - cbn [split]. change (Ascii.eqb "I" ";") with false.
    change (Ascii.eqb "D" ";") with false. change (Ascii.eqb "=" ";") with false.
    cbn iota. by rewrite Hs.
  - cbn [split]. change (Ascii.eqb "I" "=") with false.
    change (Ascii.eqb "D" "=") with false. change (Ascii.eqb "=" "=") with true.
    cbn iota. pose proof (split_nonempty "="%char w). by destruct (split "="%char w).
Qed.

Lemma parse_attribute_declares type d a attribute val :
  type ≠ "ID" → d !! "ID" = None → is_Some (d !! type) →
  split "="%char attribute = ["ID"; val] →
  ∃ s', parse_attribute type (d, a) attribute = Ok s' ∧ entered type s'.
Proof.
  intros Htype HID [features Hf] Hsplit. unfold parse_attribute. rewrite Hsplit.
  rewrite (bool_decide_eq_true_2 ("ID" = "ID")) by done.
  rewrite (bool_decide_eq_true_2 (d !! "ID" = None)) by done.
  unfold new_feature, getitem. rewrite Hf. simpl.
  eexists. split; [done|]. split; simpl.
  - by rewrite lookup_insert_ne.
  - exists (<[val := ∅]> features), val. rewrite !lookup_insert_eq.
    split; [done|]. split; [done|]. by eexists.
Qed.

Lemma set_attribute_entered type d a key v :
  type ≠ "ID" → entered type (d, a) →
  ∃ d', set_attribute d type a key v = Ok d' ∧ entered type (d', a).
Proof.
  intros Htype (HID & features & id & Hf & Ha & [attrs Hattrs]). simpl in *. subst a.
  unfold set_attribute, getitem. rewrite Hf. simpl. rewrite Hattrs. simpl.
  eexists. split; [done|]. split; simpl.
  - by rewrite lookup_insert_ne.
  - eexists _, id. rewrite !lookup_insert_eq. split; [done|]. split; [done|]. by eexists.
Qed.

Lemma parse_attribute_entered type s attribute :
  type ≠ "ID" → entered type s →
  length (split "="%char attribute) = 2%nat →
  ∃ s', parse_attribute type s attribute = Ok s' ∧ entered type s'.
Proof.
  intros Htype Hs Hlen. destruct s as [d a].
  destruct (split "="%char attribute) as [|identifier [|val [|]]] eqn:Hsplit; try done.
  destruct (decide (identifier = "ID")) as [->|Hne].
  - destruct Hs as (HID & features & id & Hf & _). simpl in *.
    apply (parse_attribute_declares type d a attribute val); [done|done|by rewrite Hf|done].
  - unfold parse_attribute. rewrite Hsplit.
    rewrite (bool_decide_eq_false_2 (identifier = "ID")) by done. simpl.
    rewrite (bool_decide_eq_true_2 (identifier ≠ "ID")) by done.
    destruct (set_attribute_entered type d a identifier (GStr val) Htype Hs) as (d' & -> & Hd').
    by eexists.
Qed.

Lemma int_is_ok s : is_ok (int s) = true → ∃ n, int s = Ok n.
Proof. destruct (int s); [by eexists|done]. Qed.

Lemma parse_line_returns reference d a line :
  well_formed_line reference line = true → d !! "ID" = None →
  ∃ d' a', parse_line reference (d, a) line = Ok (d', a') ∧ d' !! "ID" = None.
Proof.
  unfold well_formed_line, parse_line, index. intros Hwf HID.
  destruct (startswith line reference); simpl; [|exists d, a; by split].
  destruct (split Vcf.tab (strip line) !! 8%nat) as [attributes|] eqn:H8; [|done]. simpl.
  destruct (startswith attributes "ID=") eqn:Hstart; simpl; [|exists d, a; by split].
  apply andb_prop in Hwf as [Hwf Hstop]. apply andb_prop in Hwf as [Hwf Hstartpos].
  apply andb_prop in Hwf as [Htype Hattrs].
  assert (8 < length (split Vcf.tab (strip line)))%nat as Hlen by (by eapply lookup_lt_Some).
  destruct (lookup_lt_is_Some_2 (split Vcf.tab (strip line)) 2) as [type H2]; [lia|].
  destruct (lookup_lt_is_Some_2 (split Vcf.tab (strip line)) 3) as [f3 H3]; [lia|].
  destruct (lookup_lt_is_Some_2 (split Vcf.tab (strip line)) 4) as [f4 H4]; [lia|].
  destruct (lookup_lt_is_Some_2 (split Vcf.tab (strip line)) 6) as [f6 H6]; [lia|].
  rewrite H2, H3, H4, H6 in *. simpl in *.
  apply negb_true_iff, String.eqb_neq in Htype.
  set (d0 := match d !! type with None => <[type := ∅]> d | Some _ => d end).
  assert (d0 !! "ID" = None) as HID0.
  { unfold d0. destruct (d !! type); [done|]. by rewrite lookup_insert_ne. }
  assert (is_Some (d0 !! type)) as Htype0.
  { unfold d0. destruct (d !! type) eqn:Hd; [by rewrite Hd|].
    rewrite lookup_insert_eq. by eexists. }
  destruct (first_attribute_ID _ Hstart) as (w & ws & Hsplit & Hfirst).
  rewrite Hsplit in *. cbn [forallb] in Hattrs.
  apply andb_prop in Hattrs as [Hfirst2 Hrest].
  apply Nat.eqb_eq in Hfirst2.
  assert (∃ val, split "="%char (String "I" (String "D" (String "=" w))) = ["ID"; val])
    as [val Hval].
  { rewrite Hfirst in *. destruct (split "="%char w) as [|val [|]]; try done. by exists val. }
  cbn [for_each].
  destruct (parse_attribute_declares type d0 a _ val Htype HID0 Htype0 Hval)
    as (s1 & -> & Hs1). simpl.
  destruct (for_each_inv (parse_attribute type) (entered type) ws s1 Hs1) as (s2 & -> & Hs2).
  { intros s attribute Hin Hs. apply parse_attribute_entered; [done|done|].
    rewrite forallb_forall in Hrest. apply Nat.eqb_eq, Hrest. by apply list_elem_of_In. }
  simpl. destruct s2 as [d2 a2].
  destruct (int_is_ok _ Hstartpos) as [start ->]. simpl.
  destruct (set_attribute_entered type d2 a2 "start" (GInt start) Htype Hs2) as (d3 & -> & Hs3).
  simpl. destruct (int_is_ok _ Hstop) as [stop ->]. simpl.
  destruct (set_attribute_entered type d3 a2 "stop" (GInt stop) Htype Hs3) as (d4 & -> & Hs4).
  simpl.
  destruct (set_attribute_entered type d4 a2 "strand" (GStr f6) Htype Hs4) as (d5 & -> & Hs5).
  simpl. exists d5, a2. split; [done|]. by destruct Hs5.
Qed.

Lemma parse_gff3_returns file reference :
  forallb (well_formed_line reference) file = true →
  forallb (skips reference) file = false →
  ∃ gff3_dict, parse_gff3 file reference = Ok gff3_dict.
Proof.
  intros Hwf Hskips. unfold parse_gff3.
  destruct (for_each_inv (parse_line reference) (λ s, s.1 !! "ID" = None) file (∅, None))
    as ([d a] & Hrun & _); [done| |].
  { intros [d a] line Hin HID. simpl in HID.
    rewrite forallb_forall in Hwf.
    destruct (parse_line_returns reference d a line) as (d' & a' & -> & HID');
      [by apply Hwf, list_elem_of_In|done|].
    by exists (d', a'). }
  rewrite Hrun. simpl.
  destruct (decide (dom d = ∅)) as [Hdom|]; [|by eexists].
  apply for_each_parse_line_grows in Hrun as [_ Hall]. rewrite Hall in Hskips; done.
Qed.

(** *** Main theorems *)

(** C9 (amended).  [parse_gff3] ends with the reference-not-found exit
    exactly when every line is left aside, that is, when no line that
    starts with the reference id has a ninth field that starts with
    ["ID="]; and it returns an index whenever some line is not left aside
    and the lines of the reference are well formed. *)
Theorem parse_gff3_reference_not_found file reference :
  (parse_gff3 file reference = Raise (not_found reference)
   ↔ forallb (skips reference) file = true)
  ∧ (forallb (well_formed_line reference) file = true →
     forallb (skips reference) file = false →
     ∃ gff3_dict, parse_gff3 file reference = Ok gff3_dict).
Proof. split; [apply parse_gff3_not_found|apply parse_gff3_returns]. Qed.

(** *** Worked examples *)

(** [three_genes] is indexed; [parent_only] is not. *)
Lemma parse_gff3_reference_not_found_witness :
  forallb (well_formed_line "ref") three_genes = true
  ∧ forallb (skips "ref") three_genes = false
  ∧ (∃ gff3_dict, parse_gff3 three_genes "ref" = Ok gff3_dict)
  ∧ parse_gff3 parent_only "ref" = Raise (not_found "ref").
Proof.
  assert (forallb (well_formed_line "ref") three_genes = true) as Hwf
    by (vm_compute; reflexivity).
  assert (forallb (skips "ref") three_genes = false) as Hskip
    by (vm_compute; reflexivity).
  split; [exact Hwf|]. split; [exact Hskip|]. split.
  - exact (proj2 (parse_gff3_reference_not_found three_genes "ref") Hwf Hskip).
  - apply (proj1 (parse_gff3_reference_not_found parent_only "ref")).
    vm_compute; reflexivity.
Defined.

(** A file with a line of the reference, which has no [ID=], ends in the
    reference-not-found exit. *)
Lemma parse_gff3_exits_despite_matching_line :
  (∃ line, line ∈ parent_only ∧ List.hd "" (split Vcf.tab line) = "ref")
  ∧ parse_gff3 parent_only "ref" = Raise (not_found "ref").
Proof.
  split; [|vm_compute; reflexivity].
  eexists. split; [by left|]. vm_compute; reflexivity.
Qed.

End Gff.

(** ** Gene tracks: [create_track_dict] *)

Module Track.
Import Py Gff.

(** An element of [genes_with_mutations]: name, start, stop, strand. *)
Record gene : Type := Gene { name : gffval; start : Z; stop : Z; strand : gffval }.

#[export] Instance gene_eq_dec : EqDecision gene.
Proof. solve_decision. Defined.

(** [attributes[key]] where an [int] is needed ([range] refuses a [str]). *)
Definition get_int (attributes : gmap string gffval) (key : string) : result Z :=
  v ← getitem attributes key;
  match v with
  | GInt n => Ok n
  | GStr _ => Raise TypeError
  end.

(** The body of the loop over the annotations of one type, for the
    position [mutation]. *)
Definition visit_annotation (mutation : Z) (found : list gene)
    (entry : string * gmap string gffval) : result (list gene) :=
  let '(annotation, attributes) := entry in
  start ← get_int attributes "start";
  stop ← get_int attributes "stop";
  if (start <=? mutation) && (mutation <? stop) then
    let attribute_name :=
      match attributes !! "Name" with
      | Some v => v
      | None => GStr annotation
      end in
    strand ← getitem attributes "strand";
    Ok (found ++ [Gene attribute_name start stop strand])
  else Ok found.

(** The first loop: every tuple that is added to [genes_with_mutations], in
    the order of the additions. *)
Definition collect_genes (unique_mutations : list string)
    (gff3_info : gmap string (gmap string (gmap string gffval)))
    (annotation_type : list string) : result (list gene) :=
  for_each (λ found mutation,
      mutation ← Vcf.mutation_position mutation;
      for_each (λ found type,
          match gff3_info !! type with
          | None => Ok found
          | Some features => for_each (visit_annotation mutation) found (map_to_list features)
          end)
        found annotation_type)
    [] unique_mutations.

(** [d[k] = v] on a dict kept as an association list in insertion order. *)
Fixpoint dict_set {K V} `{EqDecision K} (d : list (K * V)) (k : K) (v : V) : list (K * V) :=
  match d with
  | [] => [(k, v)]
  | (k', v') :: d' => if decide (k' = k) then (k', v) :: d' else (k', v') :: dict_set d' k v
  end.

(** The order of the sort keys [(start, stop, strand)].  Strands are
    compared as Python compares [str]; an index built by [parse_gff3] holds
    no other kind of strand, and the order chosen here for the other kinds
    is never consulted on one. *)
Definition strand_leb (a b : gffval) : bool :=
  match a, b with
  | GStr s, GStr t => String.leb s t
  | GInt m, GInt n => m <=? n
  | GInt _, GStr _ => true
  | GStr _, GInt _ => false
  end.

Definition key_leb (a b : Z * Z * gffval) : bool :=
  let '(start_a, stop_a, strand_a) := a in
  let '(start_b, stop_b, strand_b) := b in
  if start_a <? start_b then true
  else if start_b <? start_a then false
  else if stop_a <? stop_b then true
  else if stop_b <? stop_a then false
  else strand_leb strand_a strand_b.

(** The [while] loop, read along [rest = track_stops[track:]]: it moves to
    the next track while the gene starts before the stop of the current
    one, and reports whether it ran past the last track, where the source
    appends a track and breaks. *)
Fixpoint find_track (gene_start : Z) (rest : list Z) (track : nat) : nat * bool :=
  match rest with
  | [] => (track, true)
  | track_stop :: rest' =>
      if gene_start <? track_stop then find_track gene_start rest' (S track)
      else (track, false)
  end.

(** The body of the loop over [gene_dict]: the track of the gene and the
    updated [track_stops]. *)
Definition place_gene (track_stops : list Z) (gene_start gene_stop : Z) : list Z * nat :=
  let '(track, appended) := find_track gene_start track_stops 0 in
  let track_stops := if appended : bool then track_stops ++ [0] else track_stops in
  (<[track := gene_stop]> track_stops, track).

(** The loop over [gene_dict]. *)
Fixpoint assign_tracks (track_stops : list Z) (genes : list (gffval * (Z * Z * gffval)))
  : list (gffval * (Z * Z * gffval * nat)) * list Z :=
  match genes with
  | [] => ([], track_stops)
  | (gene_name, (gene_start, gene_stop, gene_strand)) :: genes' =>
      let '(track_stops, track) := place_gene track_stops gene_start gene_stop in
      let '(placed, track_stops) := assign_tracks track_stops genes' in
      ((gene_name, (gene_start, gene_stop, gene_strand, track)) :: placed, track_stops)
  end.

(** [{element[0]: [element[1:4]] for element in genes_with_mutations}],
    continued from the dictionary [d]. *)
Definition gene_dict_of (genes_with_mutations : list gene)
    (d : list (gffval * (Z * Z * gffval))) : list (gffval * (Z * Z * gffval)) :=
  foldl (λ d element, dict_set d (name element)
                        (start element, stop element, strand element))
    d genes_with_mutations.

(** Everything after the first loop, for the set iterated in the order
    [genes_with_mutations]. *)
Definition layout_genes (genes_with_mutations : list gene)
  : list (gffval * (Z * Z * gffval * nat)) * nat * list Vcf.warning :=
  match genes_with_mutations with
  | [] => ([], 0%nat, [Vcf.NoGenesFound])
  | _ =>
      let gene_dict := gene_dict_of genes_with_mutations [] in
      let gene_dict := (sort_keyed key_leb ((λ item, (item.2, item)) <$> gene_dict)).*2 in
      let '(gene_dict, track_stops) := assign_tracks [0] gene_dict in
      (gene_dict, length track_stops, [])
  end.

Section WithSetOrder.

(** The order in which Python iterates over the set of tuples. *)
Variable set_iter : list gene → list gene.

(** [create_track_dict]: each entry of the dictionary is
    [name ↦ (start, stop, strand, track)]. *)
Definition create_track_dict (unique_mutations : list string)
    (gff3_info : gmap string (gmap string (gmap string gffval)))
    (annotation_type : list string)
  : result (list (gffval * (Z * Z * gffval * nat)) * nat * list Vcf.warning) :=
  found ← collect_genes unique_mutations gff3_info annotation_type;
  Ok (layout_genes (set_iter (distinct found))).

End WithSetOrder.

(** [greedy track_stops placed track_stops']: the genes of [placed], taken
    in order, each go to the first track whose last stop is at most the
    start of the gene, or to a new track when there is none. *)
Inductive greedy : list Z → list (gffval * (Z * Z * gffval * nat)) → list Z → Prop :=
  | greedy_done track_stops : greedy track_stops [] track_stops
  | greedy_reuse track_stops gene_name gene_start gene_stop gene_strand track last
      placed track_stops' :
      track_stops !! track = Some last →
      last ≤ gene_start →
      (∀ j earlier, (j < track)%nat → track_stops !! j = Some earlier → gene_start < earlier) →
      greedy (<[track := gene_stop]> track_stops) placed track_stops' →
      greedy track_stops
        ((gene_name, (gene_start, gene_stop, gene_strand, track)) :: placed) track_stops'
  | greedy_open track_stops gene_name gene_start gene_stop gene_strand placed track_stops' :
      Forall (λ earlier, gene_start < earlier) track_stops →
      greedy (track_stops ++ [gene_stop]) placed track_stops' →
      greedy track_stops
        ((gene_name, (gene_start, gene_stop, gene_strand, length track_stops)) :: placed)
        track_stops'.

(** Mutations inside each of the three genes. *)
Definition three_mutations : list string :=
  ["15_A_T_SNV"; "25_C_G_SNV"; "65_G_A_SNV"].

(** Two features that share the display name [orf] and differ in their
    coordinates, with a mutation in each. *)
Definition shared_name : list string :=
  [Vcf.tsv ["ref"; "src"; "gene"; "10"; "50"; "."; "+"; "."; "ID=gene-1;Name=orf"];
   Vcf.tsv ["ref"; "src"; "gene"; "60"; "80"; "."; "+"; "."; "ID=gene-2;Name=orf"]].

Definition two_mutations : list string := ["15_A_T_SNV"; "65_G_A_SNV"].

(** *** Facts about [create_track_dict] *)

Lemma find_track_spec gene_start rest : ∀ track t appended,
  find_track gene_start rest track = (t, appended) →
  if appended then
    t = (track + length rest)%nat ∧ Forall (λ earlier, gene_start < earlier) rest
  else
    (track ≤ t)%nat
    ∧ (∃ last, rest !! (t - track)%nat = Some last ∧ last ≤ gene_start)
    ∧ (∀ j earlier, (j < t - track)%nat → rest !! j = Some earlier → gene_start < earlier).
Proof.
  induction rest as [|track_stop rest IH]; intros track t appended; simpl.
  - intros [= <- <-]. split; [lia|constructor].
  - destruct (Z.ltb_spec gene_start track_stop) as [Hlt|Hge].
    + intros H. specialize (IH _ _ _ H). destruct appended.
      * destruct IH as [-> Hall]. split; [lia|by constructor].
      * destruct IH as (Hle & (last & Hlast & Hl) & Hbefore).
        split; [lia|]. replace (t - track)%nat with (S (t - S track)) by lia.
        split; [by exists last|].
        intros [|j] earlier Hj; simpl; [by intros [= <-]|].
        apply Hbefore. lia.
    + intros [= <- <-]. split; [lia|]. rewrite Nat.sub_diag. simpl.
      split; [by exists track_stop|]. intros j earlier Hj. lia.
Qed.

Lemma assign_tracks_greedy genes : ∀ track_stops placed track_stops',
  assign_tracks track_stops genes = (placed, track_stops') →
  greedy track_stops placed track_stops'
  ∧ (λ e : gffval * (Z * Z * gffval * nat), (e.1, e.2.1)) <$> placed = genes.
Proof.
  induction genes as [|[gene_name [[gene_start gene_stop] gene_strand]] genes IH];
    intros track_stops placed track_stops'; simpl.
  - intros [= <- <-]. split; [constructor|done].
  - unfold place_gene.
    destruct (find_track gene_start track_stops 0) as [track appended] eqn:Hfind.
    apply find_track_spec in Hfind.
    destruct (assign_tracks _ genes) as [placed' ts'] eqn:Hrest.
    intros [= <- <-]. apply IH in Hrest as [Hgreedy Hproj].
    split; [|by rewrite fmap_cons, Hproj].
    destruct appended.
    + destruct Hfind as [-> Hall]. simpl.
      rewrite insert_app_r_alt, Nat.sub_diag in Hgreedy by lia. simpl in Hgreedy.
      by apply greedy_open.
    + destruct Hfind as (_ & (last & Hlast & Hle) & Hbefore).
      rewrite Nat.sub_0_r in *.
      eapply greedy_reuse; [done|done| |done].
      intros j earlier Hj. by apply Hbefore.
Qed.

Lemma key_leb_true a b : key_leb a b = true → a.1.1 ≤ b.1.1.
Proof.
  destruct a as [[sa pa] da], b as [[sb pb] db]. simpl.
  destruct (Z.ltb_spec sa sb); [lia|]. destruct (Z.ltb_spec sb sa); [done|lia].
Qed.

Lemma key_leb_false a b : key_leb a b = false → b.1.1 ≤ a.1.1.
Proof.
  destruct a as [[sa pa] da], b as [[sb pb] db]. simpl.
  destruct (Z.ltb_spec sa sb); [done|]. lia.
Qed.

Lemma dict_set_keys {K V} `{EqDecision K} (d : list (K * V)) k v k' :
  k' ∈ (dict_set d k v).*1 ↔ k' = k ∨ k' ∈ d.*1.
Proof.
  induction d as [|[k0 v0] d IH]; simpl.
  - rewrite list_elem_of_singleton. split; [by left|]. intros [?|?%elem_of_nil]; done.
  - destruct (decide (k0 = k)) as [->|Hne]; simpl.
    + rewrite elem_of_cons. tauto.
    + rewrite !elem_of_cons, IH. tauto.
Qed.

Lemma dict_set_NoDup {K V} `{EqDecision K} (d : list (K * V)) k v :
  NoDup d.*1 → NoDup (dict_set d k v).*1.
Proof.
  induction d as [|[k0 v0] d IH]; simpl.
  - intros _. apply NoDup_singleton.
  - intros [Hk0 Hd]%NoDup_cons. destruct (decide (k0 = k)) as [->|Hne]; simpl.
    + by apply NoDup_cons.
    + apply NoDup_cons. split; [|by apply IH].
      rewrite dict_set_keys. intros [?|?]; done.
Qed.

Lemma dict_set_entries {K V} `{EqDecision K} (d : list (K * V)) k v p :
  p ∈ dict_set d k v → p = (k, v) ∨ p ∈ d.
Proof.
  induction d as [|[k0 v0] d IH]; simpl.
  - intros ->%list_elem_of_singleton. by left.
  - destruct (decide (k0 = k)) as [->|Hne].
    + intros [->|?]%elem_of_cons; [by left|right; by right].
    + intros [->|[->|?]%IH]%elem_of_cons; [right; by left|by left|right; by right].
Qed.

Lemma gene_dict_of_spec genes : ∀ d,
  NoDup d.*1 →
  NoDup (gene_dict_of genes d).*1
  ∧ (∀ k, k ∈ (gene_dict_of genes d).*1 ↔ k ∈ d.*1 ∨ ∃ g, g ∈ genes ∧ name g = k)
  ∧ (∀ k v, (k, v) ∈ gene_dict_of genes d →
       (k, v) ∈ d ∨ Gene k v.1.1 v.1.2 v.2 ∈ genes).
Proof.
  unfold gene_dict_of.
  induction genes as [|g genes IH]; intros d Hd; simpl.
  - split; [done|]. split; [|by left].
    intros k. split; [by left|]. intros [?|(g & ?%elem_of_nil & _)]; done.
  - destruct (IH (dict_set d (name g) (start g, stop g, strand g)))
      as (Hnd & Hkeys & Hentries); [by apply dict_set_NoDup|].
    split; [done|]. split.
    + intros k. rewrite Hkeys, dict_set_keys. split.
      * intros [[->|?]|(g' & Hg' & Hn)]; [right; exists g; split; [by left|done]|by left|].
        right. exists g'. split; [by right|done].
      * intros [?|(g' & [->|Hg']%elem_of_cons & Hn)]; [left; by right|left; by left|].
        right. by exists g'.
    + intros k v [[[= -> ->]|?]%dict_set_entries|?]%Hentries.
      * right. destruct g. by left.
      * by left.
      * right. by right.
Qed.

Lemma layout_genes_spec genes layout n printed :
  layout_genes genes = (layout, n, printed) →
  StronglySorted (λ a b : gffval * (Z * Z * gffval * nat), a.2.1.1.1 ≤ b.2.1.1.1) layout
  ∧ (match genes with
     | [] => layout = [] ∧ n = 0%nat ∧ printed = [Vcf.NoGenesFound]
     | _ => ∃ track_stops, greedy [0] layout track_stops ∧ n = length track_stops
                           ∧ printed = []
     end)
  ∧ NoDup layout.*1
  ∧ (∀ k, k ∈ layout.*1 ↔ ∃ g, g ∈ genes ∧ name g = k)
  ∧ (∀ k st sp sd t, (k, (st, sp, sd, t)) ∈ layout → Gene k st sp sd ∈ genes).
Proof.
  unfold layout_genes. destruct genes as [|g0 genes0] eqn:Hgenes.
  { intros [= <- <- <-]. split; [constructor|]. split; [done|]. split; [constructor|].
    split.
    - intros k. split; [by intros ?%elem_of_nil|]. intros (g & ?%elem_of_nil & _); done.
    - intros k st sp sd t ?%elem_of_nil; done. }
  assert (genes ≠ []) as Hne by (by rewrite Hgenes).
  rewrite <- Hgenes. clear Hgenes g0 genes0.
  destruct (gene_dict_of_spec genes []) as (Hnd & Hkeys & Hentries); [constructor|].
  set (keyed := (λ item : gffval * (Z * Z * gffval), (item.2, item)) <$> gene_dict_of genes []).
  set (sorted := (sort_keyed key_leb keyed).*2).
  assert (sorted ≡ₚ gene_dict_of genes []) as Hperm.
  { unfold sorted. rewrite sort_keyed_perm. unfold keyed.
    rewrite <- list_fmap_compose. by rewrite list_fmap_id. }
  assert (StronglySorted (λ a b : gffval * (Z * Z * gffval), a.2.1.1 ≤ b.2.1.1) sorted)
    as Hsorted.
  { unfold sorted.
    assert (Forall (λ p : (Z * Z * gffval) * (gffval * (Z * Z * gffval)), p.1 = p.2.2)
              (sort_keyed key_leb keyed)) as Hkey.
    { rewrite sort_keyed_perm. unfold keyed. apply Forall_fmap, Forall_true. done. }
    pose proof (sort_keyed_sorted_by key_leb (λ k : Z * Z * gffval, k.1.1) keyed
                  key_leb_true key_leb_false) as Hs.
    revert Hkey Hs. generalize (sort_keyed key_leb keyed). intros l Hkey Hs.
    induction Hs as [|p l _ IH Hp]; simpl; constructor.
    - apply IH. by apply Forall_cons_1 in Hkey as [_ ?].
    - apply Forall_cons_1 in Hkey as [Hp1 Hl]. apply Forall_fmap.
      rewrite Forall_forall in *. intros q Hq. simpl.
      rewrite <- Hp1, <- (Hl q Hq). by apply Hp. }
  destruct (assign_tracks [0] sorted) as [placed track_stops] eqn:Hassign.
  intros [= <- <- <-].
  apply assign_tracks_greedy in Hassign as [Hgreedy Hproj].
  assert (placed.*1 = sorted.*1) as Hnames.
  { rewrite <- Hproj, <- list_fmap_compose. done. }
  split.
  { rewrite <- Hproj in Hsorted. clear -Hsorted.
    induction placed as [|e placed IH]; [constructor|].
    rewrite fmap_cons in Hsorted. apply StronglySorted_inv in Hsorted as [Hs Hall].
    constructor; [by apply IH|].
    rewrite Forall_fmap in Hall. exact Hall. }
  split.
  { destruct genes; [done|by exists track_stops]. }
  split; [by rewrite Hnames, Hperm|].
  split.
  { intros k. rewrite Hnames, Hperm, Hkeys.
    split; [intros [?%elem_of_nil|?]; done|by right]. }
  intros k st sp sd t Hin.
  assert ((k, (st, sp, sd)) ∈ sorted) as Hin'.
  { rewrite <- Hproj. apply list_elem_of_fmap. by exists (k, (st, sp, sd, t)). }
  rewrite Hperm in Hin'. by apply Hentries in Hin' as [?%elem_of_nil|?].
Qed.

(** *** Main theorems *)

(** C5.  Whenever [create_track_dict] returns, the genes of the layout are
    in ascending start order and their tracks are those of the greedy
    assignment from the single track [[0]], whose final number of tracks is
    the count returned; and the genes [10,50], [20,40], [60,80] get the
    tracks 0, 1, 0 of 2 tracks, whatever the iteration order of the set. *)
Theorem create_track_dict_greedy :
  (∀ set_iter unique_mutations gff3_info annotation_type layout n printed,
     create_track_dict set_iter unique_mutations gff3_info annotation_type
     = Ok (layout, n, printed) →
     StronglySorted (λ a b : gffval * (Z * Z * gffval * nat), a.2.1.1.1 ≤ b.2.1.1.1) layout
     ∧ (layout = [] ∧ n = 0%nat
        ∨ ∃ track_stops, greedy [0] layout track_stops ∧ n = length track_stops))
  ∧ (∀ set_iter gff3_info,
       (∀ l, set_iter l ≡ₚ l) →
       parse_gff3 three_genes "ref" = Ok gff3_info →
       create_track_dict set_iter three_mutations gff3_info ["gene"]
       = Ok ([(GStr "a", (10, 50, GStr "+", 0%nat));
              (GStr "b", (20, 40, GStr "-", 1%nat));
              (GStr "gene-c", (60, 80, GStr "+", 0%nat))], 2%nat, [])).
Proof.
  split.
  - intros set_iter um gff types layout n printed.
    unfold create_track_dict. intros (found & _ & [= Hlayout])%bind_Ok.
    apply layout_genes_spec in Hlayout as (Hsorted & Hgreedy & _).
    split; [done|].
    destruct (set_iter (distinct found)); [left; tauto|right].
    destruct Hgreedy as (ts & ? & ? & _). by exists ts.
  - intros set_iter gff Hperm Hparse. unfold create_track_dict.
    assert (parse_gff3 three_genes "ref"
              ≫= (λ gff, distinct <$> collect_genes three_mutations gff ["gene"])
            = Ok [Gene (GStr "a") 10 50 (GStr "+"); Gene (GStr "b") 20 40 (GStr "-");
                  Gene (GStr "gene-c") 60 80 (GStr "+")]) as Hfound
      by (vm_compute; reflexivity).
    rewrite Hparse in Hfound. simpl in Hfound.
    destruct (collect_genes three_mutations gff ["gene"]) as [found|]; [|done].
    simpl in *. injection Hfound as Hfound. rewrite Hfound. f_equal.
    match goal with |- context [set_iter ?l] =>
      destruct (permutation_of_three _ _ _ _ (Hperm l)) as [->|[->|[->|[->|[->| ->]]]]]
    end; vm_compute; reflexivity.
Qed.

(** C10 (amended).  The candidates are collected as a set of
    (name, start, stop, strand) tuples, but the layout returned is a
    dictionary keyed by the display name: every name of a candidate is the
    key of exactly one entry, and every entry is one of the candidates with
    that name.  So two features with different names are separate
    entries, and features that share a name share one entry. *)
Theorem create_track_dict_keyed_by_name set_iter unique_mutations gff3_info annotation_type
    found layout n printed :
  (∀ l, set_iter l ≡ₚ l) →
  collect_genes unique_mutations gff3_info annotation_type = Ok found →
  create_track_dict set_iter unique_mutations gff3_info annotation_type
  = Ok (layout, n, printed) →
  NoDup layout.*1
  ∧ (∀ k, k ∈ layout.*1 ↔ ∃ g, g ∈ found ∧ name g = k)
  ∧ (∀ k st sp sd t, (k, (st, sp, sd, t)) ∈ layout → Gene k st sp sd ∈ found).
Proof.
  intros Hperm Hfound. unfold create_track_dict. rewrite Hfound. simpl.
  intros [= Hlayout]. apply layout_genes_spec in Hlayout as (_ & _ & Hnd & Hkeys & Hentries).
  assert (∀ g, g ∈ set_iter (distinct found) ↔ g ∈ found) as Hset.
  { intros g. rewrite Hperm. clear. induction found as [|x l IH]; simpl; [done|].
    rewrite !elem_of_cons, list_elem_of_filter, IH.
    destruct (decide (g = x)); tauto. }
  split; [done|]. split.
  - intros k. rewrite Hkeys. split; intros (g & Hg & Hn); exists g; by rewrite Hset in *.
  - intros k st sp sd t Hin. apply Hset. by eapply Hentries.
Qed.

(** *** Worked examples *)

(** The three genes, with the set iterated in insertion order. *)
Lemma create_track_dict_greedy_witness :
  ∃ gff3_info,
    parse_gff3 three_genes "ref" = Ok gff3_info
    ∧ create_track_dict id three_mutations gff3_info ["gene"]
      = Ok ([(GStr "a", (10, 50, GStr "+", 0%nat));
             (GStr "b", (20, 40, GStr "-", 1%nat));
             (GStr "gene-c", (60, 80, GStr "+", 0%nat))], 2%nat, []).
Proof.
  assert (is_ok (parse_gff3 three_genes "ref") = true) as Hok by (vm_compute; reflexivity).
  destruct (parse_gff3 three_genes "ref") as [gff|e] eqn:E; [|done].
  exists gff. split; [reflexivity|].
  exact (proj2 create_track_dict_greedy id gff (λ l, reflexivity _) E).
Defined.

(** The layout of [shared_name] has one key per name found. *)
Lemma create_track_dict_keyed_by_name_witness :
  ∃ gff3_info found layout n printed,
    parse_gff3 shared_name "ref" = Ok gff3_info
    ∧ collect_genes two_mutations gff3_info ["gene"] = Ok found
    ∧ create_track_dict id two_mutations gff3_info ["gene"] = Ok (layout, n, printed)
    ∧ NoDup layout.*1
    ∧ (∀ k, k ∈ layout.*1 ↔ ∃ g, g ∈ found ∧ name g = k).
Proof.
  assert (is_ok (parse_gff3 shared_name "ref"
                   ≫= λ gff, collect_genes two_mutations gff ["gene"]) = true) as Hok
    by (vm_compute; reflexivity).
  destruct (parse_gff3 shared_name "ref") as [gff|e] eqn:E; [|done]. simpl in Hok.
  destruct (collect_genes two_mutations gff ["gene"]) as [found|e] eqn:Hfound; [|done].
  destruct (create_track_dict id two_mutations gff ["gene"]) as [[[layout n] printed]|e]
    eqn:Hrun.
  2: { unfold create_track_dict in Hrun. rewrite Hfound in Hrun. done. }
  exists gff, found, layout, n, printed.
  split; [reflexivity|]. split; [exact Hfound|]. split; [exact Hrun|].
  destruct (create_track_dict_keyed_by_name id two_mutations gff ["gene"] found layout n
              printed (λ l, reflexivity _) Hfound Hrun) as (H1 & H2 & _).
  by split.
Defined.

(** Two features that share the name [orf] and differ in start and stop
    are two elements of the set and one entry of the layout; which of the
    two it holds depends on the iteration order of the set. *)
Lemma create_track_dict_merges_shared_name :
  ∃ gff3_info,
    parse_gff3 shared_name "ref" = Ok gff3_info
    ∧ collect_genes two_mutations gff3_info ["gene"]
      = Ok [Gene (GStr "orf") 10 50 (GStr "+"); Gene (GStr "orf") 60 80 (GStr "+")]
    ∧ create_track_dict id two_mutations gff3_info ["gene"]
      = Ok ([(GStr "orf", (60, 80, GStr "+", 0%nat))], 1%nat, [])
    ∧ create_track_dict reverse two_mutations gff3_info ["gene"]
      = Ok ([(GStr "orf", (10, 50, GStr "+", 0%nat))], 1%nat, []).
Proof.
  assert (parse_gff3 shared_name "ref"
            ≫= (λ gff, Ok (collect_genes two_mutations gff ["gene"],
                           create_track_dict id two_mutations gff ["gene"],
                           create_track_dict reverse two_mutations gff ["gene"]))
          = Ok (Ok [Gene (GStr "orf") 10 50 (GStr "+"); Gene (GStr "orf") 60 80 (GStr "+")],
                Ok ([(GStr "orf", (60, 80, GStr "+", 0%nat))], 1%nat, []),
                Ok ([(GStr "orf", (10, 50, GStr "+", 0%nat))], 1%nat, []))) as H
    by (vm_compute; reflexivity).
  destruct (parse_gff3 shared_name "ref") as [gff|e]; [|done].
  simpl in H. injection H as H1 H2 H3. by exists gff.
Qed.

End Track.

(** ** Sort keys of file names: [get_digit_and_alpha] *)

Module Names.
Import Py.

(** The second component of the key: an [int], or [float('inf')]. *)
Inductive sort_number : Type :=
  | Finite (n : Z)
  | Infinity.

(** The longest prefix of decimal digits. *)
Fixpoint leading_digits (s : string) : string :=
  match s with
  | String c s' => if is_digit c then String c (leading_digits s') else ""
  | EmptyString => ""
  end.

(** [re.search(r'\d+', s)]: the leftmost longest run of digits, or no
    match. *)
Fixpoint search_digits (s : string) : option string :=
  match s with
  | EmptyString => None
  | String c s' => if is_digit c then Some (leading_digits s) else search_digits s'
  end.

(** [re.sub(r'\d+', '', s)]: every digit is removed. *)
Fixpoint remove_digits (s : string) : string :=
  match s with
  | EmptyString => ""
  | String c s' => if is_digit c then remove_digits s' else String c (remove_digits s')
  end.

(** [get_digit_and_alpha]. *)
Definition get_digit_and_alpha (filename : string) : result (string * sort_number) :=
  let '(digit, alpha) :=
    match search_digits filename with
    | Some digit_match => (digit_match, remove_digits filename)
    | None => ("", filename)
    end in
  match digit with
  | EmptyString => Ok (alpha, Infinity)
  | _ => n ← int digit; Ok (alpha, Finite n)
  end.

(** Whether a digit occurs in the string. *)
Fixpoint has_digit (s : string) : bool :=
  match s with
  | EmptyString => false
  | String c s' => is_digit c || has_digit s'
  end.

(** Whether the string begins with a digit. *)
Definition starts_with_digit (s : string) : bool :=
  match s with
  | String c _ => is_digit c
  | EmptyString => false
  end.

(** *** Facts about the sort key *)

Lemma leading_digits_decimal c s :
  is_digit c = true → isdecimal (leading_digits (String c s)) = true.
Proof.
  intros Hc. simpl. rewrite Hc. simpl. rewrite Hc. simpl.
  induction s as [|c' s IH]; simpl; [done|].
  destruct (is_digit c') eqn:E; simpl; [by rewrite E|done].
Qed.

Lemma search_digits_decimal s digit :
  search_digits s = Some digit → isdecimal digit = true.
Proof.
  induction s as [|c s IH]; simpl; [done|].
  destruct (is_digit c) eqn:E; [|done].
  intros [= <-]. pose proof (leading_digits_decimal c s E) as H. simpl in H.
  by rewrite E in H.
Qed.

Lemma search_digits_none s : search_digits s = None ↔ has_digit s = false.
Proof.
  induction s as [|c s IH]; simpl; [done|].
  destruct (is_digit c); simpl; [split; discriminate|done].
Qed.

Lemma remove_digits_none s : has_digit s = false → remove_digits s = s.
Proof.
  induction s as [|c s IH]; simpl; [done|].
  intros H. apply orb_false_iff in H as [-> Hs]. by rewrite (IH Hs).
Qed.

Lemma remove_digits_clean s : has_digit (remove_digits s) = false.
Proof.
  induction s as [|c s IH]; simpl; [done|].
  destruct (is_digit c) eqn:E; simpl; [done|]. by rewrite E.
Qed.

Lemma leading_digits_app d q :
  all_digits d = true → starts_with_digit q = false →
  leading_digits (d +:+ q) = d.
Proof.
  intros Hd Hq. induction d as [|c d IH]; simpl in *.
  - destruct q as [|c q]; [done|]. simpl in *. by rewrite Hq.
  - apply andb_true_iff in Hd as [-> Hd]. by rewrite (IH Hd).
Qed.

Lemma search_digits_app p d q :
  has_digit p = false → isdecimal d = true → starts_with_digit q = false →
  search_digits (p +:+ d +:+ q) = Some d.
Proof.
  intros Hp Hd Hq. induction p as [|c p IH]; simpl in *.
  - unfold isdecimal in Hd. destruct d as [|c d]; [done|].
    pose proof (leading_digits_app (String c d) q Hd Hq) as H.
    simpl in *. apply andb_true_iff in Hd as [Hc Hd]. rewrite Hc in *. by rewrite H.
  - apply orb_false_iff in Hp as [-> Hp]. by apply IH.
Qed.

Lemma remove_digits_app p d q :
  has_digit p = false → all_digits d = true →
  remove_digits (p +:+ d +:+ q) = p +:+ remove_digits q.
Proof.
  intros Hp Hd. induction p as [|c p IH]; simpl in *.
  - induction d as [|c d IH]; simpl in *; [done|].
    apply andb_true_iff in Hd as [-> Hd]. by apply IH.
  - apply orb_false_iff in Hp as [-> Hp]. by rewrite (IH Hp).
Qed.

(** *** Main theorems *)

(** X1.  The key [get_digit_and_alpha] computes.  A name without a digit
    is its own first component and has [inf] as the second.  Otherwise the
    first component is the name without its digits and the second is the
    value of the first run of digits; a run of more digits than [int]
    converts makes the call raise [ValueError], and that is the only way it
    raises. *)
Theorem get_digit_and_alpha_key filename :
  has_digit (remove_digits filename) = false
  ∧ match search_digits filename with
    | None =>
        has_digit filename = false ∧ remove_digits filename = filename
        ∧ get_digit_and_alpha filename = Ok (filename, Infinity)
    | Some digit =>
        has_digit filename = true ∧ isdecimal digit = true
        ∧ get_digit_and_alpha filename
          = if int_max_str_digits <? Z.of_nat (String.length digit)
            then Raise ValueError
            else Ok (remove_digits filename, Finite (digits_value 0 digit))
    end.
Proof.
  split; [apply remove_digits_clean|].
  unfold get_digit_and_alpha.
  destruct (search_digits filename) as [digit|] eqn:E.
  - pose proof (search_digits_decimal _ _ E) as Hd.
    rewrite (Digits.int_digits _ Hd).
    split; [|split; [done|]].
    + destruct (has_digit filename) eqn:Hf; [done|].
      apply search_digits_none in Hf. congruence.
    + destruct digit as [|c digit]; [done|]. by destruct (_ <? _).
  - apply search_digits_none in E.
    split; [done|]. split; [by apply remove_digits_none|done].
Qed.

(** X2.  Natural order of numbered names: for a name made of a prefix
    without digits, the decimal numeral of [n >= 0] and a rest that does
    not begin with a digit, the key is the prefix followed by the rest
    without its digits, and the number [n] itself, as long as the numeral
    has no more digits than [int] converts. *)
Theorem get_digit_and_alpha_numbered p n q :
  has_digit p = false → 0 ≤ n → starts_with_digit q = false →
  Z.of_nat (String.length (str_of_int n)) ≤ int_max_str_digits →
  get_digit_and_alpha (p +:+ str_of_int n +:+ q)
  = Ok (p +:+ remove_digits q, Finite n).
Proof.
  intros Hp Hn Hq Hlen. destruct (Digits.str_of_int_digits n Hn) as [Hd Hv].
  unfold get_digit_and_alpha.
  rewrite (search_digits_app p _ q Hp Hd Hq).
  rewrite remove_digits_app; [|done|].
  - rewrite (Digits.int_digits _ Hd), Hv.
    apply Z.ltb_ge in Hlen. rewrite Hlen. simpl.
    by destruct (str_of_int n).
  - unfold isdecimal in Hd. by destruct (str_of_int n).
Qed.

(** *** Worked examples *)

Lemma get_digit_and_alpha_numbered_witness :
  get_digit_and_alpha "sample10_rep2" = Ok ("sample_rep", Finite 10)
  ∧ get_digit_and_alpha "sample2_rep2" = Ok ("sample_rep", Finite 2).
Proof.
  split.
  - apply (get_digit_and_alpha_numbered "sample" 10 "_rep2");
      [reflexivity|lia|reflexivity|vm_compute; discriminate].
  - apply (get_digit_and_alpha_numbered "sample" 2 "_rep2");
      [reflexivity|lia|reflexivity|vm_compute; discriminate].
Defined.

(** A name with a run of 4301 digits has no key. *)
Example get_digit_and_alpha_long_run :
  get_digit_and_alpha ("sample" +:+ Digits.ones 4301 +:+ ".vcf") = Raise ValueError
  ∧ is_ok (get_digit_and_alpha ("sample" +:+ Digits.ones 4300 +:+ ".vcf")) = true.
Proof. split; vm_compute; reflexivity. Qed.

End Names.

(** ** From variants to the frequency table: [extract_vcf_data],
    [create_freq_array], [extract_scores], [zoom_to_genomic_regions] *)

Module Table.
Import Py Vcf.

(** The row of one sample in [create_freq_array]: for every mutation the
    frequency of the first tuple of [frequency_list] with that id, and [0]
    when there is none. *)
Definition frequencies_of (unique_mutations : list string)
    (frequency_list : list (string * pyval)) : list pyval :=
  (λ mutation,
     match filter (λ tup, tup.1 = mutation) frequency_list with
     | tup :: _ => tup.2
     | [] => PInt 0
     end) <$> unique_mutations.

(** [create_freq_array]; [np_array] is [np.array] on the nested list. *)
Definition create_freq_array {ndarray : Type} (np_array : list (list pyval) → ndarray)
    (unique_mutations : list string) (frequency_lists : list (list (string * pyval)))
  : ndarray :=
  np_array (frequencies_of unique_mutations <$> frequency_lists).

(** Whether a key of a dictionary is equal to the [str] [k]: only a [str]
    is equal to a [str]. *)
Definition is_str (k : string) (key : pyval) : bool :=
  match key with
  | PStr s => String.eqb s k
  | _ => false
  end.

(** [k in mutation_scores] and [mutation_scores[k]] for a [str] key [k],
    where [mutation_scores] is kept as the list of the assignments made to
    it, oldest first: the last assignment to a key equal to [k] holds the
    value. *)
Definition lookup_str (mutation_scores : list (pyval * pyval)) (k : string) : option pyval :=
  match filter (λ entry, is_str k entry.1 = true) (reverse mutation_scores) with
  | entry :: _ => Some entry.2
  | [] => None
  end.

(** [start_stop[0] <= int(mutation.split("_")[0]) <= start_stop[1]] holds. *)
Definition in_range (lower upper : Z) (mutation : string) : bool :=
  match mutation_position mutation with
  | Ok pos => (lower <=? pos) && (pos <=? upper)
  | Raise _ => false
  end.

(** The body of the loop of [zoom_to_genomic_regions]: the chained
    comparison evaluates [start_stop[0]], then the position, and
    [start_stop[1]] only when the first comparison holds. *)
Definition zoom_mutation (start_stop : list Z) (zoomed_unique : list string)
    (mutation : string) : result (list string) :=
  lower ← index start_stop 0;
  pos ← mutation_position mutation;
  if lower <=? pos then
    upper ← index start_stop 1;
    Ok (if pos <=? upper then zoomed_unique ++ [mutation] else zoomed_unique)
  else Ok zoomed_unique.

(** [zoom_to_genomic_regions]. *)
Definition zoom_to_genomic_regions (unique_mutations : list string) (start_stop : list Z)
  : result (list string) :=
  for_each (zoom_mutation start_stop) [] unique_mutations.

(** A file with a [#CHROM] header among whose first six names is
    ["#CHROM"], and without a line for the reference. *)
Definition no_variants (reference : string) (vcf_file : text_file) : Prop :=
  selected_lines vcf_file reference = []
  ∧ ∃ header rest, selected_lines vcf_file "#CHROM" = header :: rest
                   ∧ "#CHROM" ∈ take 6 header.

Section WithFloat.

(** [str(x)] on a float, as in [Vcf]. *)
Variable float_repr : float → string.

(** [extract_scores]: [scores_df] is the list of the rows that [iterrows]
    yields, each row mapping the column names to its cells.  The right-hand
    side [row[score_col]] is evaluated before the key [row[aa_pos_col]].
    The cells are numpy scalars and text, which the f-string formats as
    [str] gives them, whatever their size. *)
Definition extract_scores (unique_mutations : list string)
    (scores_df : list (gmap string pyval)) (aa_pos_col score_col : string)
  : result (list string) :=
  mutation_scores ←
    for_each (λ mutation_scores row,
        score ← getitem row score_col;
        key ← getitem row aa_pos_col;
        Ok (mutation_scores ++ [(key, score)]))
      [] scores_df;
  for_each (λ unique_scores mutation,
      aa_mut ← index (split "_"%char mutation) 4;
      match lookup_str mutation_scores aa_mut with
      | Some score => Ok (unique_scores ++ [mutation +:+ "_" +:+ str float_repr score])
      | None => Ok (unique_scores ++ [mutation +:+ "_nan"])
      end)
    [] unique_mutations.

(** The text [extract_scores] appends to an id: the score, formatted, of
    the last row whose key is the amino-acid change, or [nan]. *)
Definition score_text (mutation_scores : list (pyval * pyval)) (aa_mut : string) : string :=
  match lookup_str mutation_scores aa_mut with
  | Some score => str float_repr score
  | None => "nan"
  end.

End WithFloat.

(** A file with its header and a single line of another reference. *)
Definition sample_other : text_file :=
  {| stem := "sample_f";
     lines := [vcf_header;
               tsv ["other"; "7"; "."; "G"; "C"; "50"; "PASS"; "AF=1"]] |}.

(** The mutations of [sample_a] and [sample_b], in position order. *)
Definition sorted_ids : list string :=
  ["9_AT_A_DEL"; "10_A_GA_INS"; "10_A_T_SNV"; "100_A_T_SNV"].

(** A table of scores in which the change [D614G] is listed twice, and
    three ids that end in an amino-acid field. *)
Definition scores_table : list (gmap string pyval) :=
  [ {[ "aa" := PStr "D614G"; "score" := PInt 1 ]};
    {[ "aa" := PStr "N501Y"; "score" := PInt 5 ]};
    {[ "aa" := PStr "D614G"; "score" := PInt 2 ]} ].

Definition scored_ids : list string :=
  ["23063_A_T_SNV_N501Y"; "23403_A_G_SNV_D614G"; "241_C_T_SNV_-"].

(** *** Facts about the table functions *)

Tactic Notation "bind_inv" hyp(H) "as" ident(a) ident(Ha) :=
  apply bind_Ok in H as (a & Ha & H).

Lemma index_Ok {A} (l : list A) i x : index l i = Ok x ↔ l !! i = Some x.
Proof. unfold index. destruct (l !! i); split; congruence. Qed.

Lemma getitem_Ok {V} (d : gmap string V) k v : getitem d k = Ok v ↔ d !! k = Some v.
Proof. unfold getitem. destruct (d !! k); split; congruence. Qed.

Lemma cell_Ok (d : gmap string (list pyval)) key idx v :
  (l ← getitem d key; index l idx) = Ok v ↔ (d !! key ≫= (.!! idx)) = Some v.
Proof.
  rewrite bind_Ok. split.
  - intros (l & Hl & Hv). apply getitem_Ok in Hl. apply index_Ok in Hv.
    by rewrite Hl.
  - intros H. destruct (d !! key) as [l|] eqn:E; [|done].
    exists l. by rewrite getitem_Ok, index_Ok.
Qed.

Lemma elem_of_distinct `{EqDecision A} (l : list A) x : x ∈ distinct l ↔ x ∈ l.
Proof.
  induction l as [|y l IH]; simpl; [done|].
  rewrite !elem_of_cons, list_elem_of_filter, IH.
  destruct (decide (x = y)); tauto.
Qed.

Lemma NoDup_distinct `{EqDecision A} (l : list A) : NoDup (distinct l).
Proof.
  induction l as [|y l IH]; simpl; [constructor|].
  constructor.
  - rewrite list_elem_of_filter. tauto.
  - by apply NoDup_filter.
Qed.

Section Facts.

(** The parameters of [Vcf]: [float(s)], [str(x)] on a float, and the
    order in which a set of ids is iterated. *)
Variable float_of_string : string → float.

Variable float_repr : float → string.

Variable set_iter : list string → list string.

(** A value that is formatted gives its text. *)
Lemma format_value_Ok v text :
  format_value float_repr v = Ok text → text = str float_repr v.
Proof.
  destruct v as [n| | |]; simpl; try congruence.
  unfold str_int. destruct (_ <? _); congruence.
Qed.

Lemma formatted_cell_Ok (d : gmap string (list pyval)) key idx text :
  (l ← getitem d key; v ← index l idx; format_value float_repr v) = Ok text →
  ∃ v, (d !! key ≫= (.!! idx)) = Some v
    ∧ format_value float_repr v = Ok (str float_repr v)
    ∧ text = str float_repr v.
Proof.
  intros H. bind_inv H as l Hl. bind_inv H as v Hv.
  apply getitem_Ok in Hl. apply index_Ok in Hv.
  exists v. rewrite Hl. simpl. split; [done|].
  pose proof (format_value_Ok _ _ H) as ->. by split.
Qed.

Lemma frequency_entry_spec vcf_dict threshold scores frequency_list idx frequency_list' :
  frequency_entry float_repr vcf_dict threshold scores frequency_list idx
  = Ok frequency_list' →
  frequency_list' = frequency_list
  ∨ ∃ pos ref alt mut_type suffix af,
      frequency_list' = frequency_list ++
        [(str float_repr pos +:+ "_" +:+ str float_repr ref +:+ "_" +:+ str float_repr alt
          +:+ "_" +:+ str float_repr mut_type +:+ suffix, af)]
      ∧ ge_threshold af threshold = Ok true
      ∧ (vcf_dict !! "POS" ≫= (.!! idx)) = Some pos
      ∧ (vcf_dict !! "AF" ≫= (.!! idx)) = Some af
      ∧ format_value float_repr pos = Ok (str float_repr pos).
Proof.
  unfold frequency_entry. intros H.
  bind_inv H as af Haf. bind_inv H as keep Hkeep.
  destruct keep; simpl in H; [|left; congruence].
  bind_inv H as suffix Hsuffix. bind_inv H as pos Hpos. bind_inv H as ref Href.
  bind_inv H as alt Halt. bind_inv H as mut_type Hmut. bind_inv H as af' Haf'.
  injection H as <-. right.
  apply cell_Ok in Haf, Haf'.
  apply formatted_cell_Ok in Hpos as (vpos & Hpos & Hfpos & ->).
  apply formatted_cell_Ok in Href as (vref & _ & _ & ->).
  apply formatted_cell_Ok in Halt as (valt & _ & _ & ->).
  apply formatted_cell_Ok in Hmut as (vmut & _ & _ & ->).
  assert (af' = af) as -> by congruence.
  by exists vpos, vref, valt, vmut, suffix, af.
Qed.

(** The frequencies of one sample all passed the threshold. *)
Lemma frequency_list_threshold vcf_dict threshold scores idxs : ∀ frequency_list frequency_list',
  for_each (frequency_entry float_repr vcf_dict threshold scores) frequency_list idxs
  = Ok frequency_list' →
  Forall (λ tup, ge_threshold tup.2 threshold = Ok true) frequency_list →
  Forall (λ tup, ge_threshold tup.2 threshold = Ok true) frequency_list'.
Proof.
  induction idxs as [|idx idxs IH]; simpl; intros fl fl' H Hfl.
  - by injection H as <-.
  - bind_inv H as fl1 Hfl1. apply (IH _ _ H).
    apply frequency_entry_spec in Hfl1 as [->|(pos & ref & alt & mt & sf & af & -> & Hge & _)];
      [done|].
    apply Forall_app. split; [done|]. by constructor.
Qed.

(** The loop over the files: one name and one frequency list per file. *)
Lemma extract_loop reference threshold scores vcf_files :
  ∀ file_names frequency_lists printed file_names' frequency_lists' printed',
  for_each (λ '(file_names, frequency_lists, printed) file,
      let file_names := file_names ++ [stem file] in
      '(vcf_dict, w) ← read_vcf float_of_string file reference;
      chrom ← getitem vcf_dict "#CHROM";
      frequency_list ← for_each (frequency_entry float_repr vcf_dict threshold scores)
                         [] (seq 0 (length chrom));
      Ok (file_names, frequency_lists ++ [frequency_list], printed ++ w))
    (file_names, frequency_lists, printed) vcf_files
  = Ok (file_names', frequency_lists', printed') →
  file_names' = file_names ++ (stem <$> vcf_files)
  ∧ ∃ new, frequency_lists' = frequency_lists ++ new
           ∧ length new = length vcf_files
           ∧ Forall (Forall (λ tup, ge_threshold tup.2 threshold = Ok true)) new.
Proof.
  induction vcf_files as [|file vcf_files IH]; intros names lists printed names' lists' printed' H.
  - simpl in H. injection H as <- <- <-. rewrite app_nil_r.
    split; [done|]. exists []. by rewrite app_nil_r.
  - cbn [for_each] in H. bind_inv H as s Hs.
    destruct s as [[names1 lists1] printed1].
    bind_inv Hs as r Hr. destruct r as [vcf_dict w].
    bind_inv Hs as chrom Hchrom. bind_inv Hs as frequency_list Hfl.
    injection Hs as <- <- <-.
    apply IH in H as (-> & new & -> & Hlen & Hall).
    split; [by rewrite <- app_assoc|].
    exists (frequency_list :: new). split; [by rewrite <- app_assoc|].
    split; [simpl; lia|]. constructor; [|done].
    by eapply frequency_list_threshold.
Qed.

(** A file without variants contributes an empty list and a warning. *)
Lemma read_vcf_no_variants reference vcf_file :
  no_variants reference vcf_file →
  ∃ vcf_dict, read_vcf float_of_string vcf_file reference
              = Ok (vcf_dict, [NoVariants (stem vcf_file) reference])
              ∧ vcf_dict !! "#CHROM" = Some [].
Proof.
  intros (Hlines & header & rest & Hheader & Hchrom).
  unfold read_vcf. rewrite Hheader, Hlines. simpl. eexists. split; [done|].
  destruct (initial_columns (take 6 header)) as [Hempty Hkeys].
  destruct (Hkeys "#CHROM") as [l Hl].
  { apply elem_of_app. by left. }
  rewrite Hl. f_equal. by eapply Hempty.
Qed.

Lemma extract_loop_no_variants reference threshold scores vcf_files :
  Forall (no_variants reference) vcf_files →
  ∀ file_names frequency_lists printed,
  for_each (λ '(file_names, frequency_lists, printed) file,
      let file_names := file_names ++ [stem file] in
      '(vcf_dict, w) ← read_vcf float_of_string file reference;
      chrom ← getitem vcf_dict "#CHROM";
      frequency_list ← for_each (frequency_entry float_repr vcf_dict threshold scores)
                         [] (seq 0 (length chrom));
      Ok (file_names, frequency_lists ++ [frequency_list], printed ++ w))
    (file_names, frequency_lists, printed) vcf_files
  = Ok (file_names ++ (stem <$> vcf_files),
        frequency_lists ++ replicate (length vcf_files) [],
        printed ++ ((λ file, NoVariants (stem file) reference) <$> vcf_files)).
Proof.
  induction 1 as [|file vcf_files Hfile _ IH]; intros names lists printed.
  - simpl. by rewrite !app_nil_r.
  - cbn [for_each].
    destruct (read_vcf_no_variants reference file Hfile) as (vcf_dict & -> & Hchrom).
    simpl. unfold getitem. rewrite Hchrom. simpl.
    rewrite IH. by rewrite <- !app_assoc.
Qed.

Lemma elem_of_concat {A} (x : A) (ls : list (list A)) :
  x ∈ concat ls ↔ ∃ l, x ∈ l ∧ l ∈ ls.
Proof.
  induction ls as [|l ls IH]; simpl.
  - split; [by intros ?%elem_of_nil|]. by intros (l & _ & ?%elem_of_nil).
  - rewrite elem_of_app, IH. split.
    + intros [H|(l' & H1 & H2)]; [exists l; split; [done|left]|].
      exists l'. split; [done|by right].
    + intros (l' & H1 & H2). apply elem_of_cons in H2 as [->|H2]; [by left|].
      right. by exists l'.
Qed.

Lemma concat_replicate_nil {A B} (f : list A → list B) n :
  f [] = [] → concat (f <$> replicate n []) = [].
Proof.
  intros Hf. induction n as [|n IH]; [done|].
  cbn [replicate]. rewrite fmap_cons. cbn [concat]. by rewrite Hf, IH.
Qed.

Lemma remove_all_without c s : contains c s = false → remove_all c s = s.
Proof.
  induction s as [|a s IH]; simpl; [done|]. intros H.
  apply orb_false_iff in H as [-> Hs]. by rewrite (IH Hs).
Qed.

Lemma remove_first_without c s : contains c s = false → remove_first c s = s.
Proof.
  induction s as [|a s IH]; simpl; [done|]. intros H.
  apply orb_false_iff in H as [-> Hs]. by rewrite (IH Hs).
Qed.

Lemma contains_remove_all c d s :
  c ≠ d → contains c (remove_all d s) = contains c s.
Proof.
  intros Hcd. induction s as [|a s IH]; simpl; [done|].
  destruct (Ascii.eqb a d) eqn:E; simpl; [|by rewrite IH].
  apply Ascii.eqb_eq in E as ->.
  destruct (Ascii.eqb d c) eqn:E'; [|done].
  apply Ascii.eqb_eq in E'. congruence.
Qed.

Lemma contains_remove_first c d s :
  c ≠ d → contains c (remove_first d s) = contains c s.
Proof.
  intros Hcd. induction s as [|a s IH]; simpl; [done|].
  destruct (Ascii.eqb a d) eqn:E; simpl; [|by rewrite IH].
  apply Ascii.eqb_eq in E as ->.
  destruct (Ascii.eqb d c) eqn:E'; [|done].
  apply Ascii.eqb_eq in E'. congruence.
Qed.

Lemma contains_not_decimal c s :
  contains c s = true → is_digit c = false → isdecimal s = false.
Proof.
  intros Hc Hd. destruct (isdecimal s) eqn:E; [|done].
  assert (all_digits s = true) as Hs by (unfold isdecimal in E; by destruct s).
  by rewrite (Digits.all_digits_contains c s Hd Hs) in Hc.
Qed.

(** The numeral of an integer holds digits and at most a leading sign. *)
Lemma str_of_int_without c n :
  is_digit c = false → c ≠ "-"%char → contains c (str_of_int n) = false.
Proof.
  intros Hc Hm.
  assert (∀ p, contains c (str_of_int (Z.pos p)) = false) as Hpos.
  { intros p. destruct (Digits.str_of_int_digits (Z.pos p)) as [Hd _]; [lia|].
    apply Digits.all_digits_contains; [done|].
    unfold isdecimal in Hd. by destruct (str_of_int (Z.pos p)). }
  destruct n as [|p|p]; [|apply Hpos|].
  - change (str_of_int 0) with "0". cbn [contains].
    destruct (Ascii.eqb "0" c) eqn:E; [|done].
    apply Ascii.eqb_eq in E as <-. by vm_compute in Hc.
  - change (str_of_int (Z.neg p)) with (String "-" (str_of_int (Z.pos p))).
    cbn [contains]. rewrite Hpos.
    destruct (Ascii.eqb "-" c) eqn:E; [|done].
    apply Ascii.eqb_eq in E. congruence.
Qed.

(** The first element that passes a filter. *)
Lemma filter_first {A} (P : A → Prop) `{∀ x, Decision (P x)} (l : list A) :
  match filter P l with
  | [] => Forall (λ x, ¬ P x) l
  | x :: _ => ∃ l1 l2, l = l1 ++ x :: l2 ∧ P x ∧ Forall (λ y, ¬ P y) l1
  end.
Proof.
  induction l as [|a l IH]; [by rewrite filter_nil|].
  rewrite filter_cons. destruct (decide (P a)) as [Ha|Ha].
  - by exists [], l.
  - destruct (filter P l) as [|x r].
    + by constructor.
    + destruct IH as (l1 & l2 & -> & Hx & Hl1). exists (a :: l1), l2.
      split; [done|]. split; [done|]. by constructor.
Qed.

Lemma filter_first_of {A} (P : A → Prop) `{∀ x, Decision (P x)} (l1 l2 : list A) x :
  P x → Forall (λ y, ¬ P y) l1 → ∃ r, filter P (l1 ++ x :: l2) = x :: r.
Proof.
  intros Hx Hl1. induction Hl1 as [|a l1 Ha _ IH]; simpl.
  - rewrite filter_cons. destruct (decide (P x)); [by eexists|done].
  - rewrite filter_cons. by destruct (decide (P a)).
Qed.

(** A cell of the row that [create_freq_array] builds for one sample. *)
Lemma frequencies_of_cell unique_mutations frequency_list j mutation :
  unique_mutations !! j = Some mutation →
  ∃ cell, frequencies_of unique_mutations frequency_list !! j = Some cell
    ∧ (mutation ∉ frequency_list.*1 → cell = PInt 0)
    ∧ (mutation ∈ frequency_list.*1 → (mutation, cell) ∈ frequency_list)
    ∧ (∀ l1 af l2, frequency_list = l1 ++ (mutation, af) :: l2 →
         mutation ∉ l1.*1 → cell = af).
Proof.
  intros Hj. unfold frequencies_of. rewrite list_lookup_fmap, Hj. simpl.
  eexists. split; [done|].
  pose proof (filter_first (λ tup : string * pyval, tup.1 = mutation) frequency_list) as Hf.
  split; [|split].
  - intros Hnot. destruct (filter _ frequency_list) as [|[m af] r]; [done|].
    destruct Hf as (l1 & l2 & -> & Hm & _). simpl in Hm. subst m.
    exfalso. apply Hnot. rewrite fmap_app, elem_of_app. right. by left.
  - intros Hin. destruct (filter _ frequency_list) as [|[m af] r].
    + apply list_elem_of_fmap in Hin as ([m af] & -> & Hin).
      rewrite Forall_forall in Hf. by destruct (Hf _ Hin).
    + destruct Hf as (l1 & l2 & -> & Hm & _). simpl in Hm. subst m. simpl.
      rewrite elem_of_app. right. by left.
  - intros l1 af l2 -> Hl1.
    destruct (filter_first_of (λ tup : string * pyval, tup.1 = mutation) l1 l2 (mutation, af))
      as [r ->]; [done| |done].
    apply Forall_forall. intros [m a] Hin Hm. simpl in Hm. subst m.
    apply Hl1. apply list_elem_of_fmap. by exists (mutation, a).
Qed.

Lemma first_occurrence {A B} `{EqDecision A} (l : list (A * B)) k v :
  NoDup l.*1 → (k, v) ∈ l → ∃ l1 l2, l = l1 ++ (k, v) :: l2 ∧ k ∉ l1.*1.
Proof.
  intros Hnd Hin. apply list_elem_of_split in Hin as (l1 & l2 & ->).
  exists l1, l2. split; [done|].
  rewrite fmap_app, fmap_cons in Hnd. apply NoDup_app in Hnd as (_ & Hdis & _).
  intros Hk. apply (Hdis _ Hk). by left.
Qed.

Lemma mutation_position_raises mutation e :
  mutation_position mutation = Raise e → e = ValueError.
Proof.
  unfold mutation_position. apply int_raises.
Qed.

Lemma zoom_mutation_spec lower upper rest zoomed_unique mutation :
  zoom_mutation (lower :: upper :: rest) zoomed_unique mutation
  = match mutation_position mutation with
    | Ok _ => Ok (if in_range lower upper mutation
                  then zoomed_unique ++ [mutation] else zoomed_unique)
    | Raise _ => Raise ValueError
    end.
Proof.
  unfold zoom_mutation, in_range, index. simpl.
  destruct (mutation_position mutation) as [pos|e] eqn:Hpos; simpl.
  - by destruct (lower <=? pos).
  - by rewrite (mutation_position_raises _ _ Hpos).
Qed.

(** The loop of [zoom_to_genomic_regions], from any accumulator. *)
Lemma zoom_loop lower upper rest unique_mutations : ∀ zoomed_unique,
  match for_each (zoom_mutation (lower :: upper :: rest)) zoomed_unique unique_mutations with
  | Ok zoomed =>
      Forall (λ mutation, is_ok (mutation_position mutation) = true) unique_mutations
      ∧ zoomed = zoomed_unique
                 ++ filter (λ mutation, in_range lower upper mutation = true) unique_mutations
  | Raise e =>
      e = ValueError
      ∧ Exists (λ mutation, is_ok (mutation_position mutation) = false) unique_mutations
  end.
Proof.
  induction unique_mutations as [|mutation unique_mutations IH]; intros acc.
  - simpl. by rewrite app_nil_r.
  - cbn [for_each]. rewrite zoom_mutation_spec, filter_cons.
    destruct (mutation_position mutation) as [pos|e] eqn:Hpos; cbn [mbind result_bind].
    + specialize (IH (if in_range lower upper mutation then acc ++ [mutation] else acc)).
      destruct (for_each _ _ unique_mutations) as [zoomed|e].
      * destruct IH as [Hall ->]. split; [constructor; [by rewrite Hpos|done]|].
        destruct (in_range lower upper mutation).
        -- rewrite decide_True by done. by rewrite <- app_assoc.
        -- by rewrite decide_False by done.
      * destruct IH as [-> Hex]. split; [done|by right].
    + split; [done|]. left. by rewrite Hpos.
Qed.

Lemma in_range_spec lower upper mutation :
  in_range lower upper mutation = true
  ↔ ∃ pos, mutation_position mutation = Ok pos ∧ lower ≤ pos ≤ upper.
Proof.
  unfold in_range. destruct (mutation_position mutation) as [pos|e].
  - rewrite andb_true_iff, !Z.leb_le. split.
    + intros H. by exists pos.
    + intros (p & [= <-] & H). done.
  - split; [done|]. by intros (p & ? & _).
Qed.

Lemma filter_sorted {A} (R : A → A → Prop) (P : A → Prop) `{∀ x, Decision (P x)} l :
  StronglySorted R l → StronglySorted R (filter P l).
Proof.
  induction 1 as [|x l Hl IH Hx]; [constructor|].
  rewrite filter_cons. destruct (decide (P x)); [|done].
  constructor; [done|]. apply Forall_forall. intros y Hy.
  apply list_elem_of_filter in Hy as [_ Hy]. rewrite Forall_forall in Hx. by apply Hx.
Qed.

Lemma is_str_spec k key : is_str k key = true ↔ key = PStr k.
Proof.
  destruct key as [n|f|s|]; simpl; try (split; [done|congruence]).
  rewrite String.eqb_eq. split; congruence.
Qed.

(** [lookup_str] finds the last assignment to the key. *)
Lemma lookup_str_spec mutation_scores k :
  match lookup_str mutation_scores k with
  | Some v => ∃ l1 l2, mutation_scores = l1 ++ (PStr k, v) :: l2
                       ∧ Forall (λ entry, entry.1 ≠ PStr k) l2
  | None => Forall (λ entry, entry.1 ≠ PStr k) mutation_scores
  end.
Proof.
  unfold lookup_str.
  pose proof (filter_first (λ entry : pyval * pyval, is_str k entry.1 = true)
                (reverse mutation_scores)) as H.
  destruct (filter _ (reverse mutation_scores)) as [|[key v] r].
  - apply Forall_forall. intros entry Hin Hkey.
    rewrite Forall_forall in H. apply (H entry); [by apply elem_of_reverse|].
    by apply is_str_spec.
  - destruct H as (l1 & l2 & Hrev & Hkey & Hl1). apply is_str_spec in Hkey.
    simpl in Hkey. subst key. exists (reverse l2), (reverse l1). split.
    + rewrite <- (reverse_involutive mutation_scores), Hrev.
      by rewrite reverse_app, reverse_cons, <- app_assoc.
    + apply Forall_forall. intros entry Hin Hkey. rewrite elem_of_reverse in Hin.
      rewrite Forall_forall in Hl1. apply (Hl1 entry Hin). by apply is_str_spec.
Qed.

(** The first loop of [extract_scores] records one assignment per row. *)
Lemma scores_loop aa_pos_col score_col scores_df : ∀ mutation_scores mutation_scores',
  for_each (λ mutation_scores (row : gmap string pyval),
      score ← getitem row score_col;
      key ← getitem row aa_pos_col;
      Ok (mutation_scores ++ [(key, score)]))
    mutation_scores scores_df = Ok mutation_scores' →
  ∃ entries, mutation_scores' = mutation_scores ++ entries
    ∧ Forall2 (λ (row : gmap string pyval) entry,
                 row !! aa_pos_col = Some entry.1 ∧ row !! score_col = Some entry.2)
        scores_df entries.
Proof.
  induction scores_df as [|row scores_df IH]; intros acc acc' H.
  - simpl in H. injection H as <-. exists []. by rewrite app_nil_r.
  - cbn [for_each] in H. bind_inv H as acc1 Hacc1.
    bind_inv Hacc1 as score Hscore. bind_inv Hacc1 as key Hkey.
    injection Hacc1 as <-. apply getitem_Ok in Hscore, Hkey.
    apply IH in H as (entries & -> & Hentries).
    exists ((key, score) :: entries). split; [by rewrite <- app_assoc|].
    by constructor.
Qed.

Lemma scores_loop_returns aa_pos_col score_col scores_df :
  Forall (λ row : gmap string pyval,
            is_Some (row !! aa_pos_col) ∧ is_Some (row !! score_col)) scores_df →
  ∀ mutation_scores, ∃ mutation_scores',
  for_each (λ mutation_scores (row : gmap string pyval),
      score ← getitem row score_col;
      key ← getitem row aa_pos_col;
      Ok (mutation_scores ++ [(key, score)]))
    mutation_scores scores_df = Ok mutation_scores'.
Proof.
  induction 1 as [|row scores_df [[key Hkey] [score Hscore]] _ IH]; intros acc.
  - by eexists.
  - cbn [for_each]. unfold getitem. rewrite Hkey, Hscore. simpl. apply IH.
Qed.

Lemma scored_loop mutation_scores unique_mutations : ∀ unique_scores,
  match for_each (λ unique_scores mutation,
            aa_mut ← index (split "_"%char mutation) 4;
            match lookup_str mutation_scores aa_mut with
            | Some score =>
                Ok (unique_scores ++ [mutation +:+ "_" +:+ str float_repr score])
            | None => Ok (unique_scores ++ [mutation +:+ "_nan"])
            end)
          unique_scores unique_mutations with
  | Ok unique_scores' =>
      ∃ scored, unique_scores' = unique_scores ++ scored
        ∧ Forall2 (λ mutation text,
                     ∃ aa_mut, split "_"%char mutation !! 4%nat = Some aa_mut
                       ∧ text = mutation +:+ "_"
                                +:+ score_text float_repr mutation_scores aa_mut)
            unique_mutations scored
  | Raise e =>
      e = IndexError
      ∧ Exists (λ mutation, (length (split "_"%char mutation) ≤ 4)%nat) unique_mutations
  end.
Proof.
  induction unique_mutations as [|mutation unique_mutations IH]; intros acc.
  - simpl. exists []. by rewrite app_nil_r.
  - cbn [for_each]. unfold index.
    destruct (split "_"%char mutation !! 4%nat) as [aa_mut|] eqn:Haa;
      cbn [mbind result_bind].
    + assert (∃ text, match lookup_str mutation_scores aa_mut with
                      | Some score =>
                          Ok (acc ++ [mutation +:+ "_" +:+ str float_repr score])
                      | None => Ok (acc ++ [mutation +:+ "_nan"])
                      end = Ok (acc ++ [text])
                      ∧ text = mutation +:+ "_"
                               +:+ score_text float_repr mutation_scores aa_mut)
        as (text & -> & Htext).
      { unfold score_text. destruct (lookup_str mutation_scores aa_mut); by eexists. }
      cbn [mbind result_bind]. specialize (IH (acc ++ [text])).
      destruct (for_each _ _ unique_mutations) as [out|e].
      * destruct IH as (scored & -> & Hscored). exists (text :: scored).
        split; [by rewrite <- app_assoc|]. constructor; [by exists aa_mut|done].
      * destruct IH as [-> Hex]. split; [done|by right].
    + split; [done|]. left. apply lookup_ge_None in Haa. lia.
Qed.

(** Appending a field to an id keeps the first field. *)
Lemma split_app_hd sep m s :
  List.hd "" (split sep (m +:+ String sep s)) = List.hd "" (split sep m).
Proof.
  induction m as [|c m IH]; simpl.
  - by rewrite Ascii.eqb_refl.
  - destruct (Ascii.eqb c sep); [done|].
    destruct (split sep (m +:+ String sep s)) as [|w ws] eqn:E1;
      [by destruct (split_nonempty _ _ E1)|].
    destruct (split sep m) as [|w' ws'] eqn:E2; [by destruct (split_nonempty _ _ E2)|].
    simpl in *. by rewrite IH.
Qed.

Lemma for_each_Ok_each {A S} (body : S → A → result S) l : ∀ s s',
  for_each body s l = Ok s' → Forall (λ x, ∃ s1 s2, body s1 x = Ok s2) l.
Proof.
  induction l as [|x l IH]; intros s s'; simpl; [constructor|].
  intros (s1 & H1 & H2)%bind_Ok. constructor; [by exists s, s1|by eapply IH].
Qed.

(** The declaration loop reads [line[7]] of every selected line. *)
Lemma declare_info_keys_cases (d : gmap string (list pyval)) line :
  (∃ d', declare_info_keys d line = Ok d' ∧ (8 ≤ length line)%nat)
  ∨ (declare_info_keys d line = Raise IndexError ∧ (length line < 8)%nat).
Proof.
  unfold declare_info_keys, index.
  destruct (line !! 7%nat) as [field|] eqn:H7; simpl.
  - left. eexists. split; [done|]. apply lookup_lt_Some in H7. lia.
  - right. split; [done|]. apply lookup_ge_None in H7. lia.
Qed.

Lemma declare_short_line lines : ∀ d : gmap string (list pyval),
  Exists (λ line : list string, (length line < 8)%nat) lines →
  for_each declare_info_keys d lines = Raise IndexError.
Proof.
  induction lines as [|line lines IH]; intros d Hex; [by apply Exists_nil in Hex|].
  cbn [for_each].
  destruct (declare_info_keys_cases d line) as [(d' & -> & Hlen)|[-> _]]; [|done].
  cbn [mbind result_bind].
  apply Exists_cons in Hex as [Hshort|Hex]; [lia|by apply IH].
Qed.

Lemma fill_info_well_formed infos : ∀ d visited d' visited',
  fill_info float_of_string d visited infos = Ok (d', visited') →
  Forall (λ info, contains "="%char info = true →
            ∃ key val, split "="%char info = [key; val]) infos.
Proof.
  intros d visited d' visited' H. unfold fill_info in H.
  apply for_each_Ok_each in H. eapply Forall_impl; [exact H|].
  intros info ([d1 v1] & [d2 v2] & Hbody) Hcontains. simpl in Hbody.
  rewrite Hcontains in Hbody.
  destruct (split "="%char info) as [|key [|val [|]]]; try done. by exists key, val.
Qed.

Lemma fill_line_well_formed header d line d' :
  fill_line float_of_string header d line = Ok d' → well_formed line.
Proof.
  unfold fill_line. intros H.
  bind_inv H as alt Halt. bind_inv H as d1 Hd1. bind_inv H as ref Href.
  bind_inv H as d2 Hd2. bind_inv H as field Hfield. bind_inv H as r Hr.
  destruct r as [d3 visited]. apply index_Ok in Hfield.
  split; [apply lookup_lt_Some in Hfield; lia|].
  rewrite Hfield. simpl. by eapply fill_info_well_formed.
Qed.

Lemma fill_canonical_convertible k line columns : ∀ d d',
  fill_canonical float_of_string k line d columns = Ok d' →
  Forall (λ c : nat * string,
            Forall (λ s, too_long s = false)
              ((λ i, subline (split ","%char (default "" (line !! c.1))) i) <$> seq 0 k))
    columns.
Proof.
  unfold fill_canonical. intros d d' H.
  apply for_each_Ok_each in H. eapply Forall_impl; [exact H|].
  intros [idx key] (s1 & s2 & Hbody). unfold fill_column in Hbody.
  bind_inv Hbody as field Hfield. apply index_Ok in Hfield.
  simpl. rewrite Hfield. simpl.
  apply for_each_append_converted in Hbody as [_ Hshort]. by apply Forall_fmap.
Qed.

Lemma fill_info_convertible infos : ∀ d visited d' visited',
  fill_info float_of_string d visited infos = Ok (d', visited') →
  Forall (λ info,
            Forall (λ s, too_long s = false)
              (if contains "="%char info then
                 match split "="%char info with
                 | [key; val] => split ","%char val
                 | _ => []
                 end
               else [])) infos.
Proof.
  intros d visited d' visited' H. unfold fill_info in H.
  apply for_each_Ok_each in H. eapply Forall_impl; [exact H|].
  intros info ([d1 v1] & [d2 v2] & Hbody). simpl in Hbody.
  destruct (contains "="%char info); [|constructor].
  destruct (split "="%char info) as [|key [|val [|]]]; try done.
  bind_inv Hbody as d3 Hd3.
  by apply (for_each_append_converted float_of_string id) in Hd3 as [_ Hshort].
Qed.

(** A line that [fill_line] processes is readable. *)
Lemma fill_line_readable header d line d' :
  fill_line float_of_string header d line = Ok d' → readable header line.
Proof.
  intros H. split; [by eapply fill_line_well_formed|].
  unfold fill_line in H.
  bind_inv H as alt Halt. bind_inv H as d1 Hd1. bind_inv H as ref Href.
  bind_inv H as d2 Hd2. bind_inv H as field Hfield. bind_inv H as r Hr.
  destruct r as [d3 visited].
  apply index_Ok in Halt. apply index_Ok in Hfield.
  unfold converted_fields, length_variants_of. rewrite Halt, Hfield. simpl.
  apply Forall_app. split; apply Forall_concat_iff; rewrite Forall_fmap.
  - by eapply fill_canonical_convertible.
  - by eapply fill_info_convertible.
Qed.

(** *** Main theorems *)

(** X3.  [extract_vcf_data] returns one name and one frequency list per
    input file, in the order of the files, and never an empty list of
    mutations. *)
Theorem extract_vcf_data_per_file vcf_files reference threshold scores
    frequency_lists unique_mutations file_names printed :
  extract_vcf_data float_of_string float_repr set_iter vcf_files reference threshold scores
  = Ok (frequency_lists, unique_mutations, file_names, printed) →
  file_names = stem <$> vcf_files
  ∧ length frequency_lists = length vcf_files
  ∧ unique_mutations ≠ [].
Proof.
  unfold extract_vcf_data. intros H.
  bind_inv H as s Hs. destruct s as [[names lists] pr].
  bind_inv H as um Hum. destruct um as [|m um]; [done|]. injection H as <- <- <- <-.
  apply extract_loop in Hs as (-> & new & -> & Hlen & _). done.
Qed.

(** X4.  Every frequency that [extract_vcf_data] returns was compared with
    the threshold and is not below it; in particular it is a number. *)
Theorem extract_vcf_data_threshold vcf_files reference threshold scores
    frequency_lists unique_mutations file_names printed frequency_list mutation af :
  extract_vcf_data float_of_string float_repr set_iter vcf_files reference threshold scores
  = Ok (frequency_lists, unique_mutations, file_names, printed) →
  frequency_list ∈ frequency_lists → (mutation, af) ∈ frequency_list →
  ge_threshold af threshold = Ok true
  ∧ ((∃ f, af = PFloat f ∧ PrimFloat.leb threshold f = true)
     ∨ (∃ n, af = PInt n ∧ int_ge_float n threshold = true)).
Proof.
  unfold extract_vcf_data. intros H Hli Hin.
  bind_inv H as s Hs. destruct s as [[names lists] pr].
  bind_inv H as um Hum. destruct um as [|m um]; [done|]. injection H as <- <- <- <-.
  apply extract_loop in Hs as (_ & new & -> & _ & Hall).
  simpl in Hli. rewrite Forall_forall in Hall. specialize (Hall _ Hli).
  rewrite Forall_forall in Hall. specialize (Hall _ Hin). simpl in Hall.
  split; [done|].
  destruct af as [n|f| |]; simpl in Hall; try done.
  - right. exists n. split; [done|congruence].
  - left. exists f. split; [done|congruence].
Qed.

(** X5.  When iterating over a set visits each of its elements once, the
    list of mutations has no duplicates and holds exactly the ids that
    occur in the frequency lists. *)
Theorem extract_vcf_data_mutation_set vcf_files reference threshold scores
    frequency_lists unique_mutations file_names printed :
  (∀ l, set_iter l ≡ₚ l) →
  extract_vcf_data float_of_string float_repr set_iter vcf_files reference threshold scores
  = Ok (frequency_lists, unique_mutations, file_names, printed) →
  NoDup unique_mutations
  ∧ ∀ mutation, mutation ∈ unique_mutations
      ↔ ∃ frequency_list af, frequency_list ∈ frequency_lists
                             ∧ (mutation, af) ∈ frequency_list.
Proof.
  intros Hperm. unfold extract_vcf_data. intros H.
  bind_inv H as s Hs. destruct s as [[names lists] pr].
  bind_inv H as um Hum. destruct um as [|m um]; [done|]. injection H as <- <- <- <-.
  apply sorted_by_position_sorted in Hum as [_ Hum]. rewrite Hperm in Hum.
  split.
  - rewrite Hum. apply NoDup_distinct.
  - intros mutation. rewrite Hum, elem_of_distinct. rewrite elem_of_concat.
    split.
    + intros (ids & Hm & Hids). apply list_elem_of_fmap in Hids as (li & -> & Hli).
      apply list_elem_of_fmap in Hm as ([m' af] & -> & Hm). by exists li, af.
    + intros (li & af & Hli & Hm). exists (li.*1). split.
      * apply list_elem_of_fmap. by exists (mutation, af).
      * apply list_elem_of_fmap. by exists li.
Qed.

(** X6.  When no file has a line for the reference (each has its header),
    and also when there is no file at all, [extract_vcf_data] ends the
    program with the no-variants message. *)
Theorem extract_vcf_data_no_variants_exits vcf_files reference threshold scores :
  set_iter [] = [] →
  Forall (no_variants reference) vcf_files →
  extract_vcf_data float_of_string float_repr set_iter vcf_files reference threshold scores
  = Raise (SystemExit (error_prefix +:+ "No variants to " +:+ reference
                       +:+ " in all vcf files!")).
Proof.
  intros Hset Hfiles. unfold extract_vcf_data.
  rewrite (extract_loop_no_variants reference threshold scores vcf_files Hfiles).
  cbn [mbind result_bind app].
  rewrite (concat_replicate_nil (λ li : list (string * pyval), li.*1)) by done.
  simpl. rewrite Hset. done.
Qed.

(** X7.  Round trip through text: [convert_string] gives back the integer
    whose decimal numeral it reads when the integer is not negative and
    its numeral has no more digits than [int] converts; a longer numeral
    makes it raise [ValueError].  The numeral of a negative integer has a
    sign and stays a string. *)
Theorem convert_string_round_trip n :
  convert_string float_of_string (str_of_int n)
  = if 0 <=? n then
      if int_max_str_digits <? Z.of_nat (String.length (str_of_int n))
      then Raise ValueError
      else Ok (PInt n)
    else Ok (PStr (str_of_int n)).
Proof.
  unfold convert_string.
  rewrite remove_all_without by (by apply str_of_int_without).
  destruct (0 <=? n) eqn:Hn.
  - apply Z.leb_le in Hn. destruct (Digits.str_of_int_digits n Hn) as [Hd Hv].
    rewrite Hd, (Digits.int_digits _ Hd), Hv. by destruct (_ <? _).
  - apply Z.leb_gt in Hn. destruct n as [|p|p]; [lia|lia|].
    assert (contains "-" (str_of_int (Z.neg p)) = true) as Hsign by done.
    rewrite (contains_not_decimal "-" _ Hsign) by done.
    rewrite remove_first_without by (by apply str_of_int_without).
    by rewrite (contains_not_decimal "-" _ Hsign).
Qed.

(** X8.  A field with any character other than a digit, a dot or a line
    feed is kept as text: a sign or an exponent is enough, so [-1] and
    [1e-05] are strings, not numbers. *)
Theorem convert_string_keeps_text s c :
  contains c s = true → is_digit c = false → c ≠ "."%char → c ≠ newline →
  convert_string float_of_string s = Ok (PStr (remove_all newline s)).
Proof.
  intros Hc Hd Hdot Hnl. unfold convert_string.
  assert (contains c (remove_all newline s) = true) as H1
    by (by rewrite contains_remove_all).
  assert (contains c (remove_first "." (remove_all newline s)) = true) as H2
    by (by rewrite contains_remove_first).
  by rewrite (contains_not_decimal c _ H1 Hd), (contains_not_decimal c _ H2 Hd).
Qed.

(** X9.  The sort key of a mutation id is the position of its variant:
    when the [POS] entry of a variant is an integer, the id that
    [extract_vcf_data] builds for it starts with that integer, and
    [int(id.split("_")[0])] reads it back. *)
Theorem frequency_entry_position vcf_dict threshold scores frequency_list idx
    frequency_list' n :
  frequency_entry float_repr vcf_dict threshold scores frequency_list idx
  = Ok frequency_list' →
  (vcf_dict !! "POS" ≫= (.!! idx)) = Some (PInt n) →
  frequency_list' = frequency_list
  ∨ ∃ mutation af, frequency_list' = frequency_list ++ [(mutation, af)]
                   ∧ mutation_position mutation = Ok n.
Proof.
  intros H Hpos.
  apply frequency_entry_spec in H
    as [->|(pos & ref & alt & mt & sf & af & -> & _ & Hpos' & _ & Htext)]; [by left|].
  right. eexists _, af. split; [done|].
  assert (pos = PInt n) as -> by congruence.
  unfold mutation_position. cbn [str].
  change ("_" +:+ ?r) with (String "_" r).
  rewrite Digits.split_prefix by (by apply str_of_int_without).
  simpl. by apply Digits.int_str_of_int.
Qed.

(** X10.  For a file with a [#CHROM] line, [read_vcf] returns exactly when
    every line it selects has at least eight tab-separated fields, each
    of its INFO entries that holds an equals sign holds one, and none of the
    fields it converts is a run of more decimal digits than [int] converts;
    a selected line with fewer than eight fields makes it raise
    [IndexError]. *)
Theorem read_vcf_returns_iff vcf_file reference header rest :
  selected_lines vcf_file "#CHROM" = header :: rest →
  ((∃ d printed, read_vcf float_of_string vcf_file reference = Ok (d, printed))
   ↔ Forall (λ line, well_formed line
                     ∧ Forall (λ s, too_long s = false) (converted_fields header line))
       (selected_lines vcf_file reference))
  ∧ (Exists (λ line : list string, (length line < 8)%nat) (selected_lines vcf_file reference) →
     read_vcf float_of_string vcf_file reference = Raise IndexError).
Proof.
  intros Hheader. split; [split|].
  - intros (d & printed & H). unfold read_vcf in H. rewrite Hheader in H.
    bind_inv H as d1 Hd1. bind_inv H as d2 Hd2.
    apply for_each_Ok_each in Hd2. eapply Forall_impl; [exact Hd2|].
    intros line (s1 & s2 & Hline). by eapply fill_line_readable.
  - intros Hlines. by eapply read_vcf_returns.
  - intros Hshort. unfold read_vcf. rewrite Hheader.
    by rewrite declare_short_line.
Qed.

(** X11.  The table [create_freq_array] hands to [np.array] has one row per
    sample and one cell per mutation.  A cell holds [0] when the sample
    has no variant with the id of the column, and otherwise the frequency
    of the first variant of the sample with that id: a frequency listed
    again under the same id is not used. *)
Theorem create_freq_array_cells {ndarray : Type} (np_array : list (list pyval) → ndarray)
    unique_mutations frequency_lists :
  ∃ rows,
    create_freq_array np_array unique_mutations frequency_lists = np_array rows
    ∧ length rows = length frequency_lists
    ∧ Forall (λ row, length row = length unique_mutations) rows
    ∧ ∀ i j frequency_list mutation,
        frequency_lists !! i = Some frequency_list →
        unique_mutations !! j = Some mutation →
        ∃ cell, (rows !! i ≫= (.!! j)) = Some cell
          ∧ (mutation ∉ frequency_list.*1 → cell = PInt 0)
          ∧ (∀ l1 af l2, frequency_list = l1 ++ (mutation, af) :: l2 →
               mutation ∉ l1.*1 → cell = af)
          ∧ (NoDup frequency_list.*1 →
               ∀ af, (mutation, af) ∈ frequency_list → cell = af).
Proof.
  exists (frequencies_of unique_mutations <$> frequency_lists).
  split; [done|]. split; [by rewrite length_fmap|]. split.
  - apply Forall_fmap, Forall_forall. intros li _. unfold frequencies_of.
    simpl. by rewrite length_fmap.
  - intros i j li mutation Hi Hj. rewrite list_lookup_fmap, Hi. simpl.
    destruct (frequencies_of_cell unique_mutations li j mutation Hj)
      as (cell & Hcell & Hzero & _ & Hfirst).
    exists cell. split; [done|]. split; [done|]. split; [done|].
    intros Hnd af Hin.
    destruct (first_occurrence li mutation af Hnd Hin) as (l1 & l2 & Hli & Hl1).
    by eapply Hfirst.
Qed.

(** X12.  [extract_vcf_data] followed by [create_freq_array]: the table
    has a row for every file name; every variant that was kept has a
    column; and every column has a sample whose cell comes from one of its
    variants and is not below the threshold. *)
Theorem create_freq_array_of_extract vcf_files reference threshold scores
    frequency_lists unique_mutations file_names printed :
  (∀ l, set_iter l ≡ₚ l) →
  extract_vcf_data float_of_string float_repr set_iter vcf_files reference threshold scores
  = Ok (frequency_lists, unique_mutations, file_names, printed) →
  let rows := create_freq_array id unique_mutations frequency_lists in
  length rows = length file_names
  ∧ (∀ i frequency_list mutation af,
       frequency_lists !! i = Some frequency_list → (mutation, af) ∈ frequency_list →
       ∃ j cell, unique_mutations !! j = Some mutation
                 ∧ (rows !! i ≫= (.!! j)) = Some cell
                 ∧ (mutation, cell) ∈ frequency_list)
  ∧ (∀ j mutation, unique_mutations !! j = Some mutation →
       ∃ i frequency_list cell,
         frequency_lists !! i = Some frequency_list
         ∧ (rows !! i ≫= (.!! j)) = Some cell
         ∧ (mutation, cell) ∈ frequency_list
         ∧ ge_threshold cell threshold = Ok true).
Proof.
  intros Hperm H rows.
  assert (∀ mutation, mutation ∈ unique_mutations
            ↔ ∃ li af, li ∈ frequency_lists ∧ (mutation, af) ∈ li) as Hset.
  { revert H. unfold extract_vcf_data. intros H.
    bind_inv H as s Hs. destruct s as [[names lists] pr].
    bind_inv H as um Hum. destruct um as [|m um]; [done|]. injection H as <- <- <- <-.
    apply sorted_by_position_sorted in Hum as [_ Hum]. rewrite Hperm in Hum.
    intros mutation. rewrite Hum, elem_of_distinct, elem_of_concat. split.
    - intros (ids & Hm & Hids). apply list_elem_of_fmap in Hids as (li & -> & Hli).
      apply list_elem_of_fmap in Hm as ([m' af] & -> & Hm). by exists li, af.
    - intros (li & af & Hli & Hm). exists (li.*1). split.
      + apply list_elem_of_fmap. by exists (mutation, af).
      + apply list_elem_of_fmap. by exists li. }
  assert (file_names = stem <$> vcf_files
          ∧ length frequency_lists = length vcf_files
          ∧ Forall (Forall (λ tup, ge_threshold tup.2 threshold = Ok true)) frequency_lists)
    as (Hnames & Hlen & Hall).
  { revert H. unfold extract_vcf_data. intros H.
    bind_inv H as s Hs. destruct s as [[names lists] pr].
    bind_inv H as um Hum. destruct um as [|m um]; [done|]. injection H as <- <- <- <-.
    by apply extract_loop in Hs as (-> & new & -> & Hlen & Hall). }
  assert (∀ i j li mutation,
            frequency_lists !! i = Some li → unique_mutations !! j = Some mutation →
            mutation ∈ li.*1 →
            ∃ cell, (rows !! i ≫= (.!! j)) = Some cell ∧ (mutation, cell) ∈ li) as Hcell.
  { intros i j li mutation Hi Hj Hin. unfold rows, create_freq_array, id.
    rewrite list_lookup_fmap, Hi. simpl.
    destruct (frequencies_of_cell unique_mutations li j mutation Hj)
      as (cell & Hc & _ & Hfrom & _).
    exists cell. split; [done|]. by apply Hfrom. }
  split; [|split].
  - unfold rows, create_freq_array, id. rewrite length_fmap, Hnames, length_fmap. done.
  - intros i li mutation af Hi Hin.
    assert (mutation ∈ unique_mutations) as Hm.
    { apply Hset. exists li, af. split; [by eapply list_elem_of_lookup_2|done]. }
    apply list_elem_of_lookup_1 in Hm as [j Hj].
    destruct (Hcell i j li mutation Hi Hj) as (cell & Hc & Hfrom).
    { apply list_elem_of_fmap. by exists (mutation, af). }
    by exists j, cell.
  - intros j mutation Hj.
    assert (mutation ∈ unique_mutations) as Hm by (by eapply list_elem_of_lookup_2).
    apply Hset in Hm as (li & af & Hli & Hin).
    apply list_elem_of_lookup_1 in Hli as [i Hi].
    destruct (Hcell i j li mutation Hi Hj) as (cell & Hc & Hfrom).
    { apply list_elem_of_fmap. by exists (mutation, af). }
    exists i, li, cell. split; [done|]. split; [done|]. split; [done|].
    rewrite Forall_forall in Hall.
    assert (li ∈ frequency_lists) as Hli by (by eapply list_elem_of_lookup_2).
    specialize (Hall _ Hli). rewrite Forall_forall in Hall. by apply (Hall (mutation, cell)).
Qed.

(** X13.  [zoom_to_genomic_regions] keeps, in their order, exactly the
    mutations whose position lies between the two bounds, both bounds
    included; a list sorted by position stays sorted. *)
Theorem zoom_to_genomic_regions_keeps unique_mutations lower upper rest zoomed_unique :
  zoom_to_genomic_regions unique_mutations (lower :: upper :: rest) = Ok zoomed_unique →
  zoomed_unique = filter (λ mutation, in_range lower upper mutation = true) unique_mutations
  ∧ (∀ mutation, mutation ∈ zoomed_unique
       ↔ mutation ∈ unique_mutations
         ∧ ∃ pos, mutation_position mutation = Ok pos ∧ lower ≤ pos ≤ upper)
  ∧ (StronglySorted position_le unique_mutations →
       StronglySorted position_le zoomed_unique).
Proof.
  unfold zoom_to_genomic_regions. intros H.
  pose proof (zoom_loop lower upper rest unique_mutations []) as Hloop.
  rewrite H in Hloop. destruct Hloop as [_ ->]. simpl.
  split; [done|]. split.
  - intros mutation. rewrite list_elem_of_filter, in_range_spec.
    split; intros [? ?]; by split.
  - apply filter_sorted.
Qed.

(** X14.  With a range of two bounds, [zoom_to_genomic_regions] returns
    when every id begins with an integer, and raises [ValueError] when
    some id does not; it raises nothing else. *)
Theorem zoom_to_genomic_regions_value_error unique_mutations lower upper rest :
  match zoom_to_genomic_regions unique_mutations (lower :: upper :: rest) with
  | Ok _ => Forall (λ mutation, ∃ pos, mutation_position mutation = Ok pos) unique_mutations
  | Raise e =>
      e = ValueError
      ∧ Exists (λ mutation, mutation_position mutation = Raise ValueError) unique_mutations
  end.
Proof.
  unfold zoom_to_genomic_regions.
  pose proof (zoom_loop lower upper rest unique_mutations []) as Hloop.
  destruct (for_each _ _ _) as [zoomed|e].
  - destruct Hloop as [Hall _]. eapply Forall_impl; [exact Hall|].
    intros mutation Hm. simpl in Hm.
    destruct (mutation_position mutation) as [pos|]; [by exists pos|done].
  - destruct Hloop as [-> Hex]. split; [done|].
    eapply Exists_impl; [exact Hex|]. intros mutation Hm. simpl in Hm.
    destruct (mutation_position mutation) as [|e] eqn:E; [done|].
    by rewrite (mutation_position_raises _ _ E).
Qed.

(** X15.  Zooming twice is zooming to the intersection of the two ranges,
    and zooming again to the same range changes nothing. *)
Theorem zoom_to_genomic_regions_twice unique_mutations lower upper zoomed_unique
    lower' upper' :
  zoom_to_genomic_regions unique_mutations [lower; upper] = Ok zoomed_unique →
  zoom_to_genomic_regions zoomed_unique [lower'; upper']
  = zoom_to_genomic_regions unique_mutations [Z.max lower lower'; Z.min upper upper']
  ∧ zoom_to_genomic_regions zoomed_unique [lower; upper] = Ok zoomed_unique.
Proof.
  unfold zoom_to_genomic_regions. intros H.
  pose proof (zoom_loop lower upper [] unique_mutations []) as Hloop.
  rewrite H in Hloop. destruct Hloop as [Hall ->]. simpl. clear H.
  assert (∀ lo hi l,
            Forall (λ mutation, is_ok (mutation_position mutation) = true) l →
            for_each (zoom_mutation [lo; hi]) [] l
            = Ok (filter (λ mutation, in_range lo hi mutation = true) l)) as Hrun.
  { intros lo hi l Hl. pose proof (zoom_loop lo hi [] l []) as Hloop.
    destruct (for_each _ _ _) as [z|e].
    - by destruct Hloop as [_ ->].
    - destruct Hloop as [_ Hex]. apply Exists_exists in Hex as (m & Hm & Hbad).
      rewrite Forall_forall in Hl. by rewrite (Hl m Hm) in Hbad. }
  assert (Forall (λ mutation, is_ok (mutation_position mutation) = true)
            (filter (λ mutation, in_range lower upper mutation = true) unique_mutations))
    as Hall'.
  { apply Forall_forall. intros m Hm. apply list_elem_of_filter in Hm as [_ Hm].
    rewrite Forall_forall in Hall. by apply Hall. }
  rewrite !Hrun by done. split; f_equal.
  - rewrite list_filter_filter. apply list_filter_iff. intros m.
    unfold in_range. destruct (mutation_position m) as [pos|].
    + rewrite !andb_true_iff, !Z.leb_le. lia.
    + split; [by intros [? _]|done].
  - rewrite list_filter_filter. apply list_filter_iff. intros m.
    split; [by intros [? _]|done].
Qed.

(** X16.  [extract_scores] returns one entry per mutation: the id followed
    by an underscore and by the score of the last row of the table whose
    key is the fifth field of the id, or by [nan] when no row has that
    key.  The position of the entry is that of the id. *)
Theorem extract_scores_entries unique_mutations scores_df aa_pos_col score_col
    unique_scores :
  extract_scores float_repr unique_mutations scores_df aa_pos_col score_col
  = Ok unique_scores →
  Forall2 (λ mutation scored,
      mutation_position scored = mutation_position mutation
      ∧ ∃ aa_mut, split "_"%char mutation !! 4%nat = Some aa_mut
          ∧ ((∃ rows1 row rows2 score,
                scores_df = rows1 ++ row :: rows2
                ∧ row !! aa_pos_col = Some (PStr aa_mut)
                ∧ row !! score_col = Some score
                ∧ Forall (λ later : gmap string pyval,
                            later !! aa_pos_col ≠ Some (PStr aa_mut)) rows2
                ∧ scored = mutation +:+ "_" +:+ str float_repr score)
             ∨ (Forall (λ row : gmap string pyval,
                          row !! aa_pos_col ≠ Some (PStr aa_mut)) scores_df
                ∧ scored = mutation +:+ "_nan")))
    unique_mutations unique_scores.
Proof.
  unfold extract_scores. intros H. bind_inv H as mutation_scores Hscores.
  apply scores_loop in Hscores as (entries & -> & Hentries). simpl in *.
  pose proof (scored_loop entries unique_mutations []) as Hloop.
  rewrite H in Hloop. destruct Hloop as (scored & -> & Hscored). simpl.
  eapply Forall2_impl; [exact Hscored|]. clear Hscored H.
  intros mutation text (aa_mut & Haa & ->). split.
  { unfold mutation_position. change ("_" +:+ ?r) with (String "_" r).
    by rewrite split_app_hd. }
  exists aa_mut. split; [done|]. unfold score_text.
  pose proof (lookup_str_spec entries aa_mut) as Hlook.
  destruct (lookup_str entries aa_mut) as [score|].
  - left. destruct Hlook as (l1 & l2 & -> & Hl2).
    apply Forall2_app_inv_r in Hentries as (rows1 & rows' & Hrows1 & Hrows' & ->).
    apply Forall2_cons_inv_r in Hrows' as (row & rows2 & [Hkey Hscore] & Hrows2 & ->).
    exists rows1, row, rows2, score. repeat split; try done.
    clear - Hrows2 Hl2. induction Hrows2 as [|r e rs es [Hk _] _ IH]; [constructor|].
    apply Forall_cons in Hl2 as [He Hes]. constructor; [|by apply IH].
    rewrite Hk. congruence.
  - right. split; [|done].
    clear - Hentries Hlook. induction Hentries as [|r e rs es [Hk _] _ IH]; [constructor|].
    apply Forall_cons in Hlook as [He Hes]. constructor; [|by apply IH].
    rewrite Hk. congruence.
Qed.

(** X17.  [extract_scores] needs ids with an amino-acid field: when the
    table has both columns in every row and some id has fewer than five
    fields between underscores, as the ids built without scores have,
    it raises [IndexError]. *)
Theorem extract_scores_index_error unique_mutations scores_df aa_pos_col score_col :
  Forall (λ row : gmap string pyval,
            is_Some (row !! aa_pos_col) ∧ is_Some (row !! score_col)) scores_df →
  Exists (λ mutation, (length (split "_"%char mutation) < 5)%nat) unique_mutations →
  extract_scores float_repr unique_mutations scores_df aa_pos_col score_col
  = Raise IndexError.
Proof.
  intros Hrows Hex. unfold extract_scores.
  destruct (scores_loop_returns aa_pos_col score_col scores_df Hrows [])
    as [mutation_scores ->]. cbn [mbind result_bind].
  pose proof (scored_loop mutation_scores unique_mutations []) as Hloop.
  destruct (for_each _ _ _) as [out|e].
  - destruct Hloop as (scored & _ & Hscored). exfalso.
    apply Exists_exists in Hex as (m & Hm & Hshort).
    apply list_elem_of_lookup_1 in Hm as [i Hi].
    destruct (Forall2_lookup_l _ _ _ _ _ Hscored Hi) as (text & _ & aa & Haa & _).
    apply lookup_lt_Some in Haa. lia.
  - by destruct Hloop as [-> _].
Qed.

End Facts.

(** *** Worked examples *)

Lemma extract_vcf_data_per_file_witness :
  ∃ frequency_lists unique_mutations file_names printed,
    extract_vcf_data decimal_float float_repr_unused reverse
      [sample_a; sample_b] "ref" 0%float false
    = Ok (frequency_lists, unique_mutations, file_names, printed)
    ∧ file_names = ["sample_a"; "sample_b"]
    ∧ length frequency_lists = 2%nat.
Proof.
  eexists _, _, _, _. split; [vm_compute; reflexivity|].
  destruct (extract_vcf_data_per_file decimal_float float_repr_unused reverse
              [sample_a; sample_b] "ref" 0%float false _ _ _ _ eq_refl) as (H1 & H2 & _).
  by split.
Defined.

Lemma extract_vcf_data_threshold_witness :
  ∃ frequency_lists unique_mutations file_names printed,
    extract_vcf_data decimal_float float_repr_unused reverse
      [sample_a; sample_b] "ref" 0.5%float false
    = Ok (frequency_lists, unique_mutations, file_names, printed)
    ∧ frequency_lists !! 1%nat = Some [("10_A_T_SNV", PFloat 0.5); ("9_AT_A_DEL", PFloat 0.75)]
    ∧ ge_threshold (PFloat 0.75) 0.5 = Ok true.
Proof.
  eexists _, _, _, _. split; [vm_compute; reflexivity|]. split; [reflexivity|].
  eapply (extract_vcf_data_threshold decimal_float float_repr_unused reverse
            [sample_a; sample_b] "ref" 0.5%float false _ _ _ _
            [("10_A_T_SNV", PFloat 0.5); ("9_AT_A_DEL", PFloat 0.75)] "9_AT_A_DEL").
  - vm_compute. reflexivity.
  - right. left.
  - right. left.
Defined.

Lemma extract_vcf_data_mutation_set_witness :
  ∃ frequency_lists unique_mutations file_names printed,
    extract_vcf_data decimal_float float_repr_unused reverse
      [sample_a; sample_b] "ref" 0%float false
    = Ok (frequency_lists, unique_mutations, file_names, printed)
    ∧ NoDup unique_mutations.
Proof.
  eexists _, _, _, _. split; [vm_compute; reflexivity|].
  eapply (extract_vcf_data_mutation_set decimal_float float_repr_unused reverse
            [sample_a; sample_b] "ref" 0%float false _ _ _ _ (λ l, reverse_Permutation l)).
  vm_compute. reflexivity.
Defined.

Lemma extract_vcf_data_no_variants_exits_witness :
  extract_vcf_data decimal_float float_repr_unused reverse
    [sample_other; sample_other] "ref" 0%float false
  = Raise (SystemExit (error_prefix +:+ "No variants to ref in all vcf files!")).
Proof.
  apply (extract_vcf_data_no_variants_exits decimal_float float_repr_unused reverse
           [sample_other; sample_other] "ref" 0%float false eq_refl).
  assert (no_variants "ref" sample_other) as H.
  { split; [vm_compute; reflexivity|].
    eexists _, _. split; [vm_compute; reflexivity|]. left. }
  apply Forall_cons_2; [exact H|]. apply Forall_cons_2; [exact H|]. apply Forall_nil_2.
Defined.

Lemma convert_string_keeps_text_witness :
  convert_string decimal_float "1e-05" = Ok (PStr "1e-05")
  ∧ convert_string decimal_float "-1" = Ok (PStr "-1").
Proof.
  split.
  - by apply (convert_string_keeps_text decimal_float "1e-05" "e").
  - by apply (convert_string_keeps_text decimal_float "-1" "-").
Defined.

(** A field of 4301 digits is refused, and with it the file that holds
    it. *)
Example convert_string_long_numeral :
  convert_string decimal_float (Digits.ones 4301) = Raise ValueError
  ∧ is_ok (convert_string decimal_float (Digits.ones 4300)) = true
  ∧ read_vcf decimal_float
      {| stem := "long";
         lines := [vcf_header;
                   tsv ["ref"; "10"; "."; "A"; "T"; Digits.ones 4301; "PASS"; "AF=1"]] |}
      "ref"
    = Raise ValueError.
Proof. repeat split; vm_compute; reflexivity. Qed.

Lemma frequency_entry_position_witness :
  ∃ mutation,
    frequency_entry float_repr_unused
      {[ "POS" := [PInt 241]; "REF" := [PStr "C"]; "ALT" := [PStr "T"];
         "MUT_TYPE_" := [PStr "SNV"]; "AF" := [PFloat 0.5] ]} 0 false [] 0
    = Ok [(mutation, PFloat 0.5)]
    ∧ mutation_position mutation = Ok 241.
Proof.
  destruct (frequency_entry_position float_repr_unused
              {[ "POS" := [PInt 241]; "REF" := [PStr "C"]; "ALT" := [PStr "T"];
                 "MUT_TYPE_" := [PStr "SNV"]; "AF" := [PFloat 0.5] ]} 0 false [] 0
              [("241_C_T_SNV", PFloat 0.5)] 241)
    as [H|(mutation & af & H & Hpos)].
  - vm_compute. reflexivity.
  - vm_compute. reflexivity.
  - discriminate H.
  - injection H as <- <-. exists "241_C_T_SNV". split; [vm_compute; reflexivity|exact Hpos].
Defined.

(** The table of the two samples: the deletion at position 9 is in both,
    the other three mutations in one sample each. *)
Lemma create_freq_array_of_extract_witness :
  ∃ frequency_lists unique_mutations file_names printed,
    extract_vcf_data decimal_float float_repr_unused reverse
      [sample_a; sample_b] "ref" 0%float false
    = Ok (frequency_lists, unique_mutations, file_names, printed)
    ∧ unique_mutations = sorted_ids
    ∧ create_freq_array id unique_mutations frequency_lists
      = [[PInt 1; PInt 0; PInt 0; PFloat 0.5];
         [PFloat 0.75; PFloat 0.25; PFloat 0.5; PInt 0]]
    ∧ length (create_freq_array id unique_mutations frequency_lists) = length file_names.
Proof.
  eexists _, _, _, _. split; [vm_compute; reflexivity|]. split; [reflexivity|].
  split; [vm_compute; reflexivity|].
  destruct (create_freq_array_of_extract decimal_float float_repr_unused reverse
              [sample_a; sample_b] "ref" 0%float false _ _ _ _
              (λ l, reverse_Permutation l) eq_refl) as [H _].
  exact H.
Defined.

(** Zooming to [10, 100] drops position 9 and keeps both bounds. *)
Lemma zoom_to_genomic_regions_keeps_witness :
  zoom_to_genomic_regions sorted_ids [10; 100]
  = Ok ["10_A_GA_INS"; "10_A_T_SNV"; "100_A_T_SNV"]
  ∧ ("100_A_T_SNV" ∈ ["10_A_GA_INS"; "10_A_T_SNV"; "100_A_T_SNV"]
     ↔ "100_A_T_SNV" ∈ sorted_ids
       ∧ ∃ pos, mutation_position "100_A_T_SNV" = Ok pos ∧ 10 ≤ pos ≤ 100).
Proof.
  split; [vm_compute; reflexivity|].
  destruct (zoom_to_genomic_regions_keeps sorted_ids 10 100 []
              ["10_A_GA_INS"; "10_A_T_SNV"; "100_A_T_SNV"]) as (_ & H & _).
  - vm_compute. reflexivity.
  - apply H.
Defined.

Lemma zoom_to_genomic_regions_twice_witness :
  zoom_to_genomic_regions ["10_A_GA_INS"; "10_A_T_SNV"; "100_A_T_SNV"] [0; 50]
  = zoom_to_genomic_regions sorted_ids [10; 50]
  ∧ zoom_to_genomic_regions ["10_A_GA_INS"; "10_A_T_SNV"; "100_A_T_SNV"] [10; 100]
    = Ok ["10_A_GA_INS"; "10_A_T_SNV"; "100_A_T_SNV"].
Proof.
  apply (zoom_to_genomic_regions_twice sorted_ids 10 100
           ["10_A_GA_INS"; "10_A_T_SNV"; "100_A_T_SNV"] 0 50).
  vm_compute. reflexivity.
Defined.

(** The second row for [D614G] overrides the first; the id without an
    amino-acid change gets [nan]. *)
Lemma extract_scores_entries_witness :
  ∃ unique_scores,
    extract_scores float_repr_unused scored_ids scores_table "aa" "score" = Ok unique_scores
    ∧ unique_scores = ["23063_A_T_SNV_N501Y_5"; "23403_A_G_SNV_D614G_2"; "241_C_T_SNV_-_nan"]
    ∧ Forall2 (λ mutation scored, mutation_position scored = mutation_position mutation)
        scored_ids unique_scores.
Proof.
  eexists. split; [vm_compute; reflexivity|]. split; [reflexivity|].
  eapply Forall2_impl.
  - apply (extract_scores_entries float_repr_unused scored_ids scores_table "aa" "score").
    vm_compute. reflexivity.
  - intros mutation scored [H _]. exact H.
Defined.

(** The ids built without scores have four fields. *)
Lemma extract_scores_index_error_witness :
  extract_scores float_repr_unused sorted_ids scores_table "aa" "score" = Raise IndexError.
Proof.
  apply (extract_scores_index_error float_repr_unused sorted_ids scores_table "aa" "score").
  - repeat (apply Forall_cons_2; [split; by eexists|]). apply Forall_nil_2.
  - apply Exists_cons_hd. vm_compute. lia.
Defined.

Lemma read_vcf_returns_iff_witness :
  (∃ d printed, read_vcf decimal_float sample_b "ref" = Ok (d, printed))
  ∧ read_vcf decimal_float
      {| stem := "short"; lines := [vcf_header; tsv ["ref"; "10"; "."; "A"; "T"]] |} "ref"
    = Raise IndexError.
Proof.
  split.
  - apply (read_vcf_returns_iff decimal_float sample_b "ref"
             ["#CHROM"; "POS"; "ID"; "REF"; "ALT"; "QUAL"; "FILTER"; "INFO"] []);
      [vm_compute; reflexivity|].
    let lines := eval vm_compute in (selected_lines sample_b "ref") in
    change (selected_lines sample_b "ref") with lines.
    repeat first [apply Forall_nil_2 | apply Forall_cons_2].
    all: split;
      [split; [simpl; lia|];
       repeat first [apply Forall_nil_2 | apply Forall_cons_2]; intros _; by eexists _, _
      |].
    all: match goal with |- Forall _ ?fields =>
           let l := eval vm_compute in fields in change fields with l
         end.
    all: repeat first [apply Forall_nil_2 | apply Forall_cons_2; [vm_compute; reflexivity|]].
  - apply (read_vcf_returns_iff decimal_float _ "ref"
             ["#CHROM"; "POS"; "ID"; "REF"; "ALT"; "QUAL"; "FILTER"; "INFO"] []);
      [vm_compute; reflexivity|].
    apply Exists_cons_hd. vm_compute. lia.
Defined.

End Table.

(** ** More on the frequency matrix: what masking and filtering keep *)

Module Frequency.
Import Py Matrix.

(** A sample for which [annotate_non_covered_regions] finds no coverage
    file. *)
Definition without_file (files : list tsv_file) (file_name : string) : Prop :=
  Forall (λ file, tsv_stem file ≠ file_name) files.

#[export] Instance without_file_dec files file_name : Decision (without_file files file_name).
Proof. unfold without_file. apply _. Defined.

(** *** Facts *)

Lemma filter_nil_iff {A} (P : A → Prop) `{∀ x, Decision (P x)} (l : list A) :
  filter P l = [] ↔ Forall (λ x, ¬ P x) l.
Proof.
  induction l as [|x l IH]; [done|]. rewrite filter_cons.
  destruct (decide (P x)) as [Hx|Hx].
  - split; [done|]. intros HF. apply Forall_cons in HF as [? _]. done.
  - rewrite IH. split; [by constructor|]. by intros [_ ?]%Forall_cons.
Qed.

(** The warnings of the loop over the samples: one for every sample
    without a file, in the order of the samples. *)
Lemma annotate_samples_printed files min_coverage unique_mutations reference :
  ∀ names frequency_array printed frequency_array' printed',
  for_each (annotate_sample files min_coverage unique_mutations reference)
    (frequency_array, printed) (imap pair names) = Ok (frequency_array', printed') →
  printed' = printed ++ (Vcf.NotInTsvFiles <$> filter (without_file files) names).
Proof.
  induction names as [|file_name names IH] using rev_ind;
    intros fa printed fa' printed'.
  - simpl. intros [= <- <-]. by rewrite app_nil_r.
  - rewrite imap_app, for_each_app. simpl.
    intros ([mid pmid] & Hmid & Hlast)%bind_Ok.
    apply IH in Hmid as ->.
    apply bind_Ok in Hlast as ([fa1 p1] & Hlast & [= -> ->]).
    unfold annotate_sample in Hlast.
    rewrite filter_app, fmap_app, filter_cons, filter_nil.
    destruct (filter (λ file, tsv_stem file = file_name) files) as [|tsv_file others] eqn:Hfiles.
    + injection Hlast as <- <-. apply filter_nil_iff in Hfiles.
      rewrite decide_True by done. by rewrite <- app_assoc.
    + apply bind_Ok in Hlast as (array0 & Ha0 & Hlast).
      apply bind_Ok in Hlast as (array1 & Ha1 & [= <- <-]).
      rewrite decide_False; [by rewrite !app_nil_r|].
      intros Hno. apply (filter_nil_iff (λ file, tsv_stem file = file_name)) in Hno.
      congruence.
Qed.

Lemma remove_from_sublist {A} (l : list A) : ∀ j idxs, remove_from j idxs l `sublist_of` l.
Proof.
  induction l as [|x l IH]; intros j idxs; simpl; [done|].
  destruct (decide (j ∈ idxs)).
  - by apply sublist_cons.
  - by apply sublist_skip.
Qed.

(** A filter keeps the axis aligned with the matrix. *)
Lemma delete_columns_aligned test frequency_array unique_mutations h rows axis n deleted h' :
  h !! frequency_array = Some (ObjArray rows) →
  Forall (λ row, length row = n) rows →
  h !! unique_mutations = Some (ObjList axis) →
  length axis = n →
  delete_columns test frequency_array unique_mutations h = Ok (deleted, h') →
  ∃ rows' axis',
    h' !! deleted = Some (ObjArray rows')
    ∧ h' !! unique_mutations = Some (ObjList axis')
    ∧ length rows' = length rows
    ∧ Forall (λ row, length row = length axis') rows'
    ∧ axis' `sublist_of` axis
    ∧ ∀ i label, axis' !! i = Some label →
        ∃ k, axis !! k = Some label
             ∧ column rows' i = column rows k
             ∧ flagged test rows k = false.
Proof.
  intros Hfa Hrect Hum Hlen Hrun.
  destruct (delete_columns_effect _ _ _ _ _ _ Hrun)
    as (rows0 & D & Hfa' & Hdel & Hfresh & Hnew & _ & Haxis & _).
  assert (rows0 = rows) as -> by congruence.
  specialize (Haxis _ Hum).
  exists (np_delete_columns rows D), (remove_from 0 D axis).
  split; [done|]. split; [done|].
  split; [unfold np_delete_columns; by rewrite length_fmap|].
  split; [|split].
  - unfold np_delete_columns. apply Forall_fmap.
    eapply Forall_impl; [exact Hrect|]. intros row Hrow. simpl.
    rewrite (length_remove_from row), (length_remove_from axis). by rewrite Hrow, Hlen.
  - apply remove_from_sublist.
  - intros i label Hi. rewrite remove_from_lookup, Hlen in Hi.
    fold (kept n D) in Hi.
    destruct (kept n D !! i) as [k|] eqn:Hk; [|done]. simpl in Hi.
    rewrite Nat.sub_0_r in Hi. exists k. split; [done|].
    split; [by apply (column_after_delete rows n)|].
    apply remove_from_seq_bounds in Hk as [Hkn Hkout].
    destruct (columns_to_delete_flagged _ _ _ Hdel) as (first & Hfirst & HD & _ & _).
    assert (length first = n) as Hn.
    { rewrite Forall_forall in Hrect. apply Hrect. by eapply list_elem_of_lookup_2. }
    destruct (flagged test rows k) eqn:Hflag; [|done].
    exfalso. apply Hkout. rewrite HD. apply list_elem_of_filter. split; [done|].
    apply elem_of_seq. lia.
Qed.

(** *** Main theorems *)

(** X18.  Masking only masks.  The result of
    [annotate_non_covered_regions] has the rows of the array it was given;
    each cell keeps its value or becomes [nan], and the mask is set exactly
    on the cells that hold [nan]. *)
Theorem annotate_non_covered_regions_only_masks files min_coverage frequency_array
    file_names unique_mutations reference masked printed :
  annotate_non_covered_regions files min_coverage frequency_array file_names
    unique_mutations reference = Ok (masked, printed) →
  length (data masked) = length frequency_array
  ∧ ∀ i j frequency,
      (frequency_array !! i ≫= (.!! j)) = Some frequency →
      ∃ cell, (data masked !! i ≫= (.!! j)) = Some cell
        ∧ (cell = frequency ∨ cell = nan)
        ∧ (mask masked !! i ≫= (.!! j)) = Some (PrimFloat.is_nan cell).
Proof.
  intros Hrun. unfold annotate_non_covered_regions in Hrun.
  apply bind_Ok in Hrun as ([fa' pr] & Hloop & [= <- <-]). simpl.
  assert (length fa' = length frequency_array
          ∧ ∀ i j frequency,
              (frequency_array !! i ≫= (.!! j)) = Some frequency →
              ∃ cell, (fa' !! i ≫= (.!! j)) = Some cell
                      ∧ (cell = frequency ∨ cell = nan)) as [Hlen Hcells].
  { destruct files as [|file0 files0].
    { injection Hloop as <- <-. split; [done|]. intros i j x Hx. exists x. by split; [|left]. }
    apply annotate_samples_rows in Hloop as [Hlen Hrows]; [|rewrite length_take; lia].
    split; [done|]. intros i j x Hx.
    destruct (frequency_array !! i) as [array|] eqn:Harray; [|done]. simpl in Hx.
    specialize (Hrows _ _ Harray).
    destruct (take (length frequency_array) file_names !! i) as [file_name|].
    - destruct (filter (λ file, tsv_stem file = file_name) (file0 :: files0))
        as [|tsv_file others].
      + rewrite Hrows. simpl. exists x. by split; [|left].
      + destruct Hrows as (array' & Hrow & ->). simpl.
        apply annotate_row_cells in Hrow as [Hl Hc]. specialize (Hc _ _ Hx).
        destruct (unique_mutations !! j) as [mutation|].
        * destruct (Vcf.mutation_position mutation) as [mut_pos|].
          -- rewrite Hc. eexists. split; [done|].
             destruct (not_covered _ _ _ _); [by right|by left].
          -- apply lookup_lt_Some in Hx. apply lookup_ge_None in Hc. lia.
        * rewrite Hc. exists x. by split; [|left].
    - rewrite Hrows. simpl. exists x. by split; [|left]. }
  split; [done|]. intros i j x Hx.
  destruct (Hcells i j x Hx) as (cell & Hcell & Hor).
  exists cell. split; [done|]. split; [done|].
  rewrite list_lookup_fmap.
  destruct (fa' !! i) as [row|]; [|done]. simpl in *.
  by rewrite list_lookup_fmap, Hcell.
Qed.

(** X19.  A sample without a coverage file keeps its row, and one warning
    is printed for each such sample, in the order of the samples; with an
    empty coverage directory nothing is printed at all. *)
Theorem annotate_non_covered_regions_without_file files min_coverage frequency_array
    file_names unique_mutations reference masked printed :
  annotate_non_covered_regions files min_coverage frequency_array file_names
    unique_mutations reference = Ok (masked, printed) →
  (∀ i array file_name,
     frequency_array !! i = Some array → file_names !! i = Some file_name →
     without_file files file_name → data masked !! i = Some array)
  ∧ printed = match files with
              | [] => []
              | _ => Vcf.NotInTsvFiles
                       <$> filter (without_file files)
                             (take (length frequency_array) file_names)
              end.
Proof.
  intros Hrun. unfold annotate_non_covered_regions in Hrun.
  apply bind_Ok in Hrun as ([fa' pr] & Hloop & [= <- <-]). simpl.
  destruct files as [|file0 files0].
  { injection Hloop as <- <-. split; [|done]. by intros i array file_name Hi. }
  split.
  - apply annotate_samples_rows in Hloop as [Hlen Hrows]; [|rewrite length_take; lia].
    intros i array file_name Hi Hname Hno. specialize (Hrows _ _ Hi).
    rewrite lookup_take_lt in Hrows by (apply lookup_lt_Some in Hi; lia).
    rewrite Hname in Hrows.
    apply (filter_nil_iff (λ file, tsv_stem file = file_name)) in Hno.
    by rewrite Hno in Hrows.
  - by apply annotate_samples_printed in Hloop as ->.
Qed.

(** X20.  After [delete_n_mutations] every column that is left has more
    than [min_mut] samples with a frequency above zero, and a second call
    with the same [min_mut] deletes nothing more. *)
Theorem delete_n_mutations_survivors frequency_array unique_mutations min_mut h rows axis
    deleted h1 :
  h !! frequency_array = Some (ObjArray rows) →
  rectangular rows →
  h !! unique_mutations = Some (ObjList axis) →
  delete_n_mutations frequency_array unique_mutations min_mut h = Ok (deleted, h1) →
  ∃ rows1 axis1 deleted2 h2,
    h1 !! deleted = Some (ObjArray rows1)
    ∧ h1 !! unique_mutations = Some (ObjList axis1)
    ∧ (∀ first idx, rows1 !! 0%nat = Some first → (idx < length first)%nat →
         ∃ check_all,
           column rows1 idx = Ok check_all
           ∧ min_mut < Z.of_nat (length (filter (λ x, PrimFloat.ltb 0 x = true) check_all)))
    ∧ delete_n_mutations deleted unique_mutations min_mut h1 = Ok (deleted2, h2)
    ∧ h2 !! deleted2 = Some (ObjArray rows1)
    ∧ h2 !! unique_mutations = Some (ObjList axis1).
Proof.
  intros Hfa Hrect Hum Hrun.
  destruct (delete_columns_again _ _ _ _ _ _ _ _ Hfa Hrect Hum Hrun)
    as (rows1 & axis1 & deleted2 & h2 & H1 & H2 & _ & H4 & H5 & H6 & H7).
  exists rows1, axis1, deleted2, h2. repeat split; try done.
  intros first idx Hfirst Hidx.
  destruct (H7 first idx Hfirst Hidx) as (check_all & Hcol & Htest).
  exists check_all. split; [done|].
  unfold rare_column in Htest. injection Htest as Htest. by apply Z.leb_gt in Htest.
Qed.

(** X21.  Both filters keep labels and columns together: when the axis
    list has one label per column before the call, it has one label per
    column of the returned matrix after it; the labels that are left keep
    their order; and the column returned under a label holds the
    frequencies that stood under that label before, none of them
    altered. *)
Theorem filters_keep_axis_aligned frequency_array unique_mutations min_mut h rows axis n
    deleted h' :
  h !! frequency_array = Some (ObjArray rows) →
  Forall (λ row, length row = n) rows →
  h !! unique_mutations = Some (ObjList axis) →
  length axis = n →
  delete_common_mutations frequency_array unique_mutations h = Ok (deleted, h')
  ∨ delete_n_mutations frequency_array unique_mutations min_mut h = Ok (deleted, h') →
  ∃ rows' axis',
    h' !! deleted = Some (ObjArray rows')
    ∧ h' !! unique_mutations = Some (ObjList axis')
    ∧ length rows' = length rows
    ∧ Forall (λ row, length row = length axis') rows'
    ∧ axis' `sublist_of` axis
    ∧ ∀ i label, axis' !! i = Some label →
        ∃ k, axis !! k = Some label ∧ column rows' i = column rows k.
Proof.
  intros Hfa Hrect Hum Hlen [Hrun|Hrun];
    destruct (delete_columns_aligned _ _ _ _ _ _ _ _ _ Hfa Hrect Hum Hlen Hrun)
      as (rows' & axis' & H1 & H2 & H3 & H4 & H5 & H6);
    exists rows', axis'; repeat split; try done;
    intros i label Hi; destruct (H6 i label Hi) as (k & Hk & Hcol & _); by exists k.
Qed.

(** *** Worked examples *)

(** Sample [s1] has a coverage file, sample [s2] has none. *)
Lemma annotate_non_covered_regions_only_masks_witness :
  ∃ masked printed,
    annotate_non_covered_regions [coverage_s1] 10 frequencies ["s1"; "s2"] axis5 "ref"
    = Ok (masked, printed)
    ∧ length (data masked) = 2%nat
    ∧ data masked !! 0%nat = Some [nan; 0; nan; 0.5; nan]%float.
Proof.
  eexists _, _. split; [vm_compute; reflexivity|]. split; [|vm_compute; reflexivity].
  refine (proj1 (annotate_non_covered_regions_only_masks [coverage_s1] 10 frequencies
            ["s1"; "s2"] axis5 "ref" _ _ _)).
  vm_compute; reflexivity.
Defined.

Lemma annotate_non_covered_regions_without_file_witness :
  ∃ masked printed,
    annotate_non_covered_regions [coverage_s1] 10 frequencies ["s1"; "s2"] axis5 "ref"
    = Ok (masked, printed)
    ∧ data masked !! 1%nat = Some [0; 0; 0; 0.5; 0.5]%float
    ∧ printed = [Vcf.NotInTsvFiles "s2"].
Proof.
  eexists _, _. split; [vm_compute; reflexivity|].
  destruct (annotate_non_covered_regions_without_file [coverage_s1] 10 frequencies
              ["s1"; "s2"] axis5 "ref" _ _ eq_refl) as [Hrow Hprinted].
  split.
  - apply (Hrow 1%nat _ "s2"); [reflexivity|reflexivity|].
    apply Forall_cons_2; [discriminate|apply Forall_nil_2].
  - vm_compute. reflexivity.
Defined.

(** Of the five columns of [caller_rows], two have more than two samples
    with a frequency above zero. *)
Lemma delete_n_mutations_survivors_witness :
  ∃ deleted h1 rows1 axis1 deleted2 h2,
    delete_n_mutations 0 1 2 caller_heap = Ok (deleted, h1)
    ∧ h1 !! deleted = Some (ObjArray rows1)
    ∧ h1 !! 1%nat = Some (ObjList axis1)
    ∧ delete_n_mutations deleted 1 2 h1 = Ok (deleted2, h2)
    ∧ h2 !! deleted2 = Some (ObjArray rows1)
    ∧ h2 !! 1%nat = Some (ObjList axis1).
Proof.
  destruct (delete_n_mutations 0 1 2 caller_heap) as [[deleted h1]|e] eqn:E;
    [|vm_compute in E; discriminate].
  destruct (delete_n_mutations_survivors 0 1 2 caller_heap caller_rows axis5 deleted h1)
    as (rows1 & axis1 & deleted2 & h2 & H1 & H2 & _ & H3 & H4 & H5);
    [reflexivity | exists 5%nat; repeat constructor | reflexivity | exact E |].
  by exists deleted, h1, rows1, axis1, deleted2, h2.
Defined.

Lemma filters_keep_axis_aligned_witness :
  ∃ deleted h' rows' axis',
    delete_common_mutations 0 1 caller_heap = Ok (deleted, h')
    ∧ h' !! deleted = Some (ObjArray rows')
    ∧ h' !! 1%nat = Some (ObjList axis')
    ∧ Forall (λ row, length row = length axis') rows'
    ∧ axis' `sublist_of` axis5.
Proof.
  destruct (delete_common_mutations 0 1 caller_heap) as [[deleted h']|e] eqn:E;
    [|vm_compute in E; discriminate].
  destruct (filters_keep_axis_aligned 0 1 0 caller_heap caller_rows axis5 5%nat deleted h')
    as (rows' & axis' & H1 & H2 & _ & H3 & H4 & _);
    [reflexivity | repeat constructor | reflexivity | reflexivity | left; exact E |].
  by exists deleted, h', rows', axis'.
Defined.

End Frequency.

(** ** The annotation index, continued: what [parse_gff3] stores, and
    [get_genome_end] *)

Module Genome.
Import Py Gff.

(** The message of [sys.exit] when the index has no [region] features. *)
Definition region_missing : exn :=
  SystemExit (error_prefix +:+ "Region annotation is missing in the gff3!").

(** The body of the loop of [get_genome_end] over the region features:
    [stop > genome_end] orders an [int] against an [int], and raises for a
    [str]. *)
Definition longer_region (genome_end : Z) (entry : string * gmap string gffval) : result Z :=
  stop ← getitem entry.2 "stop";
  match stop with
  | GInt stop => Ok (if genome_end <? stop then stop else genome_end)
  | GStr _ => Raise TypeError
  end.

Section WithDictOrder.

(** The order in which Python iterates over the keys of a dictionary is
    the order of their insertion, which a [gmap] does not record: it is
    taken as a parameter. *)
Variable dict_iter :
  gmap string (gmap string gffval) → list (string * gmap string gffval).

(** [get_genome_end]. *)
Definition get_genome_end (gff3_dict : gmap string (gmap string (gmap string gffval)))
  : result Z :=
  match gff3_dict !! "region" with
  | None => Raise region_missing
  | Some region => for_each longer_region 0 (dict_iter region)
  end.

End WithDictOrder.

(** A feature with its coordinates: [start] and [stop] are integers and
    [strand] is text. *)
Definition complete (attributes : gmap string gffval) : Prop :=
  ∃ start stop strand,
    attributes !! "start" = Some (GInt start)
    ∧ attributes !! "stop" = Some (GInt stop)
    ∧ attributes !! "strand" = Some (GStr strand).

Definition all_complete (d : gmap string (gmap string (gmap string gffval))) : Prop :=
  ∀ type features id attributes,
    d !! type = Some features → features !! id = Some attributes → complete attributes.

(** The same while a line is being read: the feature named by
    [attribute_id] under the type of the line may still lack them. *)
Definition complete_but (type : string) (attribute_id : option string)
    (d : gmap string (gmap string (gmap string gffval))) : Prop :=
  ∀ t features id attributes,
    d !! t = Some features → features !! id = Some attributes →
    (t = type ∧ attribute_id = Some id) ∨ complete attributes.

(** An indexed line names its feature once: after the leading [ID=], no
    attribute is called [ID]. *)
Definition one_id (reference line : string) : bool :=
  if skips reference line then true
  else
    match split ";"%char (default "" (split Vcf.tab (strip line) !! 8%nat)) with
    | _ :: others =>
        forallb (λ attribute,
                   negb (String.eqb (List.hd "" (split "="%char attribute)) "ID")) others
    | [] => true
    end.

(** One attribute of one feature of an index that [parse_gff3] returned. *)
Definition attribute_of (r : result (gmap string (gmap string (gmap string gffval))))
    (type id key : string) : option gffval :=
  match r with
  | Ok d => features ← d !! type; attributes ← features !! id; attributes !! key
  | Raise _ => None
  end.

(** An index with two regions. *)
Definition two_regions : gmap string (gmap string (gmap string gffval)) :=
  {[ "region" := {[ "r1" := {[ "stop" := GInt 100 ]}; "r2" := {[ "stop" := GInt 250 ]} ]} ]}.

(** *** Facts *)

Lemma for_each_preserves {A S} (body : S → A → result S) (I : S → Prop) l :
  (∀ s x s', x ∈ l → I s → body s x = Ok s' → I s') →
  ∀ s s', I s → for_each body s l = Ok s' → I s'.
Proof.
  induction l as [|x l IH]; intros Hbody s s' Hs; simpl.
  - by intros [= <-].
  - intros (s1 & H1 & H2)%bind_Ok.
    apply (IH (λ s0 y s0' Hy, Hbody s0 y s0' (list_elem_of_further _ _ _ Hy)) s1 s');
      [|done].
    eapply Hbody; [left|exact Hs|exact H1].
Qed.

Lemma set_attribute_Ok d type a key v d' :
  set_attribute d type a key v = Ok d' →
  ∃ features id attributes,
    a = Some id ∧ d !! type = Some features ∧ features !! id = Some attributes
    ∧ d' = <[type := <[id := <[key := v]> attributes]> features]> d.
Proof.
  unfold set_attribute, getitem. intros (features & Hf & H)%bind_Ok.
  apply bind_Ok in H as (id & Hid & H). apply bind_Ok in H as (attrs & Hattrs & [= <-]).
  destruct (d !! type) as [f|] eqn:Hd; [injection Hf as ->|done].
  destruct a as [id'|]; [injection Hid as ->|done].
  destruct (features !! id) as [at'|] eqn:Hfe; [injection Hattrs as ->|done].
  by exists features, id, attrs.
Qed.

Lemma all_complete_but type a d : all_complete d → complete_but type a d.
Proof. intros H t features id attrs Ht Hid. right. by eapply H. Qed.

Lemma set_attribute_but type a d key v d' :
  set_attribute d type a key v = Ok d' → complete_but type a d → complete_but type a d'.
Proof.
  intros (features & id & attrs & -> & Hf & Hattrs & ->)%set_attribute_Ok Hbut.
  intros t features' id' attrs' Ht Hid'.
  destruct (decide (t = type)) as [->|Hne].
  - rewrite lookup_insert_eq in Ht. injection Ht as <-.
    destruct (decide (id' = id)) as [->|Hne]; [by left|].
    rewrite lookup_insert_ne in Hid' by done. by eapply Hbut.
  - rewrite lookup_insert_ne in Ht by done. by eapply Hbut.
Qed.

Lemma new_feature_but type val d d' :
  new_feature d type val = Ok d' → all_complete d → complete_but type (Some val) d'.
Proof.
  unfold new_feature, getitem. intros (features & Hf & [= <-])%bind_Ok Hall.
  destruct (d !! type) as [f|] eqn:Hd; [injection Hf as ->|done].
  intros t features' id attrs Ht Hid.
  destruct (decide (t = type)) as [->|Hne].
  - rewrite lookup_insert_eq in Ht. injection Ht as <-.
    destruct (decide (id = val)) as [->|Hne]; [by left|].
    rewrite lookup_insert_ne in Hid by done. right. by eapply Hall.
  - rewrite lookup_insert_ne in Ht by done. right. by eapply Hall.
Qed.

(** The first attribute of an indexed line. *)
Lemma parse_attribute_first type d a attribute d' a' :
  parse_attribute type (d, a) attribute = Ok (d', a') →
  all_complete d → complete_but type a' d'.
Proof.
  unfold parse_attribute.
  destruct (split "="%char attribute) as [|identifier [|val [|]]]; try done.
  intros ([d1 a1] & H1 & H2)%bind_Ok Hall.
  assert (complete_but type a1 d1) as Hbut.
  { destruct (_ && _).
    - apply bind_Ok in H1 as (d2 & H1 & [= <- <-]). by eapply new_feature_but.
    - injection H1 as <- <-. by apply all_complete_but. }
  destruct (bool_decide (identifier ≠ "ID")); [|by injection H2 as <- <-].
  apply bind_Ok in H2 as (d2 & H2 & [= <- <-]). by eapply set_attribute_but.
Qed.

(** An attribute that is not called [ID]. *)
Lemma parse_attribute_other type d a attribute d' a' :
  List.hd "" (split "="%char attribute) ≠ "ID" →
  parse_attribute type (d, a) attribute = Ok (d', a') →
  complete_but type a d → a' = a ∧ complete_but type a d'.
Proof.
  unfold parse_attribute. intros Hne.
  destruct (split "="%char attribute) as [|identifier [|val [|]]]; try done.
  simpl in Hne. rewrite (bool_decide_eq_false_2 (identifier = "ID")) by done.
  cbn [andb mbind result_bind].
  rewrite (bool_decide_eq_true_2 (identifier ≠ "ID")) by done.
  intros (d2 & H2 & [= <- <-])%bind_Ok Hbut. split; [done|].
  by eapply set_attribute_but.
Qed.

Lemma parse_attributes_other type attributes : ∀ d a d' a',
  Forall (λ attribute, List.hd "" (split "="%char attribute) ≠ "ID") attributes →
  for_each (parse_attribute type) (d, a) attributes = Ok (d', a') →
  complete_but type a d → a' = a ∧ complete_but type a d'.
Proof.
  induction attributes as [|attribute attributes IH]; intros d a d' a' Hne; simpl.
  - by intros [= <- <-].
  - apply Forall_cons in Hne as [Hne Hrest].
    intros ([d1 a1] & H1 & H2)%bind_Ok Hbut.
    destruct (parse_attribute_other _ _ _ _ _ _ Hne H1 Hbut) as [-> Hbut1].
    by eapply IH.
Qed.

(** The three assignments that end a line complete its feature. *)
Lemma set_coordinates type a d start stop strand d1 d2 d3 :
  set_attribute d type a "start" (GInt start) = Ok d1 →
  set_attribute d1 type a "stop" (GInt stop) = Ok d2 →
  set_attribute d2 type a "strand" (GStr strand) = Ok d3 →
  complete_but type a d → all_complete d3.
Proof.
  intros H1 H2 H3 Hbut.
  assert (complete_but type a d3) as Hbut3.
  { eapply set_attribute_but; [exact H3|]. eapply set_attribute_but; [exact H2|].
    by eapply set_attribute_but. }
  apply set_attribute_Ok in H1 as (f1 & id & at1 & -> & Hf1 & Hat1 & ->).
  apply set_attribute_Ok in H2 as (f2 & id2 & at2 & [= <-] & Hf2 & Hat2 & ->).
  apply set_attribute_Ok in H3 as (f3 & id3 & at3 & [= <-] & Hf3 & Hat3 & ->).
  rewrite lookup_insert_eq in Hf2. injection Hf2 as <-.
  rewrite lookup_insert_eq in Hat2. injection Hat2 as <-.
  rewrite lookup_insert_eq in Hf3. injection Hf3 as <-.
  rewrite lookup_insert_eq in Hat3. injection Hat3 as <-.
  intros t features id' attrs Ht Hid'.
  destruct (Hbut3 t features id' attrs Ht Hid') as [[-> [= <-]]|Hc]; [|done].
  rewrite lookup_insert_eq in Ht. injection Ht as <-.
  rewrite lookup_insert_eq in Hid'. injection Hid' as <-.
  exists start, stop, strand.
  rewrite lookup_insert_ne by done. rewrite lookup_insert_ne by done.
  rewrite lookup_insert_eq. rewrite lookup_insert_ne by done.
  rewrite !lookup_insert_eq. done.
Qed.

Lemma parse_line_complete reference d a line d' a' :
  one_id reference line = true →
  parse_line reference (d, a) line = Ok (d', a') →
  all_complete d → all_complete d'.
Proof.
  unfold one_id, skips, parse_line, index.
  destruct (startswith line reference); simpl; [|by intros _ [= <- <-]].
  destruct (split Vcf.tab (strip line) !! 8%nat) as [attributes|]; [|done]. simpl.
  destruct (startswith attributes "ID=") eqn:Hstart; simpl; [|by intros _ [= <- <-]].
  intros Hone H Hall.
  apply bind_Ok in H as (type & _ & H).
  set (d0 := match d !! type with None => <[type := ∅]> d | Some _ => d end) in H.
  assert (all_complete d0) as Hall0.
  { unfold d0. destruct (d !! type) eqn:Hd; [done|].
    intros t features id attrs Ht Hid.
    destruct (decide (t = type)) as [->|Hne].
    - rewrite lookup_insert_eq in Ht. injection Ht as <-. by rewrite lookup_empty in Hid.
    - rewrite lookup_insert_ne in Ht by done. by eapply Hall. }
  apply bind_Ok in H as ([d1 a1] & H1 & H).
  destruct (split ";"%char attributes) as [|first others] eqn:Hsplit;
    [by destruct (split_nonempty _ _ Hsplit)|].
  cbn [for_each] in H1. apply bind_Ok in H1 as ([d1' a1'] & Hfirst & Hothers).
  apply parse_attribute_first in Hfirst; [|done].
  apply parse_attributes_other in Hothers as [-> Hbut]; [|..|done].
  2:{ apply Forall_forall. intros attribute Hin. rewrite forallb_forall in Hone.
      specialize (Hone attribute ltac:(by apply list_elem_of_In)).
      apply negb_true_iff in Hone. by apply String.eqb_neq in Hone. }
  apply bind_Ok in H as (start & _ & H). apply bind_Ok in H as (d2 & H2 & H).
  apply bind_Ok in H as (stop & _ & H). apply bind_Ok in H as (d3 & H3 & H).
  apply bind_Ok in H as (strand & _ & H). apply bind_Ok in H as (d4 & H4 & [= <- <-]).
  by eapply set_coordinates.
Qed.

Lemma longer_region_cases genome_end (entry : string * gmap string gffval) :
  longer_region genome_end entry
  = match entry.2 !! "stop" with
    | Some (GInt stop) => Ok (if genome_end <? stop then stop else genome_end)
    | Some (GStr _) => Raise TypeError
    | None => Raise (KeyError "stop")
    end.
Proof. unfold longer_region, getitem. by destruct (entry.2 !! "stop") as [[]|]. Qed.

(** The loop of [get_genome_end], from any starting value. *)
Lemma genome_loop entries : ∀ genome_end,
  match for_each longer_region genome_end entries with
  | Ok n =>
      genome_end ≤ n
      ∧ Forall (λ entry : string * gmap string gffval,
                  ∃ stop, entry.2 !! "stop" = Some (GInt stop) ∧ stop ≤ n) entries
      ∧ (n = genome_end
         ∨ Exists (λ entry : string * gmap string gffval,
                     entry.2 !! "stop" = Some (GInt n)) entries)
  | Raise e =>
      Exists (λ entry : string * gmap string gffval,
                (entry.2 !! "stop" = None ∧ e = KeyError "stop")
                ∨ (∃ s, entry.2 !! "stop" = Some (GStr s) ∧ e = TypeError)) entries
  end.
Proof.
  induction entries as [|entry entries IH]; intros acc.
  - simpl. split; [lia|]. split; [constructor|by left].
  - cbn [for_each]. rewrite longer_region_cases.
    destruct (entry.2 !! "stop") as [[s|stop]|] eqn:Hstop; cbn [mbind result_bind].
    + apply Exists_cons_hd. right. by exists s.
    + specialize (IH (if acc <? stop then stop else acc)).
      destruct (for_each longer_region _ entries) as [n|e].
      * destruct IH as (Hle & Hall & Hor).
        assert (acc ≤ n ∧ stop ≤ n) as [? ?] by (destruct (Z.ltb_spec acc stop); lia).
        split; [done|]. split; [constructor; [by exists stop|done]|].
        destruct Hor as [->|Hex]; [|right; by apply Exists_cons_tl].
        destruct (Z.ltb_spec acc stop); [right; by apply Exists_cons_hd|by left].
      * by apply Exists_cons_tl.
    + apply Exists_cons_hd. by left.
Qed.

Lemma parse_lines_complete reference file : ∀ d a d' a',
  forallb (one_id reference) file = true →
  for_each (parse_line reference) (d, a) file = Ok (d', a') →
  all_complete d → all_complete d'.
Proof.
  induction file as [|line file IH]; intros d a d' a' Hone; simpl.
  - by intros [= <- <-].
  - simpl in Hone. apply andb_prop in Hone as [Hline Hrest].
    intros ([d1 a1] & H1 & H2)%bind_Ok Hall.
    eapply IH; [done|exact H2|]. by eapply parse_line_complete.
Qed.

Lemma parse_lines_skipped reference file : ∀ s,
  for_each (parse_line reference) s (filter (λ line, skips reference line = false) file)
  = for_each (parse_line reference) s file.
Proof.
  induction file as [|line file IH]; intros s; [done|].
  rewrite filter_cons. destruct (skips reference line) eqn:Hskip.
  - rewrite decide_False by done. cbn [for_each].
    rewrite parse_line_skips by done. apply IH.
  - rewrite decide_True by done. cbn [for_each].
    destruct (parse_line reference s line); [apply IH|done].
Qed.

(** *** Main theorems *)

(** X22.  [parse_gff3] reads only the lines of the reference whose ninth
    field starts with [ID=]: removing every other line from the file,
    comments and features without an id included, changes neither the
    index it returns nor the exception it raises. *)
Theorem parse_gff3_ignores_other_lines file reference :
  parse_gff3 (filter (λ line, skips reference line = false) file) reference
  = parse_gff3 file reference.
Proof. unfold parse_gff3. by rewrite parse_lines_skipped. Qed.

(** X23.  When every indexed line names its feature once, each feature of
    the index that [parse_gff3] returns has an integer [start], an integer
    [stop] and a [strand], whatever attributes its line carries. *)
Theorem parse_gff3_features_complete file reference gff3_dict :
  forallb (one_id reference) file = true →
  parse_gff3 file reference = Ok gff3_dict →
  ∀ type features id attributes,
    gff3_dict !! type = Some features → features !! id = Some attributes →
    ∃ start stop strand,
      attributes !! "start" = Some (GInt start)
      ∧ attributes !! "stop" = Some (GInt stop)
      ∧ attributes !! "strand" = Some (GStr strand).
Proof.
  intros Hone. unfold parse_gff3. intros ([d a] & Hrun & H)%bind_Ok.
  destruct (decide (dom d = ∅)) as [|Hdom]; [done|]. injection H as <-.
  apply (parse_lines_complete reference file ∅ None d a Hone Hrun).
  intros type features id attrs Ht. by rewrite lookup_empty in Ht.
Qed.

(** X24.  [get_genome_end] exits when the index has no [region] type.
    Otherwise it returns the largest [stop] of the region features, and 0
    when none of them has a positive [stop]; it raises [KeyError] for a
    region feature without a [stop] and [TypeError] for one whose [stop]
    is not a number. *)
Theorem get_genome_end_largest_stop dict_iter gff3_dict :
  (∀ region, dict_iter region ≡ₚ map_to_list region) →
  match get_genome_end dict_iter gff3_dict with
  | Ok genome_end =>
      ∃ region,
        gff3_dict !! "region" = Some region
        ∧ 0 ≤ genome_end
        ∧ (∀ id attributes, region !! id = Some attributes →
             ∃ stop, attributes !! "stop" = Some (GInt stop) ∧ stop ≤ genome_end)
        ∧ (genome_end = 0
           ∨ ∃ id attributes, region !! id = Some attributes
                              ∧ attributes !! "stop" = Some (GInt genome_end))
  | Raise e =>
      (gff3_dict !! "region" = None ∧ e = region_missing)
      ∨ ∃ region id attributes,
          gff3_dict !! "region" = Some region
          ∧ region !! id = Some attributes
          ∧ ((attributes !! "stop" = None ∧ e = KeyError "stop")
             ∨ (∃ s, attributes !! "stop" = Some (GStr s) ∧ e = TypeError))
  end.
Proof.
  intros Hperm. unfold get_genome_end.
  destruct (gff3_dict !! "region") as [region|] eqn:Hregion; [|by left].
  pose proof (genome_loop (dict_iter region) 0) as Hloop.
  assert (∀ id attrs, (id, attrs) ∈ dict_iter region ↔ region !! id = Some attrs) as Hin.
  { intros id attrs. rewrite Hperm. apply elem_of_map_to_list. }
  destruct (for_each longer_region 0 (dict_iter region)) as [n|e].
  - destruct Hloop as (Hle & Hall & Hor). exists region.
    split; [done|]. split; [done|]. split.
    + intros id attrs Hid. rewrite Forall_forall in Hall.
      apply (Hall (id, attrs)). by apply Hin.
    + destruct Hor as [->|Hex]; [by left|]. right.
      apply Exists_exists in Hex as ([id attrs] & Hentry & Hstop).
      apply Hin in Hentry. by exists id, attrs.
  - right. apply Exists_exists in Hloop as ([id attrs] & Hentry & Hbad).
    apply Hin in Hentry. by exists region, id, attrs.
Qed.

(** X25.  [parse_gff3] followed by [get_genome_end]: on an index built from
    lines that name their feature once, [get_genome_end] raises neither
    [KeyError] nor [TypeError].  It returns a bound of every region
    [stop] when the file has an indexed [region] line, and exits with the
    region-missing message when it has none. *)
Theorem get_genome_end_of_parse_gff3 dict_iter file reference gff3_dict :
  (∀ region, dict_iter region ≡ₚ map_to_list region) →
  forallb (one_id reference) file = true →
  parse_gff3 file reference = Ok gff3_dict →
  match gff3_dict !! "region" with
  | Some region =>
      ∃ genome_end,
        get_genome_end dict_iter gff3_dict = Ok genome_end
        ∧ ∀ id attributes, region !! id = Some attributes →
            ∃ stop, attributes !! "stop" = Some (GInt stop) ∧ stop ≤ genome_end
  | None => get_genome_end dict_iter gff3_dict = Raise region_missing
  end.
Proof.
  intros Hperm Hone. unfold parse_gff3. intros ([d a] & Hrun & H)%bind_Ok.
  destruct (decide (dom d = ∅)) as [|Hdom]; [done|]. injection H as <-.
  assert (all_complete d) as Hall.
  { apply (parse_lines_complete reference file ∅ None d a Hone Hrun).
    intros type features id attrs Ht. by rewrite lookup_empty in Ht. }
  destruct (d !! "region") as [region|] eqn:Hregion;
    [|unfold get_genome_end; by rewrite Hregion].
  unfold get_genome_end. rewrite Hregion.
  pose proof (genome_loop (dict_iter region) 0) as Hloop.
  assert (∀ id attrs, (id, attrs) ∈ dict_iter region ↔ region !! id = Some attrs) as Hin.
  { intros id attrs. rewrite Hperm. apply elem_of_map_to_list. }
  destruct (for_each longer_region 0 (dict_iter region)) as [n|e].
  - destruct Hloop as (_ & Hbound & _). exists n. split; [done|].
    intros id attrs Hid. rewrite Forall_forall in Hbound.
    apply (Hbound (id, attrs)). by apply Hin.
  - exfalso. apply Exists_exists in Hloop as ([id attrs] & Hentry & Hbad).
    apply Hin in Hentry.
    destruct (Hall "region" region id attrs Hregion Hentry) as (st & sp & sd & _ & Hsp & _).
    simpl in Hbad. destruct Hbad as [[Hnone _]|(s & Hs & _)]; congruence.
Qed.

(** *** Worked examples *)

Lemma parse_gff3_features_complete_witness :
  ∃ gff3_dict features attributes,
    parse_gff3 three_genes "ref" = Ok gff3_dict
    ∧ gff3_dict !! "gene" = Some features
    ∧ features !! "gene-b" = Some attributes
    ∧ attributes !! "start" = Some (GInt 20)
    ∧ ∃ start stop strand,
        attributes !! "start" = Some (GInt start)
        ∧ attributes !! "stop" = Some (GInt stop)
        ∧ attributes !! "strand" = Some (GStr strand).
Proof.
  assert (attribute_of (parse_gff3 three_genes "ref") "gene" "gene-b" "start"
          = Some (GInt 20)) as H by (vm_compute; reflexivity).
  assert (forallb (one_id "ref") three_genes = true) as Hone by (vm_compute; reflexivity).
  destruct (parse_gff3 three_genes "ref") as [gff3_dict|e] eqn:E; [|done].
  simpl in H.
  destruct (gff3_dict !! "gene") as [features|] eqn:Hf; [|done]. simpl in H.
  destruct (features !! "gene-b") as [attributes|] eqn:Ha; [|done]. simpl in H.
  exists gff3_dict, features, attributes.
  split; [done|]. split; [done|]. split; [done|]. split; [done|].
  apply (parse_gff3_features_complete three_genes "ref" gff3_dict Hone E
           "gene" features "gene-b" attributes Hf Ha).
Defined.

Lemma get_genome_end_largest_stop_witness :
  get_genome_end map_to_list two_regions = Ok 250
  ∧ match get_genome_end map_to_list two_regions with
    | Ok genome_end => 0 ≤ genome_end
    | Raise _ => False
    end.
Proof.
  assert (get_genome_end map_to_list two_regions = Ok 250) as H by (vm_compute; reflexivity).
  split; [exact H|].
  pose proof (get_genome_end_largest_stop map_to_list two_regions (λ region, reflexivity _))
    as Hspec.
  rewrite H in *. by destruct Hspec as (region & _ & Hle & _).
Defined.

Lemma get_genome_end_of_parse_gff3_witness :
  ∃ gff3_dict,
    parse_gff3 three_genes "ref" = Ok gff3_dict
    ∧ (parse_gff3 three_genes "ref" ≫= get_genome_end map_to_list) = Ok 100
    ∧ match gff3_dict !! "region" with
      | Some region =>
          ∃ genome_end,
            get_genome_end map_to_list gff3_dict = Ok genome_end
            ∧ ∀ id attributes, region !! id = Some attributes →
                ∃ stop, attributes !! "stop" = Some (GInt stop) ∧ stop ≤ genome_end
      | None => get_genome_end map_to_list gff3_dict = Raise region_missing
      end.
Proof.
  assert ((parse_gff3 three_genes "ref" ≫= get_genome_end map_to_list) = Ok 100) as H
    by (vm_compute; reflexivity).
  assert (forallb (one_id "ref") three_genes = true) as Hone by (vm_compute; reflexivity).
  destruct (parse_gff3 three_genes "ref") as [gff3_dict|e] eqn:E; [|done].
  exists gff3_dict. split; [done|]. split.
  - exact H.
  - apply (get_genome_end_of_parse_gff3 map_to_list three_genes "ref" gff3_dict
             (λ region, reflexivity _) Hone E).
Defined.

End Genome.

(** ** Gene tracks, continued: what the layout of [create_track_dict]
    guarantees *)

Module Layout.
Import Py Gff Track.

(** The fields of an entry [name ↦ (start, stop, strand, track)] of the
    layout. *)
Definition entry_start (e : gffval * (Z * Z * gffval * nat)) : Z := e.2.1.1.1.

Definition entry_stop (e : gffval * (Z * Z * gffval * nat)) : Z := e.2.1.1.2.

Definition entry_track (e : gffval * (Z * Z * gffval * nat)) : nat := e.2.2.

(** *** Facts *)

(** Every candidate holds a mutation: [mutation in range(start, stop)]. *)
Lemma visit_annotation_spans mutation found entry found' :
  visit_annotation mutation found entry = Ok found' →
  Forall (λ g, start g < stop g) found → Forall (λ g, start g < stop g) found'.
Proof.
  unfold visit_annotation. destruct entry as [annotation attributes].
  intros (st & _ & H)%bind_Ok. apply bind_Ok in H as (sp & _ & H).
  destruct ((st <=? mutation) && (mutation <? sp)) eqn:Hin; [|by injection H as <-].
  apply bind_Ok in H as (sd & _ & [= <-]). intros Hfound.
  apply Forall_app. split; [done|]. constructor; [|constructor]. simpl.
  apply andb_prop in Hin as [H1 H2]. apply Z.leb_le in H1. apply Z.ltb_lt in H2. lia.
Qed.

Lemma collect_genes_spans unique_mutations gff3_info annotation_type found :
  collect_genes unique_mutations gff3_info annotation_type = Ok found →
  Forall (λ g, start g < stop g) found.
Proof.
  unfold collect_genes.
  apply (Genome.for_each_preserves _ (Forall (λ g, start g < stop g))); [|constructor].
  intros found0 mutation found1 _ H0 (pos & _ & H)%bind_Ok. revert H.
  apply (Genome.for_each_preserves _ (Forall (λ g, start g < stop g))); [|done].
  intros found2 type found3 _ H2.
  destruct (gff3_info !! type) as [features|]; [|by intros [= <-]].
  apply (Genome.for_each_preserves _ (Forall (λ g, start g < stop g))); [|done].
  intros found4 entry found5 _ H4 H. by eapply visit_annotation_spans.
Qed.

(** On an index whose features have their coordinates, the first loop of
    [create_track_dict] returns. *)
Lemma collect_genes_returns unique_mutations gff3_info annotation_type :
  Genome.all_complete gff3_info →
  Forall (λ mutation, ∃ pos, Vcf.mutation_position mutation = Ok pos) unique_mutations →
  ∃ found, collect_genes unique_mutations gff3_info annotation_type = Ok found.
Proof.
  intros Hall Hpos. unfold collect_genes.
  destruct (for_each_inv
    (λ found mutation,
       mutation ← Vcf.mutation_position mutation;
       for_each (λ found type,
           match gff3_info !! type with
           | None => Ok found
           | Some features => for_each (visit_annotation mutation) found (map_to_list features)
           end) found annotation_type)
    (λ _, True) unique_mutations []) as (found & Hrun & _); [done| |by exists found].
  intros found mutation Hin _. rewrite Forall_forall in Hpos.
  destruct (Hpos _ Hin) as [pos ->]. cbn [mbind result_bind].
  destruct (for_each_inv
    (λ found type,
       match gff3_info !! type with
       | None => Ok found
       | Some features => for_each (visit_annotation pos) found (map_to_list features)
       end)
    (λ _, True) annotation_type found) as (found' & Hrun & _); [done| |by exists found'].
  intros found1 type _ _.
  destruct (gff3_info !! type) as [features|] eqn:Htype; [|by exists found1].
  destruct (for_each_inv (visit_annotation pos) (λ _, True) (map_to_list features) found1)
    as (found2 & Hrun & _); [done| |by exists found2].
  intros found3 [annotation attributes] Hentry _.
  apply elem_of_map_to_list in Hentry.
  destruct (Hall type features annotation attributes Htype Hentry)
    as (st & sp & sd & Hst & Hsp & Hsd).
  unfold visit_annotation, get_int, getitem. rewrite Hst, Hsp, Hsd. simpl.
  destruct (_ && _); by eexists.
Qed.

(** What the greedy assignment guarantees.  A gene is put on a track only
    at or after the stop recorded for that track, and the stop recorded for
    a track does not decrease when genes do not end before they start. *)
Lemma greedy_tracks track_stops placed track_stops' :
  greedy track_stops placed track_stops' →
  (Forall (λ e, (entry_track e < length track_stops')%nat) placed
   ∧ (length track_stops ≤ length track_stops')%nat)
  ∧ (Forall (λ e, entry_start e ≤ entry_stop e) placed →
     (∀ e last, e ∈ placed → track_stops !! entry_track e = Some last →
        last ≤ entry_start e)
     ∧ (∀ i j e1 e2, (i < j)%nat → placed !! i = Some e1 → placed !! j = Some e2 →
          entry_track e1 = entry_track e2 → entry_stop e1 ≤ entry_start e2)).
Proof.
  induction 1 as [ts
                 |ts gene_name gene_start gene_stop gene_strand track last placed ts'
                    Hlast Hle Hearlier Hrest [[IHc IHd] IH]
                 |ts gene_name gene_start gene_stop gene_strand placed ts'
                    Hall Hrest [[IHc IHd] IH]].
  - split; [split; [constructor|done]|]. intros _. split.
    + by intros e last Hin%elem_of_nil.
    + intros i j e1 e2 _ Hi. by rewrite lookup_nil in Hi.
  - pose proof (lookup_lt_Some _ _ _ Hlast) as Hlt.
    rewrite length_insert in IHd.
    split; [split; [constructor; [simpl; unfold entry_track; simpl; lia|done]|done]|].
    intros Hspan. apply Forall_cons in Hspan as [Hspan0 Hspan].
    destruct (IH Hspan) as [IHa IHb]. unfold entry_start, entry_stop in Hspan0.
    simpl in Hspan0. split.
    + intros e last' Hin Hl. apply elem_of_cons in Hin as [->|Hin].
      * unfold entry_track, entry_start in *. simpl in *. congruence.
      * destruct (decide (entry_track e = track)) as [Ht|Ht].
        -- rewrite Ht in Hl. assert (last' = last) as -> by congruence.
           assert (gene_stop ≤ entry_start e); [|lia].
           apply IHa; [done|]. rewrite Ht. by rewrite list_lookup_insert_eq.
        -- apply IHa; [done|]. by rewrite list_lookup_insert_ne.
    + intros i j e1 e2 Hij Hi Hj Htrack.
      destruct j as [|j]; [lia|]. simpl in Hj.
      destruct i as [|i].
      * injection Hi as <-. unfold entry_track, entry_stop, entry_start in *. simpl in *.
        apply IHa; [by eapply list_elem_of_lookup_2|].
        rewrite <- Htrack. by rewrite list_lookup_insert_eq.
      * simpl in Hi. apply (IHb i j); [lia|done..].
  - rewrite length_app in IHd. simpl in IHd.
    split; [split; [constructor; [unfold entry_track; simpl; lia|done]|lia]|].
    intros Hspan. apply Forall_cons in Hspan as [Hspan0 Hspan].
    destruct (IH Hspan) as [IHa IHb]. split.
    + intros e last' Hin Hl. apply elem_of_cons in Hin as [->|Hin].
      * unfold entry_track in Hl. simpl in Hl.
        apply lookup_lt_Some in Hl. lia.
      * apply IHa; [done|]. rewrite lookup_app_l; [done|by eapply lookup_lt_Some].
    + intros i j e1 e2 Hij Hi Hj Htrack.
      destruct j as [|j]; [lia|]. simpl in Hj.
      destruct i as [|i].
      * injection Hi as <-. unfold entry_track, entry_stop, entry_start in *. simpl in *.
        apply IHa; [by eapply list_elem_of_lookup_2|].
        rewrite <- Htrack. rewrite lookup_app_r by lia. by rewrite Nat.sub_diag.
      * simpl in Hi. apply (IHb i j); [lia|done..].
Qed.

(** *** Main theorems *)

(** X26.  Genes that share a track do not overlap: of two entries of the
    layout with the same track index, the one that comes later starts at or
    after the stop of the earlier one.  Every entry starts before its
    stop. *)
Theorem create_track_dict_no_overlap set_iter unique_mutations gff3_info annotation_type
    layout n printed :
  (∀ l, set_iter l ≡ₚ l) →
  create_track_dict set_iter unique_mutations gff3_info annotation_type
  = Ok (layout, n, printed) →
  Forall (λ e, entry_start e < entry_stop e) layout
  ∧ ∀ i j e1 e2, (i < j)%nat → layout !! i = Some e1 → layout !! j = Some e2 →
      entry_track e1 = entry_track e2 → entry_stop e1 ≤ entry_start e2.
Proof.
  intros Hperm. unfold create_track_dict. intros (found & Hfound & [= Hlayout])%bind_Ok.
  apply collect_genes_spans in Hfound.
  apply layout_genes_spec in Hlayout as (_ & Hgreedy & _ & _ & Hentries).
  assert (Forall (λ e, entry_start e < entry_stop e) layout) as Hspan.
  { apply Forall_forall. intros [k [[[st sp] sd] t]] Hin.
    apply Hentries in Hin. rewrite Hperm in Hin.
    rewrite Table.elem_of_distinct in Hin.
    rewrite Forall_forall in Hfound. exact (Hfound _ Hin). }
  split; [done|].
  destruct (set_iter (distinct found)) as [|g genes].
  { destruct Hgreedy as (-> & _). intros i j e1 e2 _ Hi. by rewrite lookup_nil in Hi. }
  destruct Hgreedy as (ts & Hgreedy & _).
  apply greedy_tracks in Hgreedy as [_ Hgreedy].
  apply Hgreedy. eapply Forall_impl; [exact Hspan|]. intros e He. simpl in He. lia.
Qed.

(** X27.  The number of tracks that [create_track_dict] returns bounds
    every track index of the layout; it is 0 for the empty layout and at
    least 1 otherwise. *)
Theorem create_track_dict_track_count set_iter unique_mutations gff3_info annotation_type
    layout n printed :
  create_track_dict set_iter unique_mutations gff3_info annotation_type
  = Ok (layout, n, printed) →
  Forall (λ e, (entry_track e < n)%nat) layout
  ∧ (layout = [] → n = 0%nat ∧ printed = [Vcf.NoGenesFound])
  ∧ (layout ≠ [] → (1 ≤ n)%nat ∧ printed = []).
Proof.
  unfold create_track_dict. intros (found & _ & [= Hlayout])%bind_Ok.
  apply layout_genes_spec in Hlayout as (_ & Hgreedy & _ & Hkeys & _).
  destruct (set_iter (distinct found)) as [|g genes].
  - destruct Hgreedy as (-> & -> & ->). split; [constructor|]. by split.
  - destruct Hgreedy as (ts & Hgreedy & -> & ->).
    apply greedy_tracks in Hgreedy as [[Hc Hd] _]. split; [done|]. split.
    + intros ->. exfalso.
      assert (name g ∈ ([] : list (gffval * (Z * Z * gffval * nat))).*1) as Hin.
      { apply Hkeys. exists g. split; [left|done]. }
      by apply elem_of_nil in Hin.
    + intros _. simpl in Hd. split; [lia|done].
Qed.

(** X28.  Nothing to lay out: with no mutation, or with none of the
    annotation types in the index, [create_track_dict] returns the empty
    layout with zero tracks and prints its warning, provided every id
    begins with an integer. *)
Theorem create_track_dict_nothing_found set_iter unique_mutations gff3_info annotation_type :
  set_iter [] = [] →
  Forall (λ mutation, ∃ pos, Vcf.mutation_position mutation = Ok pos) unique_mutations →
  unique_mutations = [] ∨ Forall (λ type, gff3_info !! type = None) annotation_type →
  create_track_dict set_iter unique_mutations gff3_info annotation_type
  = Ok ([], 0%nat, [Vcf.NoGenesFound]).
Proof.
  intros Hset Hpos Hnone. unfold create_track_dict.
  assert (collect_genes unique_mutations gff3_info annotation_type = Ok []) as ->.
  { unfold collect_genes. destruct Hnone as [->|Hnone]; [done|].
    induction Hpos as [|mutation rest [pos Hm] _ IH]; [done|].
    cbn [for_each]. rewrite Hm. cbn [mbind result_bind].
    assert (for_each (λ found type,
                match gff3_info !! type with
                | None => Ok found
                | Some features =>
                    for_each (visit_annotation pos) found (map_to_list features)
                end) [] annotation_type = Ok []) as ->; [|exact IH].
    clear -Hnone. induction Hnone as [|type types Ht _ IH]; [done|].
    cbn [for_each]. rewrite Ht. exact IH. }
  simpl. by rewrite Hset.
Qed.

(** X29.  [parse_gff3] followed by [create_track_dict]: on an index built
    from lines that name their feature once, [create_track_dict] returns
    for every list of mutation ids that begin with an integer; no feature
    lacks a coordinate it reads. *)
Theorem create_track_dict_of_parse_gff3 set_iter file reference gff3_info
    unique_mutations annotation_type :
  forallb (Genome.one_id reference) file = true →
  parse_gff3 file reference = Ok gff3_info →
  Forall (λ mutation, ∃ pos, Vcf.mutation_position mutation = Ok pos) unique_mutations →
  ∃ layout n printed,
    create_track_dict set_iter unique_mutations gff3_info annotation_type
    = Ok (layout, n, printed).
Proof.
  intros Hone Hparse Hpos.
  assert (Genome.all_complete gff3_info) as Hall.
  { revert Hparse. unfold parse_gff3. intros ([d a] & Hrun & H)%bind_Ok.
    destruct (decide (dom d = ∅)) as [|Hdom]; [done|]. injection H as <-.
    apply (Genome.parse_lines_complete reference file ∅ None d a Hone Hrun).
    intros type features id attrs Ht. by rewrite lookup_empty in Ht. }
  destruct (collect_genes_returns unique_mutations gff3_info annotation_type Hall Hpos)
    as [found Hfound].
  unfold create_track_dict. rewrite Hfound. simpl.
  destruct (layout_genes (set_iter (distinct found))) as [[layout n] printed].
  by exists layout, n, printed.
Qed.

(** *** Worked examples *)

(** The three genes: [a] and [gene-c] share track 0, and [gene-c] starts
    after the stop of [a]. *)
Lemma create_track_dict_no_overlap_witness :
  ∃ gff3_info layout n printed,
    parse_gff3 three_genes "ref" = Ok gff3_info
    ∧ create_track_dict reverse three_mutations gff3_info ["gene"] = Ok (layout, n, printed)
    ∧ Forall (λ e, entry_start e < entry_stop e) layout
    ∧ ∀ i j e1 e2, (i < j)%nat → layout !! i = Some e1 → layout !! j = Some e2 →
        entry_track e1 = entry_track e2 → entry_stop e1 ≤ entry_start e2.
Proof.
  assert (is_ok (parse_gff3 three_genes "ref"
                   ≫= λ gff, create_track_dict reverse three_mutations gff ["gene"]) = true)
    as Hok by (vm_compute; reflexivity).
  destruct (parse_gff3 three_genes "ref") as [gff|e] eqn:E; [|done]. simpl in Hok.
  destruct (create_track_dict reverse three_mutations gff ["gene"])
    as [[[layout n] printed]|e] eqn:Hrun; [|done].
  exists gff, layout, n, printed. split; [reflexivity|]. split; [exact Hrun|].
  exact (create_track_dict_no_overlap reverse three_mutations gff ["gene"] layout n printed
           (λ l, reverse_Permutation l) Hrun).
Defined.

Lemma create_track_dict_track_count_witness :
  ∃ gff3_info layout n printed,
    parse_gff3 three_genes "ref" = Ok gff3_info
    ∧ create_track_dict id three_mutations gff3_info ["gene"] = Ok (layout, n, printed)
    ∧ n = 2%nat
    ∧ Forall (λ e, (entry_track e < n)%nat) layout.
Proof.
  assert ((parse_gff3 three_genes "ref"
             ≫= λ gff, (λ r, r.1.2) <$> create_track_dict id three_mutations gff ["gene"])
          = Ok 2%nat) as Hn by (vm_compute; reflexivity).
  destruct (parse_gff3 three_genes "ref") as [gff|e] eqn:E; [|done]. simpl in Hn.
  destruct (create_track_dict id three_mutations gff ["gene"])
    as [[[layout n] printed]|e] eqn:Hrun; [|done].
  simpl in Hn. injection Hn as ->.
  exists gff, layout, 2%nat, printed. split; [reflexivity|]. split; [exact Hrun|].
  split; [reflexivity|].
  exact (proj1 (create_track_dict_track_count id three_mutations gff ["gene"] layout 2%nat
                  printed Hrun)).
Defined.

(** No mutation at all, and an annotation type that the index lacks. *)
Lemma create_track_dict_nothing_found_witness :
  create_track_dict id [] ∅ ["gene"] = Ok ([], 0%nat, [Vcf.NoGenesFound])
  ∧ create_track_dict id three_mutations {[ "region" := ∅ ]} ["gene"]
    = Ok ([], 0%nat, [Vcf.NoGenesFound]).
Proof.
  split.
  - apply (create_track_dict_nothing_found id [] ∅ ["gene"] eq_refl); [constructor|by left].
  - apply (create_track_dict_nothing_found id three_mutations {[ "region" := ∅ ]} ["gene"]
             eq_refl).
    + repeat (apply Forall_cons_2; [eexists; vm_compute; reflexivity|]). apply Forall_nil_2.
    + right. apply Forall_cons_2; [reflexivity|apply Forall_nil_2].
Defined.

Lemma create_track_dict_of_parse_gff3_witness :
  ∃ gff3_info layout n printed,
    parse_gff3 three_genes "ref" = Ok gff3_info
    ∧ create_track_dict id three_mutations gff3_info ["gene"; "region"]
      = Ok (layout, n, printed).
Proof.
  assert (is_ok (parse_gff3 three_genes "ref") = true) as Hok by (vm_compute; reflexivity).
  assert (forallb (Genome.one_id "ref") three_genes = true) as Hone
    by (vm_compute; reflexivity).
  destruct (parse_gff3 three_genes "ref") as [gff|e] eqn:E; [|done].
  assert (Forall (λ mutation, ∃ pos, Vcf.mutation_position mutation = Ok pos)
            three_mutations) as Hpos.
  { repeat (apply Forall_cons_2; [eexists; vm_compute; reflexivity|]). apply Forall_nil_2. }
  destruct (create_track_dict_of_parse_gff3 id three_genes "ref" gff three_mutations
              ["gene"; "region"] Hone E Hpos) as (layout & n & printed & Hrun).
  exists gff, layout, n, printed. split; [reflexivity|exact Hrun].
Defined.

End Layout.
